(** * Asynchronous transcoding-job orchestration of [app.py]

    A shallow embedding of the job subsystem of the video transcoding
    service: request intake ([transcode_video], [batch_transcode]), the
    job table of the SQLite store, the worker run on the thread pool
    ([transcode_video_cpu_intensive]) and the read paths
    ([get_transcoding_job], [download_transcoded_video]).

    Conventions of the embedding:
    - a table is a finite map from its primary key to a row record;
      nullable columns are [option]s; a decoded JSON value or a Python
      value that is a [str] or [None] is an [option string];
    - [uuid.uuid4()], [CURRENT_TIMESTAMP], [time.time()] and the outcome of
      [subprocess.run] are inputs of the function that calls them; clock
      readings and durations are integers;
    - an exception is the text [str(e)]; the store and the engine may
      raise inside the [try] block of the worker, and the store may raise
      again inside its [except] block;
    - a view or a run, taken alone, is a function on the store and the
      pool; the running service interleaves the request threads and the
      pool threads, each cut where it reads the store, where it commits,
      and where it hands a task to the executor. *)

From Stdlib Require Import ZArith Ascii.
From stdpp Require Import gmap strings list fin_maps fin_sets.

Open Scope Z_scope.

(** ** Python string helpers *)

Module Py.

(** [str.lower] on ASCII text: 'A'..'Z' are moved to 'a'..'z'. Python
    also lowers code points outside the ASCII range, which this function
    leaves alone; one of them becomes an ASCII letter (U+212A, the Kelvin
    sign, becomes k). No text lowers to h264, h265 or vp9 that way, so the
    comparisons of [codec_args] are those of the source for every input;
    what is stated about file names is stated for ASCII names. *)
Definition lower_ascii (c : ascii) : ascii :=
  let n := nat_of_ascii c in
  if ((65 <=? n)%nat && (n <=? 90)%nat)%bool then ascii_of_nat (n + 32) else c.

Fixpoint lower (s : string) : string :=
  match s with
  | EmptyString => EmptyString
  | String c s' => String (lower_ascii c) (lower s')
  end.

(** [sep.join(l)] *)
Fixpoint join (sep : string) (l : list string) : string :=
  match l with
  | [] => ""
  | [x] => x
  | x :: l' => x +:+ sep +:+ join sep l'
  end.

(** Truthiness of a [str] and of an optional ([None]-able) [str]. *)
Definition truthy_str (s : string) : bool := negb (bool_decide (s = "")).

Definition truthy (o : option string) : bool :=
  match o with
  | Some s => truthy_str s
  | None => false
  end.

(** [str(x)] inside an f-string for a value that is a [str] or [None]. *)
Definition str (o : option string) : string :=
  match o with
  | Some s => s
  | None => "None"
  end.

(** [os.path.join(a, b)] on POSIX, two components. *)
Definition starts_with_slash (s : string) : bool :=
  match s with
  | String c _ => bool_decide (c = "/"%char)
  | EmptyString => false
  end.

Fixpoint ends_with_slash (s : string) : bool :=
  match s with
  | EmptyString => false
  | String c EmptyString => bool_decide (c = "/"%char)
  | String _ s' => ends_with_slash s'
  end.

Definition path_join (a b : string) : string :=
  if starts_with_slash b then b
  else if (bool_decide (a = "") || ends_with_slash a)%bool then a +:+ b
  else a +:+ "/" +:+ b.

End Py.

(** ** The engine invocation built by [transcode_video_cpu_intensive] *)

(** The [if/elif] chain on [target_resolution] (source lines 237-244). *)
Definition scale_filter (target_resolution : string) : list string :=
  if bool_decide (target_resolution = "4K") then ["scale=3840:2160:flags=lanczos"]
  else if bool_decide (target_resolution = "1080p") then ["scale=1920:1080:flags=lanczos"]
  else if bool_decide (target_resolution = "720p") then ["scale=1280:720:flags=lanczos"]
  else if bool_decide (target_resolution = "480p") then ["scale=854:480:flags=lanczos"]
  else [].

(** The [if/elif] chain on [target_format.lower()] (source lines 258-278). *)
Definition codec_args (target_format : string) : list string :=
  if bool_decide (Py.lower target_format = "h264") then
    ["-c:v"; "libx264"; "-preset"; "veryslow"; "-crf"; "18";
     "-x264-params"; "me=umh:subme=10:ref=16:b-adapt=2:direct=auto:weightp=2"]
  else if bool_decide (Py.lower target_format = "h265") then
    ["-c:v"; "libx265"; "-preset"; "veryslow"; "-crf"; "20";
     "-x265-params"; "me=3:subme=4:ref=6:b-adapt=2"]
  else if bool_decide (Py.lower target_format = "vp9") then
    ["-c:v"; "libvpx-vp9"; "-crf"; "20"; "-b:v"; "0"; "-cpu-used"; "0"]
  else [].

(** The list [cmd] as it stands when [subprocess.run] is called; every
    [let] is one statement of the source (lines 230-287). *)
Definition build_cmd (input_path output_path target_format : string)
    (target_resolution target_bitrate : option string) : list string :=
  let cmd := ["ffmpeg"; "-i"; input_path; "-y"] in
  let video_filters : list string := [] in
  let video_filters :=
    match target_resolution with
    | Some r => if Py.truthy_str r then video_filters ++ scale_filter r else video_filters
    | None => video_filters
    end in
  let video_filters :=
    video_filters ++ ["unsharp=5:5:1.0:5:5:0.0";
                      "eq=contrast=1.1:brightness=0.02:saturation=1.1";
                      "hqdn3d=4:3:6:4.5"] in
  let cmd :=
    match video_filters with
    | [] => cmd
    | _ => cmd ++ ["-vf"; Py.join "," video_filters]
    end in
  let cmd := cmd ++ codec_args target_format in
  let cmd := cmd ++ ["-c:a"; "aac"; "-b:a"; "128k"] in
  let cmd :=
    match target_bitrate with
    | Some b => if Py.truthy_str b then cmd ++ ["-b:v"; b] else cmd
    | None => cmd
    end in
  cmd ++ [output_path].

(** The part of the invocation between the input arguments and the audio
    arguments, read off [build_cmd] itself. *)
Definition engine_profile (target_format : string) (target_resolution : option string)
    : list string :=
  let cmd := build_cmd "" "" target_format target_resolution None in
  take (length cmd - 9) (drop 4 cmd).

Definition bitrate_args (target_bitrate : option string) : list string :=
  match target_bitrate with
  | Some b => if Py.truthy_str b then ["-b:v"; b] else []
  | None => []
  end.

(** ** The store: tables [videos] and [transcoding_jobs] *)

Inductive job_status := queued | processing | completed | failed.

#[global] Instance job_status_eq_dec : EqDecision job_status.
Proof. solve_decision. Defined.

(** The columns of [videos] that the job subsystem reads. *)
Record video := mk_video {
  v_user_id : Z;
  v_filename : string
}.

(** A row of [transcoding_jobs] without its key [id]. *)
Record job := mk_job {
  j_user_id : Z;
  j_video_id : string;
  j_target_format : string;               (* TEXT NOT NULL *)
  j_target_resolution : option string;
  j_target_bitrate : option string;
  j_status : job_status;                  (* DEFAULT 'queued' *)
  j_progress : Z;                         (* DEFAULT 0 *)
  j_result_filename : option string;
  j_created_at : Z;                       (* DEFAULT CURRENT_TIMESTAMP *)
  j_started_at : option Z;
  j_completed_at : option Z;
  j_processing_time : option Z;
  j_error_message : option string
}.

Record db := mk_db {
  videos : gmap string video;
  transcoding_jobs : gmap string job
}.

(** [SELECT filename FROM videos WHERE id = ?] for an admin, with
    [AND user_id = ?] for everybody else; [fetchone()]. *)
Definition select_video (d : db) (current_user_role : string) (current_user_id : Z)
    (video_id : string) : option video :=
  if bool_decide (current_user_role = "admin") then videos d !! video_id
  else match videos d !! video_id with
       | Some v => if bool_decide (v_user_id v = current_user_id) then Some v else None
       | None => None
       end.

(** [INSERT INTO transcoding_jobs (id, user_id, video_id, target_format,
    target_resolution, target_bitrate, result_filename) VALUES ...]; the
    other columns take their defaults. [inl] is the text of the
    [sqlite3.IntegrityError] raised on a constraint. *)
Definition insert_job (now : Z) (job_id : string) (user_id : Z) (video_id : string)
    (target_format target_resolution target_bitrate : option string)
    (result_filename : string) (d : db) : string + db :=
  match target_format with
  | None => inl "NOT NULL constraint failed: transcoding_jobs.target_format"
  | Some fmt =>
    match transcoding_jobs d !! job_id with
    | Some _ => inl "UNIQUE constraint failed: transcoding_jobs.id"
    | None =>
      inr {| videos := videos d;
             transcoding_jobs :=
               <[job_id :=
                   {| j_user_id := user_id; j_video_id := video_id;
                      j_target_format := fmt;
                      j_target_resolution := target_resolution;
                      j_target_bitrate := target_bitrate;
                      j_status := queued; j_progress := 0;
                      j_result_filename := Some result_filename;
                      j_created_at := now;
                      j_started_at := None; j_completed_at := None;
                      j_processing_time := None; j_error_message := None |}]>
               (transcoding_jobs d) |}
    end
  end.

(** [UPDATE transcoding_jobs SET ... WHERE id = ?]: the row with that key
    is rewritten, a missing key changes nothing. *)
Definition update_job (job_id : string) (f : job → job) (d : db) : db :=
  {| videos := videos d;
     transcoding_jobs := alter f job_id (transcoding_jobs d) |}.

(** [SET status = 'processing', started_at = CURRENT_TIMESTAMP] *)
Definition set_processing (now : Z) (j : job) : job :=
  {| j_user_id := j_user_id j; j_video_id := j_video_id j;
     j_target_format := j_target_format j;
     j_target_resolution := j_target_resolution j;
     j_target_bitrate := j_target_bitrate j;
     j_status := processing; j_progress := j_progress j;
     j_result_filename := j_result_filename j;
     j_created_at := j_created_at j;
     j_started_at := Some now; j_completed_at := j_completed_at j;
     j_processing_time := j_processing_time j;
     j_error_message := j_error_message j |}.

(** [SET status = 'completed', progress = 100,
    completed_at = CURRENT_TIMESTAMP, processing_time = ?] *)
Definition set_completed (now processing_time : Z) (j : job) : job :=
  {| j_user_id := j_user_id j; j_video_id := j_video_id j;
     j_target_format := j_target_format j;
     j_target_resolution := j_target_resolution j;
     j_target_bitrate := j_target_bitrate j;
     j_status := completed; j_progress := 100;
     j_result_filename := j_result_filename j;
     j_created_at := j_created_at j;
     j_started_at := j_started_at j; j_completed_at := Some now;
     j_processing_time := Some processing_time;
     j_error_message := j_error_message j |}.

(** [SET status = 'failed', error_message = ?] *)
Definition set_failed (error_message : string) (j : job) : job :=
  {| j_user_id := j_user_id j; j_video_id := j_video_id j;
     j_target_format := j_target_format j;
     j_target_resolution := j_target_resolution j;
     j_target_bitrate := j_target_bitrate j;
     j_status := failed; j_progress := j_progress j;
     j_result_filename := j_result_filename j;
     j_created_at := j_created_at j;
     j_started_at := j_started_at j; j_completed_at := j_completed_at j;
     j_processing_time := j_processing_time j;
     j_error_message := Some error_message |}.

(** ** The thread pool [executor = ThreadPoolExecutor(max_workers=4)] *)

Definition max_workers : nat := 4.

(** What [executor.submit] is given: the transcoding function with its six
    arguments, or the closure of [stress_test]. *)
Inductive task :=
| Transcode (input_path output_path : string)
            (target_format target_resolution target_bitrate : option string)
            (job_id : string)
| CpuIntensive (duration : Z).

(** A task held by a pool thread: picked up and not yet past the first
    commit, or past it (the job is marked processing, [start_time] is
    taken) and inside the [try] block up to the last commit. *)
Inductive worker :=
| Started (t : task)
| Encoding (t : task) (start_time : Z).

Record pool := mk_pool {
  backlog : list task;       (* the executor's FIFO work queue *)
  running : list worker      (* tasks held by the pool's threads *)
}.

Definition executor_submit (t : task) (p : pool) : pool :=
  {| backlog := backlog p ++ [t]; running := running p |}.

Record world := mk_world {
  store : db;
  executor : pool
}.

(** ** Requests and responses *)

(** The decoded JSON body, restricted to the keys the views read. A key is
    absent ([None]) or carries a value; the values modelled are JSON
    strings ([Some s]) and JSON null ([None]), [video_ids] is an array of
    strings. *)
Record body := mk_body {
  b_video_ids : option (list string);
  b_target_format : option (option string);
  b_target_resolution : option (option string);
  b_target_bitrate : option (option string)
}.

(** The fields of the JSON object that [get_transcoding_job] returns. *)
Record job_data := mk_job_data {
  jd_id : string;
  jd_target_format : string;
  jd_target_resolution : option string;
  jd_status : job_status;
  jd_progress : Z;
  jd_created_at : Z;
  jd_completed_at : option Z;
  jd_processing_time : option Z;
  jd_error_message : option string;
  jd_download_url : option string       (* the key is present or not *)
}.

Inductive response :=
| Message (code : Z) (message : string)            (* jsonify({'message': ...}), code *)
| TranscodingStarted (job_id : string) (target_format target_resolution : option string)
                                                    (* 202 *)
| BatchStarted (job_ids : list string)              (* 202 *)
| JobData (data : job_data)                         (* 200 *)
| SendFile (file_path : string)                     (* return send_file(file_path, ...) *)
| StressStarted (duration : Z) (intensity : nat)    (* 200 *)
| InternalServerError (e : string).                 (* an exception leaves the view *)

Definition UPLOAD_FOLDER : string := "uploads".
Definition TRANSCODED_FOLDER : string := "transcoded".

Definition valid_formats : list string := ["h264"; "h265"; "vp9"].
Definition valid_resolutions : list string := ["480p"; "720p"; "1080p"; "4K"].

(** [x in l] for a decoded value [x] and a list of [str]. *)
Definition py_in (x : option string) (l : list string) : bool :=
  match x with
  | Some s => bool_decide (s ∈ l)
  | None => false
  end.

(** f"{job_id}_{target_format}_{target_resolution}.mp4" *)
Definition make_result_filename (job_id : string)
    (target_format target_resolution : option string) : string :=
  job_id +:+ "_" +:+ Py.str target_format +:+ "_" +:+ Py.str target_resolution +:+ ".mp4".

(** ** [transcode_video]: POST /api/v1/videos/<video_id>/transcode

    [now] is the store's clock at the INSERT and [uuid4] the value
    [str(uuid.uuid4())] drawn by the call. *)
Definition transcode_video (now : Z) (uuid4 : string)
    (current_user_id : Z) (current_user_role : string) (video_id : string)
    (data : body) (w : world) : response * world :=
  let target_format := default (Some "h264") (b_target_format data) in
  let target_resolution := default (Some "720p") (b_target_resolution data) in
  let target_bitrate := default (Some "2M") (b_target_bitrate data) in
  if negb (py_in target_format valid_formats) then
    (Message 400 "Invalid target format", w)
  else if negb (py_in target_resolution valid_resolutions) then
    (Message 400 "Invalid target resolution", w)
  else
    match select_video (store w) current_user_role current_user_id video_id with
    | None => (Message 404 "Video not found", w)
    | Some video =>
      let job_id := uuid4 in
      let result_filename := make_result_filename job_id target_format target_resolution in
      match insert_job now job_id current_user_id video_id
                       target_format target_resolution target_bitrate
                       result_filename (store w) with
      | inl e => (InternalServerError e, w)
      | inr d' =>
        let input_path := Py.path_join UPLOAD_FOLDER (v_filename video) in
        let output_path := Py.path_join TRANSCODED_FOLDER result_filename in
        (TranscodingStarted job_id target_format target_resolution,
         {| store := d';
            executor :=
              executor_submit
                (Transcode input_path output_path
                           target_format target_resolution target_bitrate job_id)
                (executor w) |})
      end
    end.

(** ** [batch_transcode]: POST /api/v1/transcoding/batch *)

(** One turn of the [for video_id in video_ids] loop. [job_ids] is the
    list built so far; [inl] carries an exception leaving the loop, with
    the world as committed up to then. *)
Definition batch_item (now : Z) (uuid4 : string)
    (current_user_id : Z) (current_user_role : string)
    (target_format target_resolution target_bitrate : option string)
    (video_id : string) (job_ids : list string) (w : world)
    : string * world + list string * world :=
  let job_id := uuid4 in
  let result_filename := make_result_filename job_id target_format target_resolution in
  match select_video (store w) current_user_role current_user_id video_id with
  | Some video =>
    match insert_job now job_id current_user_id video_id
                     target_format target_resolution target_bitrate
                     result_filename (store w) with
    | inl e => inl (e, w)
    | inr d' =>
      let input_path := Py.path_join UPLOAD_FOLDER (v_filename video) in
      let output_path := Py.path_join TRANSCODED_FOLDER result_filename in
      inr (job_ids ++ [job_id],
           {| store := d';
              executor :=
                executor_submit
                  (Transcode input_path output_path
                             target_format target_resolution target_bitrate job_id)
                  (executor w) |})
    end
  | None => inr (job_ids, w)
  end.

(** The loop; the [i]-th turn draws [uuid4 i] and reads the clock [now i]. *)
Fixpoint batch_loop (now : nat → Z) (uuid4 : nat → string) (i : nat)
    (current_user_id : Z) (current_user_role : string)
    (target_format target_resolution target_bitrate : option string)
    (video_ids : list string) (job_ids : list string) (w : world)
    : string * world + list string * world :=
  match video_ids with
  | [] => inr (job_ids, w)
  | video_id :: rest =>
    match batch_item (now i) (uuid4 i) current_user_id current_user_role
                     target_format target_resolution target_bitrate
                     video_id job_ids w with
    | inl err => inl err
    | inr (job_ids', w') =>
      batch_loop now uuid4 (S i) current_user_id current_user_role
                 target_format target_resolution target_bitrate rest job_ids' w'
    end
  end.

Definition batch_transcode (now : nat → Z) (uuid4 : nat → string)
    (current_user_id : Z) (current_user_role : string)
    (data : body) (w : world) : response * world :=
  let video_ids := default [] (b_video_ids data) in
  let target_format := default (Some "h264") (b_target_format data) in
  let target_resolution := default (Some "720p") (b_target_resolution data) in
  let target_bitrate := default (Some "2M") (b_target_bitrate data) in
  match video_ids with
  | [] => (Message 400 "No video IDs provided", w)
  | _ =>
    match batch_loop now uuid4 0 current_user_id current_user_role
                     target_format target_resolution target_bitrate
                     video_ids [] w with
    | inl (e, w') => (InternalServerError e, w')
    | inr (job_ids, w') => (BatchStarted job_ids, w')
    end
  end.

(** ** [transcode_video_cpu_intensive]: the run of one job on a pool thread *)

(** What [subprocess.run(cmd, capture_output=True, text=True)] returns. *)
Record completed_process := mk_completed_process {
  returncode : Z;
  stderr : string
}.

(** The [except Exception as e] block (source lines 316-325), [e] being
    the text [str(e)]: a new connection, the update to 'failed', the
    commit. [handler] is what the store does to these statements: [None]
    when they run to their end, [Some e'] when one of them raises [e'].
    In that case nothing is committed and the exception leaves the
    function; the executor keeps it in a future that nobody reads. *)
Definition on_exception (handler : option string) (e : string) (job_id : string)
    (d : db) : db :=
  match handler with
  | None => update_job job_id (set_failed e) d
  | Some _ => d
  end.

(** The [try] block up to its first commit (lines 217-227). [ev] is what
    the store and the clock do: an exception, or the pair
    [(CURRENT_TIMESTAMP, time.time())]. The result is the store and, when
    the body goes on, [start_time]. *)
Definition worker_begin (ev : string + Z * Z) (handler : option string)
    (job_id : string) (d : db) : db * option Z :=
  match ev with
  | inl e => (on_exception handler e job_id d, None)
  | inr (now, start_time) => (update_job job_id (set_processing now) d, Some start_time)
  end.

(** The rest of the [try] block (lines 229-314): the store it commits, or
    the exception that leaves it. [engine] is [subprocess.run], [ev] the
    last update and commit: an exception, or the pair
    [(time.time(), CURRENT_TIMESTAMP)]. A [target_format] that is [None]
    has no [lower]. *)
Definition try_end (engine : list string → string + completed_process)
    (ev : string + Z * Z)
    (input_path output_path : string)
    (target_format target_resolution target_bitrate : option string)
    (job_id : string) (start_time : Z) (d : db) : string + db :=
  match target_format with
  | None => inl "'NoneType' object has no attribute 'lower'"
  | Some fmt =>
    let cmd := build_cmd input_path output_path fmt target_resolution target_bitrate in
    match engine cmd with
    | inl e => inl e
    | inr process =>
      match ev with
      | inl e => inl e
      | inr (t, now) =>
        if bool_decide (returncode process = 0) then
          let processing_time := t - start_time in
          inr (update_job job_id (set_completed now processing_time) d)
        else
          inr (update_job job_id (set_failed (stderr process)) d)
      end
    end
  end.

(** The rest of the run: the [try] block and, when it raises, the
    [except] block. *)
Definition worker_end (engine : list string → string + completed_process)
    (ev : string + Z * Z) (handler : option string)
    (input_path output_path : string)
    (target_format target_resolution target_bitrate : option string)
    (job_id : string) (start_time : Z) (d : db) : db :=
  match try_end engine ev input_path output_path
                target_format target_resolution target_bitrate job_id start_time d with
  | inl e => on_exception handler e job_id d
  | inr d' => d'
  end.

(** The inputs of one run. *)
Record run_events := mk_run_events {
  ev_begin : string + Z * Z;
  ev_engine : list string → string + completed_process;
  ev_end : string + Z * Z;
  ev_handler : option string
}.

Definition transcode_video_cpu_intensive (ev : run_events)
    (input_path output_path : string)
    (target_format target_resolution target_bitrate : option string)
    (job_id : string) (d : db) : db :=
  match worker_begin (ev_begin ev) (ev_handler ev) job_id d with
  | (d1, None) => d1
  | (d1, Some start_time) =>
    worker_end (ev_engine ev) (ev_end ev) (ev_handler ev) input_path output_path
               target_format target_resolution target_bitrate job_id start_time d1
  end.

(** ** The read paths *)

(** [SELECT ... FROM transcoding_jobs WHERE id = ?], with
    [AND user_id = ?] for a requester who is not an admin. *)
Definition select_job (d : db) (current_user_role : string) (current_user_id : Z)
    (job_id : string) : option job :=
  if bool_decide (current_user_role = "admin") then transcoding_jobs d !! job_id
  else match transcoding_jobs d !! job_id with
       | Some j => if bool_decide (j_user_id j = current_user_id) then Some j else None
       | None => None
       end.

Definition download_url (job_id : string) : string :=
  "/api/v1/transcoding/jobs/" +:+ job_id +:+ "/download".

(** GET /api/v1/transcoding/jobs/<job_id> *)
Definition get_transcoding_job (current_user_id : Z) (current_user_role : string)
    (job_id : string) (w : world) : response * world :=
  match select_job (store w) current_user_role current_user_id job_id with
  | None => (Message 404 "Job not found", w)
  | Some job =>
    (JobData
       {| jd_id := job_id;
          jd_target_format := j_target_format job;
          jd_target_resolution := j_target_resolution job;
          jd_status := j_status job;
          jd_progress := j_progress job;
          jd_created_at := j_created_at job;
          jd_completed_at := j_completed_at job;
          jd_processing_time := j_processing_time job;
          jd_error_message := j_error_message job;
          jd_download_url :=
            if (Py.truthy (j_result_filename job)
                && bool_decide (j_status job = completed))%bool
            then Some (download_url job_id) else None |}, w)
  end.

(** [SELECT result_filename FROM transcoding_jobs WHERE id = ? AND
    status = 'completed'], with [AND user_id = ?] for a requester who is
    not an admin; the row fetched is the one-column tuple. *)
Definition select_completed_result (d : db) (current_user_role : string)
    (current_user_id : Z) (job_id : string) : option (option string) :=
  match select_job d current_user_role current_user_id job_id with
  | Some j => if bool_decide (j_status j = completed)
              then Some (j_result_filename j) else None
  | None => None
  end.

(** GET /api/v1/transcoding/jobs/<job_id>/download; [path_exists] is
    [os.path.exists], which reads a relative path from the working
    directory. [SendFile p] says that the view returns [send_file(p)];
    what Flask then does with a relative [p] (it reads it from the
    application's root directory, and raises when there is no such file)
    is not part of the view. *)
Definition download_transcoded_video (path_exists : string → bool)
    (current_user_id : Z) (current_user_role : string)
    (job_id : string) (w : world) : response * world :=
  match select_completed_result (store w) current_user_role current_user_id job_id with
  | Some (Some result_filename) =>
    if Py.truthy_str result_filename then
      let file_path := Py.path_join TRANSCODED_FOLDER result_filename in
      if path_exists file_path then (SendFile file_path, w)
      else (Message 404 "File not found", w)
    else (Message 404 "Transcoded video not found", w)
  | _ => (Message 404 "Transcoded video not found", w)
  end.

(** ** The other writers of the store and of the pool *)

(** The INSERT of [upload_video] (line 437); the checks on the uploaded
    file and the probe of its metadata lie outside the job subsystem. *)
Definition insert_video (video_id : string) (user_id : Z) (filename : string)
    (d : db) : string + db :=
  match videos d !! video_id with
  | Some _ => inl "UNIQUE constraint failed: videos.id"
  | None =>
    inr {| videos := <[video_id := {| v_user_id := user_id; v_filename := filename |}]>
                       (videos d);
           transcoding_jobs := transcoding_jobs d |}
  end.

(** DELETE /api/v1/videos/<video_id>: the rows of the video and of its
    jobs go (the files on disk are not part of the store). *)
Definition delete_video (current_user_id : Z) (current_user_role : string)
    (video_id : string) (w : world) : response * world :=
  match select_video (store w) current_user_role current_user_id video_id with
  | None => (Message 404 "Video not found", w)
  | Some _ =>
    (Message 200 "Video deleted successfully",
     {| store :=
          {| videos := delete video_id (videos (store w));
             transcoding_jobs :=
               filter (λ kj, j_video_id kj.2 ≠ video_id)
                      (transcoding_jobs (store w)) |};
        executor := executor w |})
  end.


(** ** The service: request threads and pool threads interleaved *)

Definition task_job_id (t : task) : option string :=
  match t with
  | Transcode _ _ _ _ _ job_id => Some job_id
  | CpuIntensive _ => None
  end.

Definition worker_task (wk : worker) : task :=
  match wk with
  | Started t => t
  | Encoding t _ => t
  end.

Definition worker_job_id (wk : worker) : option string :=
  task_job_id (worker_task wk).

(** The job ids of the tasks in the pool, queued or held by a thread. *)
Definition pool_job_ids (p : pool) : list string :=
  omap task_job_id (backlog p) ++ omap worker_job_id (running p).

(** The job ids of the tasks that are past the commit of 'processing'. *)
Definition encoding_job_id (wk : worker) : option string :=
  match wk with
  | Encoding t _ => task_job_id t
  | Started _ => None
  end.

Definition encoding_jobs (p : pool) : list string :=
  omap encoding_job_id (running p).

(** The task that the intake views hand to the executor for a job on the
    video row [v] (lines 596-600 and 978-982). *)
Definition transcode_task (v : video)
    (target_format target_resolution target_bitrate : option string)
    (job_id : string) : task :=
  Transcode (Py.path_join UPLOAD_FOLDER (v_filename v))
            (Py.path_join TRANSCODED_FOLDER
               (make_result_filename job_id target_format target_resolution))
            target_format target_resolution target_bitrate job_id.

(** A submission or a deletion that a thread of the web server has begun
    and not ended. The other threads go on between two statements of a
    view, so a view is cut where it reads the store, where it commits and
    where it calls [executor.submit]:
    - [Checked]: [transcode_video] has read the row of the video (line
      577) and has not yet inserted the job;
    - [Inserted]: it has committed the job (line 592) and has not yet
      called [executor.submit] (line 599);
    - [BatchLoop]: [batch_transcode] is at the top of its loop, with these
      references left;
    - [BatchChecked]: it has read the row of the video (line 968);
    - [BatchSubmitted]: it has executed the INSERT (line 970) and called
      [executor.submit] (line 981) and has not yet committed (line 986):
      its connection holds the write lock of the database, and the row is
      not yet visible to the other connections;
    - [Deleting]: [delete_video] has read the row of the video (line
      1032) and has not yet deleted it. *)
Inductive request :=
| Checked (current_user_id : Z) (video_id : string)
          (target_format target_resolution target_bitrate : option string)
          (video : video)
| Inserted (t : task)
| BatchLoop (current_user_id : Z) (current_user_role : string)
            (target_format target_resolution target_bitrate : option string)
            (video_ids : list string)
| BatchChecked (current_user_id : Z) (current_user_role : string)
               (target_format target_resolution target_bitrate : option string)
               (video_id : string) (video : video) (rest : list string)
| BatchSubmitted (current_user_id : Z) (current_user_role : string)
                 (target_format target_resolution target_bitrate : option string)
                 (video_id : string) (video : video) (now : Z) (job_id : string)
                 (rest : list string)
| Deleting (video_id : string).

(** The service: the store and the pool, and the requests being served. *)
Record service := mk_service {
  state : world;
  serving : list request
}.

(** The tasks that a request is about to hand to the executor. *)
Definition pending_task (r : request) : option task :=
  match r with
  | Inserted t => Some t
  | _ => None
  end.

Definition pending (rs : list request) : list task := omap pending_task rs.

(** The job ids inserted and not yet committed. *)
Definition uncommitted_id (r : request) : option string :=
  match r with
  | BatchSubmitted _ _ _ _ _ _ _ _ job_id _ => Some job_id
  | _ => None
  end.

Definition uncommitted (rs : list request) : list string := omap uncommitted_id rs.

(** A connection holds the write lock: SQLite lets no other connection
    write or commit until it commits. Every other write of the code is
    followed by its commit with no call in between that another thread
    could wait for, so only [BatchSubmitted] is a state of its own. *)
Definition write_locked (rs : list request) : bool :=
  match uncommitted rs with
  | [] => false
  | _ => true
  end.

Definition ids_in_use (s : service) : list string :=
  pool_job_ids (executor (state s))
  ++ omap task_job_id (pending (serving s))
  ++ uncommitted (serving s).

(** [uuid.uuid4()] does not return an identifier that a task or a request
    of the running service already carries. (A clash with a stored row is
    caught by the store: [insert_job] fails.) The identifier is drawn
    before the SELECT in [batch_transcode] and after it in
    [transcode_video]; it is used first at the INSERT, where the model
    draws it. *)
Definition fresh_uuid (job_id : string) (s : service) : Prop :=
  job_id ∉ ids_in_use s.

#[global] Instance fresh_uuid_dec job_id s : Decision (fresh_uuid job_id s).
Proof. unfold fresh_uuid. apply _. Defined.

(** One move of one thread. The index [i] names a request in [serving]
    or a thread in [running]. *)
Inductive action :=
(* transcode_video *)
| TranscodeCheck (current_user_id : Z) (current_user_role : string)
                 (video_id : string) (data : body)
| TranscodeInsert (i : nat) (now : Z) (uuid4 : string)
| TranscodeSubmit (i : nat)
(* batch_transcode *)
| BatchBegin (current_user_id : Z) (current_user_role : string) (data : body)
| BatchCheck (i : nat)
| BatchSubmit (i : nat) (now : Z) (uuid4 : string)
| BatchCommit (i : nat) (commit : option string)
(* upload_video, delete_video, stress_test *)
| Upload (video_id : string) (current_user_id : Z) (filename : string)
| DeleteCheck (current_user_id : Z) (current_user_role : string) (video_id : string)
| DeleteCommit (i : nat)
| StressSubmit (duration : Z)
(* the pool *)
| Dispatch
| WorkerBegin (i : nat) (ev : string + Z * Z) (handler : option string)
| WorkerEnd (i : nat) (engine : list string → string + completed_process)
            (ev : string + Z * Z) (handler : option string)
| CpuDone (i : nat)
(* the process *)
| Crash.

(** A run that raises in its [try] block and again in its [except]
    block commits nothing; it is the only way a run can end while another
    connection holds the write lock. *)
Definition begin_raises_twice (ev : string + Z * Z) (handler : option string) : bool :=
  match ev, handler with
  | inl _, Some _ => true
  | _, _ => false
  end.

Definition end_raises_twice (engine : list string → string + completed_process)
    (ev : string + Z * Z) (handler : option string)
    (input_path output_path : string)
    (target_format target_resolution target_bitrate : option string)
    (job_id : string) (start_time : Z) (d : db) : bool :=
  match try_end engine ev input_path output_path
                target_format target_resolution target_bitrate job_id start_time d,
        handler with
  | inl _, Some _ => true
  | _, _ => false
  end.

(** What an action does to the service; [None] when the action cannot be
    taken there.
    - [TranscodeCheck]: lines 554-580, up to the row of the video; a
      request that ends there (400, 404) leaves the service as it is.
    - [TranscodeInsert]: lines 583-593, the INSERT and its commit; an
      IntegrityError ends the request (500).
    - [TranscodeSubmit]: lines 596-607.
    - [BatchBegin]: lines 944-954. [BatchCheck]: one turn of the loop up
      to the row of the video (lines 957-968); a reference that is not
      found is skipped, and the end of the list ends the request.
      [BatchSubmit]: lines 970-984, the INSERT, which takes the write
      lock, and [executor.submit]. [BatchCommit]: line 986; [commit] is
      the exception it raises, if any: the row is then not written and
      the task stays in the pool.
    - [Upload]: the INSERT of [upload_video] and its commit.
    - [DeleteCheck]: lines 1023-1035. [DeleteCommit]: lines 1053-1057.
    - [StressSubmit]: one [executor.submit] of the loop of [stress_test].
    - [Dispatch]: an idle thread of the pool takes the head of the queue;
      there are at most [max_workers] threads.
    - [WorkerBegin], [WorkerEnd]: the two parts of a run; a thread whose
      run is over takes no part any more. [CpuDone]: a closure of the
      stress test returns.
    - [Crash]: the process stops and is started again: the database file
      is as the last commit left it, the executor is new and no request
      is being served.
    An action that writes to the store waits for the write lock; in the
    model it is not taken while the lock is held. *)
Definition act (a : action) (s : service) : option service :=
  let w := state s in
  let rs := serving s in
  match a with
  | TranscodeCheck current_user_id current_user_role video_id data =>
    let target_format := default (Some "h264") (b_target_format data) in
    let target_resolution := default (Some "720p") (b_target_resolution data) in
    let target_bitrate := default (Some "2M") (b_target_bitrate data) in
    if negb (py_in target_format valid_formats) then Some s
    else if negb (py_in target_resolution valid_resolutions) then Some s
    else
      match select_video (store w) current_user_role current_user_id video_id with
      | None => Some s
      | Some video =>
        Some {| state := w;
                serving := rs ++ [Checked current_user_id video_id
                                          target_format target_resolution target_bitrate
                                          video] |}
      end
  | TranscodeInsert i now uuid4 =>
    match rs !! i with
    | Some (Checked current_user_id video_id tf tr tb video) =>
      if write_locked rs then None
      else if decide (fresh_uuid uuid4 s) then
        match insert_job now uuid4 current_user_id video_id tf tr tb
                         (make_result_filename uuid4 tf tr) (store w) with
        | inl _ => Some {| state := w; serving := delete i rs |}
        | inr d' =>
          Some {| state := {| store := d'; executor := executor w |};
                  serving := <[i := Inserted (transcode_task video tf tr tb uuid4)]> rs |}
        end
      else None
    | _ => None
    end
  | TranscodeSubmit i =>
    match rs !! i with
    | Some (Inserted t) =>
      Some {| state := {| store := store w; executor := executor_submit t (executor w) |};
              serving := delete i rs |}
    | _ => None
    end
  | BatchBegin current_user_id current_user_role data =>
    let video_ids := default [] (b_video_ids data) in
    let target_format := default (Some "h264") (b_target_format data) in
    let target_resolution := default (Some "720p") (b_target_resolution data) in
    let target_bitrate := default (Some "2M") (b_target_bitrate data) in
    match video_ids with
    | [] => Some s
    | _ =>
      Some {| state := w;
              serving := rs ++ [BatchLoop current_user_id current_user_role
                                          target_format target_resolution target_bitrate
                                          video_ids] |}
    end
  | BatchCheck i =>
    match rs !! i with
    | Some (BatchLoop current_user_id current_user_role tf tr tb []) =>
      Some {| state := w; serving := delete i rs |}
    | Some (BatchLoop current_user_id current_user_role tf tr tb (video_id :: rest)) =>
      match select_video (store w) current_user_role current_user_id video_id with
      | Some video =>
        Some {| state := w;
                serving := <[i := BatchChecked current_user_id current_user_role
                                               tf tr tb video_id video rest]> rs |}
      | None =>
        Some {| state := w;
                serving := <[i := BatchLoop current_user_id current_user_role
                                            tf tr tb rest]> rs |}
      end
    | _ => None
    end
  | BatchSubmit i now uuid4 =>
    match rs !! i with
    | Some (BatchChecked current_user_id current_user_role tf tr tb video_id video rest) =>
      if write_locked rs then None
      else if decide (fresh_uuid uuid4 s) then
        match insert_job now uuid4 current_user_id video_id tf tr tb
                         (make_result_filename uuid4 tf tr) (store w) with
        | inl _ => Some {| state := w; serving := delete i rs |}
        | inr _ =>
          Some {| state :=
                    {| store := store w;
                       executor :=
                         executor_submit (transcode_task video tf tr tb uuid4)
                                         (executor w) |};
                  serving := <[i := BatchSubmitted current_user_id current_user_role
                                                   tf tr tb video_id video now uuid4
                                                   rest]> rs |}
        end
      else None
    | _ => None
    end
  | BatchCommit i commit =>
    match rs !! i with
    | Some (BatchSubmitted current_user_id current_user_role tf tr tb
                           video_id video now job_id rest) =>
      match commit with
      | Some _ => Some {| state := w; serving := delete i rs |}
      | None =>
        match insert_job now job_id current_user_id video_id tf tr tb
                         (make_result_filename job_id tf tr) (store w) with
        | inl _ => None
        | inr d' =>
          Some {| state := {| store := d'; executor := executor w |};
                  serving := <[i := BatchLoop current_user_id current_user_role
                                              tf tr tb rest]> rs |}
        end
      end
    | _ => None
    end
  | Upload video_id current_user_id filename =>
    if write_locked rs then None
    else
      match insert_video video_id current_user_id filename (store w) with
      | inl _ => Some s
      | inr d' => Some {| state := {| store := d'; executor := executor w |};
                          serving := rs |}
      end
  | DeleteCheck current_user_id current_user_role video_id =>
    match select_video (store w) current_user_role current_user_id video_id with
    | None => Some s
    | Some _ => Some {| state := w; serving := rs ++ [Deleting video_id] |}
    end
  | DeleteCommit i =>
    match rs !! i with
    | Some (Deleting video_id) =>
      if write_locked rs then None
      else
        Some {| state :=
                  {| store :=
                       {| videos := delete video_id (videos (store w));
                          transcoding_jobs :=
                            filter (λ kj, j_video_id kj.2 ≠ video_id)
                                   (transcoding_jobs (store w)) |};
                     executor := executor w |};
                serving := delete i rs |}
    | _ => None
    end
  | StressSubmit duration =>
    Some {| state := {| store := store w;
                        executor := executor_submit (CpuIntensive duration) (executor w) |};
            serving := rs |}
  | Dispatch =>
    match backlog (executor w) with
    | t :: ts =>
      if decide (length (running (executor w)) < max_workers)%nat then
        Some {| state := {| store := store w;
                            executor := {| backlog := ts;
                                           running := running (executor w) ++ [Started t] |} |};
                serving := rs |}
      else None
    | [] => None
    end
  | WorkerBegin i ev handler =>
    match running (executor w) !! i with
    | Some (Started (Transcode inp out tf tr tb job_id)) =>
      if (write_locked rs && negb (begin_raises_twice ev handler))%bool then None
      else
        let '(d', st) := worker_begin ev handler job_id (store w) in
        Some {| state :=
                  {| store := d';
                     executor :=
                       {| backlog := backlog (executor w);
                          running :=
                            match st with
                            | Some start_time =>
                              <[i := Encoding (Transcode inp out tf tr tb job_id) start_time]>
                                (running (executor w))
                            | None => delete i (running (executor w))
                            end |} |};
                serving := rs |}
    | _ => None
    end
  | WorkerEnd i engine ev handler =>
    match running (executor w) !! i with
    | Some (Encoding (Transcode inp out tf tr tb job_id) start_time) =>
      if (write_locked rs
          && negb (end_raises_twice engine ev handler inp out tf tr tb job_id start_time
                                    (store w)))%bool then None
      else
        Some {| state :=
                  {| store := worker_end engine ev handler inp out tf tr tb job_id
                                         start_time (store w);
                     executor := {| backlog := backlog (executor w);
                                    running := delete i (running (executor w)) |} |};
                serving := rs |}
    | _ => None
    end
  | CpuDone i =>
    match running (executor w) !! i with
    | Some (Started (CpuIntensive _)) =>
      Some {| state := {| store := store w;
                          executor := {| backlog := backlog (executor w);
                                         running := delete i (running (executor w)) |} |};
              serving := rs |}
    | _ => None
    end
  | Crash =>
    Some {| state := {| store := store w;
                        executor := {| backlog := []; running := [] |} |};
            serving := [] |}
  end.

(** A schedule, action by action. *)
Fixpoint run (actions : list action) (s : service) : option service :=
  match actions with
  | [] => Some s
  | a :: rest =>
    match act a s with
    | Some s' => run rest s'
    | None => None
    end
  end.

(** The service starts with an empty job table, an idle pool and no
    request. *)
Definition initial (vs : gmap string video) : world :=
  {| store := {| videos := vs; transcoding_jobs := ∅ |};
     executor := {| backlog := []; running := [] |} |}.

Definition start (vs : gmap string video) : service :=
  {| state := initial vs; serving := [] |}.

Inductive reachable_service : service → Prop :=
| reachable_start vs : reachable_service (start vs)
| reachable_act s a s' :
    reachable_service s → act a s = Some s' → reachable_service s'.

(** The store and the pool, with the requests left out: [w] is a state
    of the service, and [w'] is [w] after one action, whatever the
    requests being served. *)
Definition reachable (w : world) : Prop :=
  ∃ rs, reachable_service {| state := w; serving := rs |}.

Definition step (w w' : world) : Prop :=
  ∃ rs a rs',
    act a {| state := w; serving := rs |} = Some {| state := w'; serving := rs' |}.

(** The number of job rows that carry a given status. *)
Definition count_status (s : job_status) (d : db) : nat :=
  size (filter (λ kj, j_status kj.2 = s) (transcoding_jobs d)).

(** The order of the lifecycle: queued, then processing, then a terminal
    status. *)
Definition status_rank (s : job_status) : nat :=
  match s with
  | queued => 0
  | processing => 1
  | completed => 2
  | failed => 2
  end.

(** The transitions of a job's status that the lifecycle allows between
    two successive observations of its row. *)
Definition transition_ok (s s' : job_status) : bool :=
  match s, s' with
  | queued, (queued | processing | failed) => true
  | processing, (processing | completed | failed) => true
  | completed, completed => true
  | failed, failed => true
  | _, _ => false
  end.

(** A target key of the body is left out, or carries a value of the
    enumeration. *)
Definition field_ok (field : option (option string)) (valid : list string) : Prop :=
  match field with
  | None => True
  | Some v => py_in v valid = true
  end.

(** The reference passes the ownership and existence check of the views. *)
Definition accessible (d : db) (current_user_role : string) (current_user_id : Z)
    (video_id : string) : Prop :=
  is_Some (select_video d current_user_role current_user_id video_id).

#[global] Instance accessible_dec d role uid video_id :
  Decision (accessible d role uid video_id).
Proof. unfold accessible. apply _. Defined.



(** What holds of every row the subsystem writes: the result file name is
    there from the INSERT on; an error message is there exactly on a failed
    row; completion time, duration and progress 100 exactly on a completed
    row; a start time on no queued row. *)
Definition row_ok (j : job) : Prop :=
  Py.truthy (j_result_filename j) = true ∧
  (is_Some (j_error_message j) ↔ j_status j = failed) ∧
  (is_Some (j_completed_at j) ↔ j_status j = completed) ∧
  (is_Some (j_processing_time j) ↔ j_status j = completed) ∧
  (j_status j = queued → j_started_at j = None) ∧
  j_progress j = (if bool_decide (j_status j = completed) then 100 else 0).

(** A task is in the pool: in the queue or held by a thread. *)
Definition pool_task (p : pool) (t : task) : Prop :=
  t ∈ backlog p ∨ t ∈ (worker_task <$> running p).

(** What a task and the row of its job have in common. *)
Definition task_matches_row (t : task) (j : job) : Prop :=
  match t with
  | Transcode input_path output_path tf tr tb job_id =>
    tf = Some (j_target_format j) ∧
    tr = j_target_resolution j ∧
    tb = j_target_bitrate j ∧
    j_result_filename j = Some (make_result_filename job_id tf tr) ∧
    output_path = Py.path_join TRANSCODED_FOLDER (make_result_filename job_id tf tr)
  | CpuIntensive _ => True
  end.

(** The invariant of the job table and a pool: the pool respects its
    capacity and holds at most one task per job; the row of a task that
    waits (in the queue, or just picked up), when there is one, is
    queued; the row of a task past the first commit, when there is one,
    is processing; every row is [row_ok]; a task and the row of its job
    agree. *)
Record inv (jobs : gmap string job) (p : pool) : Prop := mk_inv {
  inv_capacity : (length (running p) ≤ max_workers)%nat;
  inv_nodup : NoDup (pool_job_ids p);
  inv_backlog : ∀ t id j,
    t ∈ backlog p → task_job_id t = Some id → jobs !! id = Some j →
    j_status j = queued;
  inv_started : ∀ t id j,
    Started t ∈ running p → task_job_id t = Some id → jobs !! id = Some j →
    j_status j = queued;
  inv_encoding : ∀ t st id j,
    Encoding t st ∈ running p → task_job_id t = Some id → jobs !! id = Some j →
    j_status j = processing;
  inv_rows : ∀ id j, jobs !! id = Some j → row_ok j;
  inv_matches : ∀ t id j,
    pool_task p t → task_job_id t = Some id → jobs !! id = Some j →
    task_matches_row t j
}.

Definition world_inv (w : world) : Prop :=
  inv (transcoding_jobs (store w)) (executor w).

(** The pool together with the tasks that requests are about to hand to
    it. *)
Definition with_pending (p : pool) (q : list task) : pool :=
  {| backlog := backlog p ++ q; running := running p |}.

(** The job of a request that holds the write lock: its INSERT went
    through, so no committed row has its id and its format is not NULL;
    no thread is past the first commit for it; and the tasks that carry
    its id are the one the request submitted. *)
Definition uncommitted_ok (jobs : gmap string job) (p : pool) (r : request) : Prop :=
  match r with
  | BatchSubmitted _ _ tf tr tb _ video _ job_id _ =>
    jobs !! job_id = None ∧ is_Some tf ∧
    (job_id ∉ encoding_jobs p) ∧
    ∀ t, pool_task p t → task_job_id t = Some job_id →
         t = transcode_task video tf tr tb job_id
  | _ => True
  end.

(** The invariant of the service: [inv] with the tasks about to be
    submitted counted as waiting, at most one holder of the write lock,
    and [uncommitted_ok] for it. *)
Record service_inv (s : service) : Prop := mk_service_inv {
  sinv_pool :
    inv (transcoding_jobs (store (state s)))
        (with_pending (executor (state s)) (pending (serving s)));
  sinv_lock : (length (uncommitted (serving s)) ≤ 1)%nat;
  sinv_uncommitted : ∀ r,
    r ∈ serving s →
    uncommitted_ok (transcoding_jobs (store (state s)))
                   (with_pending (executor (state s)) (pending (serving s))) r
}.

(** What one action does to the job table and the pool, whichever thread
    takes it and whatever requests are being served. *)
Inductive effect (jobs : gmap string job) (p : pool)
    : gmap string job → pool → Prop :=
| eff_none : effect jobs p jobs p
| eff_insert id j :
    jobs !! id = None → j_status j = queued → row_ok j →
    effect jobs p (<[id := j]> jobs) p
| eff_enqueue t : effect jobs p jobs (executor_submit t p)
| eff_delete video_id :
    effect jobs p (filter (λ kj, j_video_id kj.2 ≠ video_id) jobs) p
| eff_dispatch t ts :
    backlog p = t :: ts → (length (running p) < max_workers)%nat →
    effect jobs p jobs {| backlog := ts; running := running p ++ [Started t] |}
| eff_begin r1 t r2 id now st :
    running p = r1 ++ Started t :: r2 → task_job_id t = Some id →
    effect jobs p (alter (set_processing now) id jobs)
      {| backlog := backlog p; running := r1 ++ Encoding t st :: r2 |}
| eff_begin_raise r1 t r2 id e :
    running p = r1 ++ Started t :: r2 → task_job_id t = Some id →
    effect jobs p (alter (set_failed e) id jobs)
      {| backlog := backlog p; running := r1 ++ r2 |}
| eff_leave r1 wk r2 :
    running p = r1 ++ wk :: r2 →
    effect jobs p jobs {| backlog := backlog p; running := r1 ++ r2 |}
| eff_end_failed r1 t st r2 id e :
    running p = r1 ++ Encoding t st :: r2 → task_job_id t = Some id →
    effect jobs p (alter (set_failed e) id jobs)
      {| backlog := backlog p; running := r1 ++ r2 |}
| eff_end_completed r1 t st r2 id now processing_time :
    running p = r1 ++ Encoding t st :: r2 → task_job_id t = Some id →
    effect jobs p (alter (set_completed now processing_time) id jobs)
      {| backlog := backlog p; running := r1 ++ r2 |}
| eff_crash : effect jobs p jobs {| backlog := []; running := [] |}.

(** A row in processing that no thread holds. *)
Definition stale (w : world) (job_id : string) : Prop :=
  (∃ j, transcoding_jobs (store w) !! job_id = Some j ∧ j_status j = processing) ∧
  job_id ∉ encoding_jobs (executor w).

(** ** Sample data for the scenarios *)

Module Scenario.

(** Two videos of user 3 and one of user 4. *)
Definition videos0 : gmap string video :=
  <["v1" := {| v_user_id := 3; v_filename := "a.mp4" |}]>
    (<["v2" := {| v_user_id := 3; v_filename := "b.mp4" |}]>
       (<["v3" := {| v_user_id := 4; v_filename := "c.mp4" |}]> ∅)).

Definition w0 : world := initial videos0.

Definition uuid (i : nat) : string :=
  match i with
  | 0%nat => "job-0"
  | 1%nat => "job-1"
  | 2%nat => "job-2"
  | _ => "job-n"
  end.

Definition clock (i : nat) : Z := Z.of_nat i.

(** A body with no target key at all, and one that asks for xvid. *)
Definition no_target : body :=
  {| b_video_ids := None; b_target_format := None;
     b_target_resolution := None; b_target_bitrate := None |}.

Definition xvid_batch : body :=
  {| b_video_ids := Some ["v1"]; b_target_format := Some (Some "xvid");
     b_target_resolution := None; b_target_bitrate := None |}.


(** The world after user 3 submitted "v1" with the default target. *)
Definition w1 : world := (transcode_video 0 "job-0" 3 "user" "v1" no_target w0).2.

(** An engine that exits with code 1 and the diagnostic of Scenario D. *)
Definition unsupported_codec : run_events :=
  {| ev_begin := inr (1, 100);
     ev_engine := λ _, inr {| returncode := 1; stderr := "unsupported codec" |};
     ev_end := inr (107, 2);
     ev_handler := None |}.

(** An engine that cannot be started. *)
Definition no_ffmpeg : run_events :=
  {| ev_begin := inr (1, 100);
     ev_engine := λ _, inl "[Errno 2] No such file or directory: 'ffmpeg'";
     ev_end := inr (107, 2);
     ev_handler := None |}.

(** A completed row, as the worker leaves it. *)
Definition done_job : job :=
  {| j_user_id := 3; j_video_id := "v1"; j_target_format := "h264";
     j_target_resolution := Some "720p"; j_target_bitrate := Some "2M";
     j_status := completed; j_progress := 100;
     j_result_filename := Some "job-0_h264_720p.mp4";
     j_created_at := 0; j_started_at := Some 1; j_completed_at := Some 2;
     j_processing_time := Some 7; j_error_message := None |}.

Definition done_db : db :=
  {| videos := videos0; transcoding_jobs := {[ "job-0" := done_job ]} |}.

(** The task of the job of [w1], and the worlds in which a pool thread
    has picked it up and then committed 'processing'. *)
Definition task0 : task :=
  Transcode "uploads/a.mp4" "transcoded/job-0_h264_720p.mp4"
            (Some "h264") (Some "720p") (Some "2M") "job-0".

Definition job0 : job :=
  {| j_user_id := 3; j_video_id := "v1"; j_target_format := "h264";
     j_target_resolution := Some "720p"; j_target_bitrate := Some "2M";
     j_status := queued; j_progress := 0;
     j_result_filename := Some "job-0_h264_720p.mp4";
     j_created_at := 0; j_started_at := None; j_completed_at := None;
     j_processing_time := None; j_error_message := None |}.

Definition w2 : world :=
  {| store := store w1;
     executor := {| backlog := []; running := [Started task0] |} |}.

Definition w3 : world :=
  {| store := update_job "job-0" (set_processing 1) (store w1);
     executor := {| backlog := []; running := [Encoding task0 100] |} |}.

(** The schedules that lead to [w1], [w2] and [w3]: user 3 submits "v1"
    with the default target, a pool thread takes the task, and commits
    'processing'. *)
Definition to_w1 : list action :=
  [TranscodeCheck 3 "user" "v1" no_target; TranscodeInsert 0 0 "job-0"; TranscodeSubmit 0].

Definition to_w2 : list action := to_w1 ++ [Dispatch].

Definition to_w3 : list action := to_w2 ++ [WorkerBegin 0 (inr (1, 100)) None].

(** A run in which the engine succeeds, the store is locked at the last
    commit and is still locked in the [except] block. *)
Definition locked_store : run_events :=
  {| ev_begin := inr (1, 100);
     ev_engine := λ _, inr {| returncode := 0; stderr := "" |};
     ev_end := inl "database is locked";
     ev_handler := Some "database is locked" |}.

(** Five submissions of "v1" by user 3. Pool threads take the first four
    and commit 'processing'; the run of the first meets [locked_store] and
    its thread is free again; that thread takes the fifth and commits
    'processing'. *)
Definition submission (now : Z) (job_id : string) : list action :=
  [TranscodeCheck 3 "user" "v1" no_target; TranscodeInsert 0 now job_id; TranscodeSubmit 0].

Definition five_jobs : list action :=
  submission 0 "job-0" ++ submission 1 "job-1" ++ submission 2 "job-2"
  ++ submission 3 "job-3" ++ submission 4 "job-4"
  ++ [Dispatch; Dispatch; Dispatch; Dispatch]
  ++ [WorkerBegin 0 (inr (5, 100)) None; WorkerBegin 1 (inr (6, 101)) None;
      WorkerBegin 2 (inr (7, 102)) None; WorkerBegin 3 (inr (8, 103)) None]
  ++ [WorkerEnd 0 (ev_engine locked_store) (ev_end locked_store) (ev_handler locked_store)]
  ++ [Dispatch; WorkerBegin 3 (inr (9, 104)) None].

(** The service after [five_jobs]. *)
Definition after_five_jobs : service :=
  default (start videos0) (run five_jobs (start videos0)).

(** User 3 submits "v1"; between the SELECT and the INSERT of that
    request the same user deletes "v1". *)
Definition delete_in_between : list action :=
  [TranscodeCheck 3 "user" "v1" no_target;
   DeleteCheck 3 "user" "v1"; DeleteCommit 1;
   TranscodeInsert 0 0 "job-0"; TranscodeSubmit 0].

End Scenario.

(** * Further definitions: the rest of the job subsystem and its helpers *)

(** ** Rows and tasks as the intake views build them *)

(** The row that the INSERT of the intake views writes. *)
Definition queued_row (now : Z) (user_id : Z) (video_id fmt : string)
    (target_resolution target_bitrate : option string) (job_id : string) : job :=
  {| j_user_id := user_id; j_video_id := video_id;
     j_target_format := fmt;
     j_target_resolution := target_resolution;
     j_target_bitrate := target_bitrate;
     j_status := queued; j_progress := 0;
     j_result_filename :=
       Some (make_result_filename job_id (Some fmt) target_resolution);
     j_created_at := now;
     j_started_at := None; j_completed_at := None;
     j_processing_time := None; j_error_message := None |}.

(** The columns of a row that no update statement of the code names. *)
Definition same_identity (j j' : job) : Prop :=
  j_user_id j' = j_user_id j ∧ j_video_id j' = j_video_id j ∧
  j_target_format j' = j_target_format j ∧
  j_target_resolution j' = j_target_resolution j ∧
  j_target_bitrate j' = j_target_bitrate j ∧
  j_result_filename j' = j_result_filename j ∧
  j_created_at j' = j_created_at j.

(** The three update statements of the worker. *)
Definition is_update (f : job → job) : Prop :=
  (∃ now, f = set_processing now) ∨
  (∃ e, f = set_failed e) ∨
  (∃ now processing_time, f = set_completed now processing_time).

(** ** Names of uploaded files: [allowed_video_file], [generate_unique_filename] *)

(** ['.' in s] *)
Fixpoint has_dot (s : string) : bool :=
  match s with
  | EmptyString => false
  | String c s' => (bool_decide (c = "."%char) || has_dot s')%bool
  end.

(** [s.rsplit('.', 1)]: the text cut at its last dot, or the text alone
    when it has none. *)
Fixpoint rsplit_dot (s : string) : list string :=
  match s with
  | EmptyString => [""]
  | String c s' =>
    match rsplit_dot s' with
    | [head; tail] => [String c head; tail]
    | _ => if bool_decide (c = "."%char) then [""; s'] else [String c s']
    end
  end.

Definition ALLOWED_EXTENSIONS : list string :=
  ["mp4"; "avi"; "mov"; "mkv"; "wmv"; "flv"; "webm"; "m4v"].

(** The names on which [Py.lower] is Python's [str.lower]: every
    character is in the ASCII range. *)
Fixpoint ascii_only (s : string) : bool :=
  match s with
  | EmptyString => true
  | String c s' => (nat_of_ascii c <? 128)%nat && ascii_only s'
  end.

(** ['.' in filename and filename.rsplit('.', 1)[1].lower() in
    ALLOWED_EXTENSIONS] (source lines 162-164); the right operand is
    evaluated only when the left one holds. *)
Definition allowed_video_file (filename : string) : bool :=
  if has_dot filename then
    match rsplit_dot filename !! 1%nat with
    | Some ext => bool_decide (Py.lower ext ∈ ALLOWED_EXTENSIONS)
    | None => false
    end
  else false.

(** [generate_unique_filename] (lines 166-169); [uuid4] is the text
    [str(uuid.uuid4())] drawn by the call, [inl] the IndexError of
    [rsplit(...)[1]] on a name without a dot. *)
Definition generate_unique_filename (uuid4 original_filename : string)
    : string + string :=
  match rsplit_dot original_filename !! 1%nat with
  | Some tail =>
    let ext := Py.lower tail in
    let unique_id := uuid4 in
    inr (unique_id +:+ "." +:+ ext)
  | None => inl "list index out of range"
  end.

(** The name under which [upload_video] stores a file (lines 423-426):
    the check is made on the name as sent, and the stored name is built
    from [secure_filename] of it. [secure_filename] is werkzeug's; the
    model takes it as a function on names and assumes nothing of it.
    [None] is an answer 400 that stores nothing, [inl] the IndexError of
    [generate_unique_filename]. *)
Definition upload_filename (secure_filename : string → string)
    (uuid4 filename : string) : option (string + string) :=
  if allowed_video_file filename then
    let original_filename := secure_filename filename in
    Some (generate_unique_filename uuid4 original_filename)
  else None.

(** ** The SQL text of the two listing views *)

(** A value bound to a [?] placeholder. *)
Inductive sql_param :=
| PInt (z : Z)
| PText (s : string).

(** [needle in hay] on [str]. *)
Fixpoint str_contains (needle hay : string) : bool :=
  (String.prefix needle hay
   || match hay with
      | EmptyString => false
      | String _ hay' => str_contains needle hay'
      end)%bool.

(** The number of occurrences of a character, here of the placeholder
    mark. *)
Fixpoint count_char (c : ascii) (s : string) : nat :=
  match s with
  | EmptyString => 0%nat
  | String c' s' => ((if bool_decide (c' = c) then 1 else 0) + count_char c s')%nat
  end.

(** The two statements a listing view executes, each with the values it
    binds. *)
Record listing_queries := mk_listing_queries {
  count_query : string;
  count_params : list sql_param;
  final_query : string;
  final_params : list sql_param
}.

(** [base_query += ' AND status = ?' if 'WHERE' in base_query else
    ' WHERE status = ?'], with the column name as the view writes it. *)
Definition add_status_filter (column query : string) : string :=
  query +:+ (if str_contains "WHERE" query
             then " AND " +:+ column +:+ " = ?"
             else " WHERE " +:+ column +:+ " = ?").

Definition videos_base_admin : string :=
"
                SELECT id, filename, original_filename, file_size, duration, resolution, 
                       format, upload_time, status, user_id
                FROM videos
            ".

Definition videos_count_admin : string := "SELECT COUNT(*) FROM videos".

Definition videos_base_user : string :=
"
                SELECT id, filename, original_filename, file_size, duration, resolution, 
                       format, upload_time, status, user_id
                FROM videos WHERE user_id = ?
            ".

Definition videos_count_user : string := "SELECT COUNT(*) FROM videos WHERE user_id = ?".

Definition valid_sort_fields : list string :=
  ["upload_time"; "original_filename"; "file_size"; "duration"].

Definition valid_sort_orders : list string := ["ASC"; "DESC"].

(** The statements of [get_videos] (source lines 463-514): the request
    arguments after [request.args.get], the whitelists for the sort
    arguments, the texts and the bound values. *)
Definition get_videos_queries (current_user_id : Z) (current_user_role : string)
    (page per_page : Z) (status_filter : option string) (sort_by sort_order : string)
    : listing_queries :=
  let sort_by :=
    if bool_decide (sort_by ∈ valid_sort_fields) then sort_by else "upload_time" in
  let sort_order :=
    if bool_decide (sort_order ∈ valid_sort_orders) then sort_order else "DESC" in
  let '(base_query, count_query, params) :=
    if bool_decide (current_user_role = "admin")
    then (videos_base_admin, videos_count_admin, [])
    else (videos_base_user, videos_count_user, [PInt current_user_id]) in
  let '(base_query, count_query, params) :=
    match status_filter with
    | Some s =>
      if Py.truthy_str s
      then (add_status_filter "status" base_query,
            add_status_filter "status" count_query,
            params ++ [PText s])
      else (base_query, count_query, params)
    | None => (base_query, count_query, params)
    end in
  let final_query :=
    base_query +:+ " ORDER BY " +:+ sort_by +:+ " " +:+ sort_order
               +:+ " LIMIT ? OFFSET ?" in
  let offset := (page - 1) * per_page in
  let final_params := params ++ [PInt per_page; PInt offset] in
  {| count_query := count_query; count_params := params;
     final_query := final_query; final_params := final_params |}.

Definition jobs_base_admin : string :=
"
                SELECT j.id, j.target_format, j.target_resolution, j.status, j.progress, 
                       j.created_at, j.completed_at, j.processing_time, v.original_filename, j.user_id
                FROM transcoding_jobs j
                JOIN videos v ON j.video_id = v.id
            ".

Definition jobs_count_admin : string :=
"
                SELECT COUNT(*) FROM transcoding_jobs j
                JOIN videos v ON j.video_id = v.id
            ".

Definition jobs_base_user : string :=
"
                SELECT j.id, j.target_format, j.target_resolution, j.status, j.progress, 
                       j.created_at, j.completed_at, j.processing_time, v.original_filename, j.user_id
                FROM transcoding_jobs j
                JOIN videos v ON j.video_id = v.id
                WHERE j.user_id = ?
            ".

Definition jobs_count_user : string :=
"
                SELECT COUNT(*) FROM transcoding_jobs j
                JOIN videos v ON j.video_id = v.id
                WHERE j.user_id = ?
            ".

(** The statements of [get_transcoding_jobs] (source lines 683-733). *)
Definition get_transcoding_jobs_queries (current_user_id : Z)
    (current_user_role : string) (page per_page : Z) (status_filter : option string)
    : listing_queries :=
  let '(base_query, count_query, params) :=
    if bool_decide (current_user_role = "admin")
    then (jobs_base_admin, jobs_count_admin, [])
    else (jobs_base_user, jobs_count_user, [PInt current_user_id]) in
  let '(base_query, count_query, params) :=
    match status_filter with
    | Some s =>
      if Py.truthy_str s
      then (add_status_filter "j.status" base_query,
            add_status_filter "j.status" count_query,
            params ++ [PText s])
      else (base_query, count_query, params)
    | None => (base_query, count_query, params)
    end in
  let final_query := base_query +:+ " ORDER BY j.created_at DESC LIMIT ? OFFSET ?" in
  let offset := (page - 1) * per_page in
  let final_params := params ++ [PInt per_page; PInt offset] in
  {| count_query := count_query; count_params := params;
     final_query := final_query; final_params := final_params |}.

(** ** [get_transcoding_jobs]: GET /api/v1/transcoding/jobs *)

From stdpp Require sorting.

(** The text of a status in the store. *)
Definition status_text (s : job_status) : string :=
  match s with
  | queued => "queued"
  | processing => "processing"
  | completed => "completed"
  | failed => "failed"
  end.

(** A Python [int] that SQLite can bind: a signed 64-bit integer (the
    binding raises OverflowError otherwise). *)
Definition fits_int64 (z : Z) : bool :=
  bool_decide (- 2 ^ 63 ≤ z < 2 ^ 63).

(** [LIMIT ? OFFSET ?] of SQLite on the rows in their order: a negative
    limit is no limit, a negative offset is no offset. *)
Definition sql_limit_offset {A} (limit offset : Z) (rows : list A) : list A :=
  let rows := drop (Z.to_nat offset) rows in
  if bool_decide (limit < 0) then rows else take (Z.to_nat limit) rows.

(** The WHERE clause and the JOIN of the view on one row: the video of
    the job exists, the row is the requester's unless the requester is an
    admin, and it has the status asked for when a filter is given. *)
Definition job_listed (d : db) (current_user_role : string) (current_user_id : Z)
    (status_filter : option string) (kj : string * job) : Prop :=
  is_Some (videos d !! j_video_id kj.2) ∧
  (current_user_role = "admin" ∨ j_user_id kj.2 = current_user_id) ∧
  (Py.truthy status_filter = true → Some (status_text (j_status kj.2)) = status_filter).

#[global] Instance job_listed_dec d role uid status_filter kj :
  Decision (job_listed d role uid status_filter kj).
Proof. unfold job_listed. apply _. Defined.

(** [ORDER BY j.created_at DESC] *)
Definition newer_first (kj kj' : string * job) : Prop :=
  j_created_at kj'.2 ≤ j_created_at kj.2.

#[global] Instance newer_first_dec kj kj' : Decision (newer_first kj kj').
Proof. unfold newer_first. apply _. Defined.

(** The rows the page statement ranges over, in its order. Rows with the
    same creation time come in an order that SQL leaves open; here it is
    the one the sort gives them. *)
Definition listed_jobs (d : db) (current_user_role : string) (current_user_id : Z)
    (status_filter : option string) : list (string * job) :=
  sorting.merge_sort newer_first
    (filter (job_listed d current_user_role current_user_id status_filter)
            (map_to_list (transcoding_jobs d))).

(** One entry of the answer's list [jobs]; the joined column
    v.original_filename (key video_filename) is not among the columns of
    [video] and is left out. *)
Record job_item := mk_job_item {
  ji_id : string;
  ji_target_format : string;
  ji_target_resolution : option string;
  ji_status : job_status;
  ji_progress : Z;
  ji_created_at : Z;
  ji_completed_at : option Z;
  ji_processing_time : option Z;
  ji_user_id : option Z;                 (* for an admin only *)
  ji_download_url : option string        (* for a completed job only *)
}.

Definition make_job_item (current_user_role : string) (kj : string * job) : job_item :=
  {| ji_id := kj.1;
     ji_target_format := j_target_format kj.2;
     ji_target_resolution := j_target_resolution kj.2;
     ji_status := j_status kj.2;
     ji_progress := j_progress kj.2;
     ji_created_at := j_created_at kj.2;
     ji_completed_at := j_completed_at kj.2;
     ji_processing_time := j_processing_time kj.2;
     ji_user_id :=
       if bool_decide (current_user_role = "admin") then Some (j_user_id kj.2) else None;
     ji_download_url :=
       if bool_decide (j_status kj.2 = completed) then Some (download_url kj.1) else None |}.

(** The answer of the view: the page, or what the [except] block returns
    (an empty list, page 1, total 0, pages 1, 'No jobs found'); both with
    code 200. *)
Inductive jobs_response :=
| JobsPage (jobs : list job_item) (page per_page total pages : Z)
| JobsFallback (per_page : Z).

(** [max(1, (total + per_page - 1) // per_page) if total > 0 else 1];
    [None] is the ZeroDivisionError. *)
Definition page_count (total per_page : Z) : option Z :=
  if bool_decide (0 < total) then
    if bool_decide (per_page = 0) then None
    else Some (Z.max 1 ((total + per_page - 1) `div` per_page))
  else Some 1.

(** The view (source lines 683-776), with [page], [per_page] and
    [status] as [request.args.get] returns them. Binding a page size or
    an offset outside 64 bits and dividing by a page size 0 raise inside
    the [try] block. *)
Definition get_transcoding_jobs (current_user_id : Z) (current_user_role : string)
    (page per_page : Z) (status_filter : option string) (d : db) : jobs_response :=
  let rows := listed_jobs d current_user_role current_user_id status_filter in
  let total := Z.of_nat (length rows) in
  let offset := (page - 1) * per_page in
  if (fits_int64 per_page && fits_int64 offset)%bool then
    let jobs := sql_limit_offset per_page offset rows in
    let jobs_list := make_job_item current_user_role <$> jobs in
    match page_count total per_page with
    | Some pages => JobsPage jobs_list page per_page total pages
    | None => JobsFallback per_page
    end
  else JobsFallback per_page.

(** The list [jobs] of an answer. *)
Definition response_jobs (r : jobs_response) : list job_item :=
  match r with
  | JobsPage jobs _ _ _ _ => jobs
  | JobsFallback _ => []
  end.

(** ** Accounts: [register] and [user_preferences] *)

(** The columns of [users] that the views read or constrain. *)
Record user := mk_user {
  u_username : string;
  u_email : string;
  u_password_hash : string;
  u_role : option string                  (* TEXT DEFAULT 'user' *)
}.

(** A row of [user_preferences] without its key [user_id]; the two
    BOOLEAN columns hold integers. *)
Record preferences := mk_preferences {
  p_default_format : option string;       (* DEFAULT 'mp4' *)
  p_default_resolution : option string;   (* DEFAULT '720p' *)
  p_default_quality : option string;      (* DEFAULT 'medium' *)
  p_notifications_enabled : option Z;     (* DEFAULT 1 *)
  p_auto_delete_originals : option Z      (* DEFAULT 0 *)
}.

Record accounts := mk_accounts {
  users : gmap Z user;
  user_preferences_rows : gmap Z preferences
}.

(** [INSERT INTO user_preferences (user_id) VALUES (?)]: every other
    column takes its default. *)
Definition default_preferences : preferences :=
  {| p_default_format := Some "mp4";
     p_default_resolution := Some "720p";
     p_default_quality := Some "medium";
     p_notifications_enabled := Some 1;
     p_auto_delete_originals := Some 0 |}.

(** The body of [register]: each key absent, or a JSON string or null. *)
Record register_body := mk_register_body {
  rb_username : option (option string);
  rb_email : option (option string);
  rb_password : option (option string);
  rb_role : option (option string)
}.

(** [data.get(key)] as a truth value: the key is there and its value is
    a non-empty string. *)
Definition get_truthy (field : option (option string)) : option string :=
  match field with
  | Some (Some s) => if Py.truthy_str s then Some s else None
  | _ => None
  end.

(** The answers of the two views. *)
Inductive account_response :=
| AccountMessage (code : Z) (message : string)
| PreferencesData (default_format default_resolution default_quality : option string)
                  (notifications_enabled auto_delete_originals : bool).

(** The UNIQUE constraints of [users]. *)
Definition username_or_email_taken (username email : string) (us : gmap Z user) : Prop :=
  ∃ id u, us !! id = Some u ∧ (u_username u = username ∨ u_email u = email).

#[global] Instance username_or_email_taken_dec username email us :
  Decision (username_or_email_taken username email us).
Proof.
  refine (cast_if (decide (Exists (λ iu : Z * user,
                                     u_username iu.2 = username ∨ u_email iu.2 = email)
                                  (map_to_list us))));
    unfold username_or_email_taken; rewrite Exists_exists in *.
  - destruct e as ([id u] & Hin%elem_of_map_to_list & H). eauto.
  - intros (id & u & Hin & H). apply n. exists (id, u).
    split; [by apply elem_of_map_to_list|done].
Defined.

(** [register] (source lines 350-380). [password_hash] is what
    [generate_password_hash] returns for the password and [new_id] the
    row id the store gives the new user ([cursor.lastrowid]). Both
    INSERTs are one transaction: an IntegrityError of either leaves the
    tables as they were. *)
Definition register (password_hash : string) (new_id : Z) (data : register_body)
    (a : accounts) : account_response * accounts :=
  match get_truthy (rb_username data), get_truthy (rb_email data),
        get_truthy (rb_password data) with
  | Some username, Some email, Some _ =>
    let role := default (Some "user") (rb_role data) in
    if decide (username_or_email_taken username email (users a)) then
      (AccountMessage 409 "Username or email already exists", a)
    else if decide (is_Some (user_preferences_rows a !! new_id)) then
      (AccountMessage 409 "Username or email already exists", a)
    else
      (AccountMessage 201 "User created successfully",
       {| users :=
            <[new_id := {| u_username := username; u_email := email;
                           u_password_hash := password_hash; u_role := role |}]>
              (users a);
          user_preferences_rows :=
            <[new_id := default_preferences]> (user_preferences_rows a) |})
  | _, _, _ => (AccountMessage 400 "Missing required fields", a)
  end.

(** The methods the preferences route accepts. *)
Inductive http_method := GET | PUT.

(** The body of a PUT: the three text keys absent, string or null; the
    two flags absent, true, false or null. *)
Record preferences_body := mk_preferences_body {
  pb_default_format : option (option string);
  pb_default_resolution : option (option string);
  pb_default_quality : option (option string);
  pb_notifications_enabled : option (option bool);
  pb_auto_delete_originals : option (option bool)
}.

(** A Python [bool] or [None] as SQLite stores it, and [bool(x)] of a
    stored integer or NULL. *)
Definition bind_bool (x : option bool) : option Z :=
  match x with
  | Some true => Some 1
  | Some false => Some 0
  | None => None
  end.

Definition py_bool (x : option Z) : bool :=
  match x with
  | Some z => negb (bool_decide (z = 0))
  | None => false
  end.

(** [user_preferences] (source lines 778-829). *)
Definition user_preferences (method : http_method)
    (current_user_id : Z) (current_user_role : string) (user_id : Z)
    (data : preferences_body) (a : accounts) : account_response * accounts :=
  if (negb (bool_decide (current_user_role = "admin"))
      && negb (bool_decide (current_user_id = user_id)))%bool then
    (AccountMessage 403 "Access denied", a)
  else
    match method with
    | GET =>
      match user_preferences_rows a !! user_id with
      | None => (AccountMessage 404 "Preferences not found", a)
      | Some prefs =>
        (PreferencesData (p_default_format prefs) (p_default_resolution prefs)
                         (p_default_quality prefs)
                         (py_bool (p_notifications_enabled prefs))
                         (py_bool (p_auto_delete_originals prefs)), a)
      end
    | PUT =>
      let row :=
        {| p_default_format := default (Some "mp4") (pb_default_format data);
           p_default_resolution := default (Some "720p") (pb_default_resolution data);
           p_default_quality := default (Some "medium") (pb_default_quality data);
           p_notifications_enabled :=
             bind_bool (default (Some true) (pb_notifications_enabled data));
           p_auto_delete_originals :=
             bind_bool (default (Some false) (pb_auto_delete_originals data)) |} in
      (AccountMessage 200 "Preferences updated successfully",
       {| users := users a;
          user_preferences_rows := alter (λ _, row) user_id (user_preferences_rows a) |})
    end.

(** No two users share a username or an email, and every user has a row
    of preferences. *)
Definition accounts_ok (a : accounts) : Prop :=
  (∀ id id' u u',
     users a !! id = Some u → users a !! id' = Some u' →
     u_username u = u_username u' ∨ u_email u = u_email u' → id = id') ∧
  (∀ id, is_Some (users a !! id) → is_Some (user_preferences_rows a !! id)).


(** A body with no key, for a GET. *)
Definition no_preferences : preferences_body :=
  {| pb_default_format := None; pb_default_resolution := None;
     pb_default_quality := None; pb_notifications_enabled := None;
     pb_auto_delete_originals := None |}.

(** Sample accounts: two of the accounts [init_db] creates, with their
    rows of preferences. *)
Definition sample_accounts : accounts :=
  {| users :=
       <[1 := {| u_username := "admin"; u_email := "admin@videotranscoder.com";
                 u_password_hash := "hash-1"; u_role := Some "admin" |}]>
         (<[3 := {| u_username := "user1"; u_email := "user1@videotranscoder.com";
                    u_password_hash := "hash-3"; u_role := Some "user" |}]> ∅);
     user_preferences_rows :=
       <[1 := default_preferences]> (<[3 := default_preferences]> ∅) |}.


Definition sample_registration : register_body :=
  {| rb_username := Some (Some "creator9"); rb_email := Some (Some "c9@example.org");
     rb_password := Some (Some "secret"); rb_role := Some (Some "admin") |}.

(** ** Statistics: the job counts of [get_user_stats] *)

(** The rows the status query of [get_user_stats] ranges over (source
    lines 842 and 855): every row for an admin, the requester's rows
    otherwise. *)
Definition stats_row (current_user_role : string) (current_user_id : Z)
    (kj : string * job) : Prop :=
  current_user_role = "admin" ∨ j_user_id kj.2 = current_user_id.

#[global] Instance stats_row_dec role uid kj : Decision (stats_row role uid kj).
Proof. unfold stats_row. apply _. Defined.

Definition stats_rows (current_user_role : string) (current_user_id : Z) (d : db)
    : list (string * job) :=
  filter (stats_row current_user_role current_user_id) (map_to_list (transcoding_jobs d)).

(** [SELECT status, COUNT ... GROUP BY status] read into a dict
    ([job_stats], lines 843 and 856): each row adds one to the count of
    its status, and a status without a row has no key. *)
Definition count_row (kj : string * job) (m : gmap string Z) : gmap string Z :=
  partial_alter (λ n, Some (default 0 n + 1)) (status_text (j_status kj.2)) m.

Definition job_stats (current_user_role : string) (current_user_id : Z) (d : db)
    : gmap string Z :=
  foldr count_row ∅ (stats_rows current_user_role current_user_id d).

(** [sum(job_stats.values())], the key [total] of the object [jobs]
    (line 873). *)
Definition jobs_total (stats : gmap string Z) : Z :=
  map_fold (λ _ n acc, n + acc) 0 stats.
(** * Properties *)

(** ** Rows under the three updates *)

Lemma update_job_lookup job_id f d i :
  transcoding_jobs (update_job job_id f d) !! i
  = if decide (job_id = i) then f <$> transcoding_jobs d !! job_id
    else transcoding_jobs d !! i.
Proof. unfold update_job; simpl. apply lookup_alter. Qed.

Lemma update_job_lookup_eq job_id f d :
  transcoding_jobs (update_job job_id f d) !! job_id = f <$> transcoding_jobs d !! job_id.
Proof. rewrite update_job_lookup. by rewrite decide_True. Qed.

Lemma update_job_lookup_ne job_id f d i :
  job_id ≠ i →
  transcoding_jobs (update_job job_id f d) !! i = transcoding_jobs d !! i.
Proof. intros. rewrite update_job_lookup. by rewrite decide_False. Qed.

Lemma update_job_videos job_id f d : videos (update_job job_id f d) = videos d.
Proof. reflexivity. Qed.

(** ** The engine invocation *)

(** C6. For format h264 and resolution 720p the invocation carries the
    lanczos scale-to-1280x720 filter followed by the fixed sharpen, colour
    and denoise filters and the libx264 profile; and for every target the
    filter and codec arguments are [engine_profile], a function of the
    (format, resolution) pair alone, whatever the paths and the bitrate. *)
Theorem build_cmd_h264_720p_fixed_profile :
  (∀ input_path output_path target_bitrate,
     build_cmd input_path output_path "h264" (Some "720p") target_bitrate =
       ["ffmpeg"; "-i"; input_path; "-y";
        "-vf";
        "scale=1280:720:flags=lanczos,unsharp=5:5:1.0:5:5:0.0,eq=contrast=1.1:brightness=0.02:saturation=1.1,hqdn3d=4:3:6:4.5";
        "-c:v"; "libx264"; "-preset"; "veryslow"; "-crf"; "18";
        "-x264-params"; "me=umh:subme=10:ref=16:b-adapt=2:direct=auto:weightp=2";
        "-c:a"; "aac"; "-b:a"; "128k"]
       ++ bitrate_args target_bitrate ++ [output_path]) ∧
  (∀ input_path output_path target_format target_resolution target_bitrate,
     build_cmd input_path output_path target_format target_resolution target_bitrate =
       ["ffmpeg"; "-i"; input_path; "-y"]
       ++ engine_profile target_format target_resolution
       ++ ["-c:a"; "aac"; "-b:a"; "128k"]
       ++ bitrate_args target_bitrate ++ [output_path]).
Proof.
  split.
  - intros inp out [b|]; [|reflexivity].
    unfold build_cmd, bitrate_args. simpl.
    destruct (Py.truthy_str b); reflexivity.
  - intros inp out fmt res br.
    unfold engine_profile, build_cmd, bitrate_args, codec_args.
    destruct res as [r|]; [unfold scale_filter; destruct (Py.truthy_str r)|];
      repeat case_bool_decide;
      (destruct br as [b|]; [destruct (Py.truthy_str b)|]); reflexivity.
Qed.

(** ** Intake: validation and defaults *)

(** The single-video view answers 400 and leaves the world as it is when
    the format or the resolution is outside the enumerations. *)
Lemma transcode_video_rejects_invalid now uuid4 uid role video_id data w :
  py_in (default (Some "h264") (b_target_format data)) valid_formats = false ∨
  py_in (default (Some "720p") (b_target_resolution data)) valid_resolutions = false →
  ∃ msg, transcode_video now uuid4 uid role video_id data w = (Message 400 msg, w).
Proof.
  intros H. unfold transcode_video.
  destruct (py_in (default _ (b_target_format data)) valid_formats); simpl; [|eauto].
  destruct H as [H|H]; [done|]. rewrite H. simpl. eauto.
Qed.

(** C1. On the sample store, a request for format xvid is answered 400 by
    the single-video view, with no row written, while the batch view
    answers 202 and writes a queued row whose format is xvid. *)
Theorem batch_transcode_accepts_xvid :
  transcode_video 0 "job-0" 3 "user" "v1" Scenario.xvid_batch Scenario.w0
    = (Message 400 "Invalid target format", Scenario.w0) ∧
  ∃ w' j,
    batch_transcode Scenario.clock Scenario.uuid 3 "user" Scenario.xvid_batch Scenario.w0
      = (BatchStarted ["job-0"], w') ∧
    transcoding_jobs (store w') !! "job-0" = Some j ∧
    j_target_format j = "xvid" ∧ j_status j = queued ∧
    py_in (Some (j_target_format j)) valid_formats = false.
Proof.
  split; [reflexivity|].
  eexists _, _. split; [vm_compute; reflexivity|].
  split; [vm_compute; reflexivity|]. by vm_compute.
Qed.



(** ** The worker run *)

Lemma run_begin_ok ev inp out tf tr tb job_id d now t0 :
  ev_begin ev = inr (now, t0) →
  transcode_video_cpu_intensive ev inp out tf tr tb job_id d
  = worker_end (ev_engine ev) (ev_end ev) (ev_handler ev) inp out tf tr tb job_id t0
               (update_job job_id (set_processing now) d).
Proof. intros E. unfold transcode_video_cpu_intensive, worker_begin. by rewrite E. Qed.

Lemma run_begin_raise ev inp out tf tr tb job_id d e :
  ev_begin ev = inl e →
  transcode_video_cpu_intensive ev inp out tf tr tb job_id d
  = on_exception (ev_handler ev) e job_id d.
Proof. intros E. unfold transcode_video_cpu_intensive, worker_begin. by rewrite E. Qed.

(** The [try] block ends with one of two updates, or raises. *)
Lemma try_end_cases engine ev inp out tf tr tb job_id t0 d :
  (∃ e, try_end engine ev inp out tf tr tb job_id t0 d = inl e) ∨
  (∃ e, try_end engine ev inp out tf tr tb job_id t0 d
        = inr (update_job job_id (set_failed e) d)) ∨
  (∃ now pt, try_end engine ev inp out tf tr tb job_id t0 d
             = inr (update_job job_id (set_completed now pt) d)).
Proof.
  unfold try_end.
  destruct tf as [fmt|]; [|left; by eexists].
  destruct (engine _) as [e|proc]; [left; by eexists|].
  destruct ev as [e|[t now]]; [left; by eexists|].
  case_bool_decide; right; [right|left]; by repeat eexists.
Qed.

(** The last part of the run writes one of two updates, or nothing. *)
Lemma worker_end_cases engine ev handler inp out tf tr tb job_id t0 d :
  worker_end engine ev handler inp out tf tr tb job_id t0 d = d ∨
  (∃ e, worker_end engine ev handler inp out tf tr tb job_id t0 d
        = update_job job_id (set_failed e) d) ∨
  (∃ now pt, worker_end engine ev handler inp out tf tr tb job_id t0 d
             = update_job job_id (set_completed now pt) d).
Proof.
  unfold worker_end, on_exception.
  destruct (try_end_cases engine ev inp out tf tr tb job_id t0 d)
    as [(e & ->)|[(e & ->)|(now & pt & ->)]].
  - destruct handler; [by left|right; left; by eexists].
  - right; left; by eexists.
  - right; right; by repeat eexists.
Qed.

(** On exit code 0 the row is completed: progress 100, [completed_at]
    stamped, the duration recorded. *)
Lemma zero_exit_marks_completed ev inp out fmt tr tb job_id d j now t0 p t now' :
  transcoding_jobs d !! job_id = Some j →
  ev_begin ev = inr (now, t0) →
  ev_engine ev (build_cmd inp out fmt tr tb) = inr p →
  returncode p = 0 →
  ev_end ev = inr (t, now') →
  transcoding_jobs
    (transcode_video_cpu_intensive ev inp out (Some fmt) tr tb job_id d) !! job_id
  = Some (set_completed now' (t - t0) (set_processing now j)).
Proof.
  intros Hj Eb Ee Hrc Eend. rewrite (run_begin_ok _ _ _ _ _ _ _ _ _ _ Eb).
  unfold worker_end, try_end. rewrite Ee, Eend, bool_decide_true by done.
  by rewrite !update_job_lookup_eq, Hj.
Qed.

(** C4 as stated fails: on the sample job the engine exits with code 1
    and "unsupported codec"; the row is failed with that text, and
    neither [completed_at] nor [processing_time] is written. *)
Lemma failed_run_leaves_completion_unset :
  ∃ j,
    transcoding_jobs
      (transcode_video_cpu_intensive Scenario.unsupported_codec
         "uploads/a.mp4" "transcoded/job-0_h264_720p.mp4"
         (Some "h264") (Some "720p") (Some "2M") "job-0" (store Scenario.w1))
      !! "job-0" = Some j ∧
    j_status j = failed ∧ j_error_message j = Some "unsupported codec" ∧
    j_completed_at j = None ∧ j_processing_time j = None.
Proof. eexists. split; [vm_compute; reflexivity|]. repeat split. Qed.

(** C4, amended. When the engine exits with a non-zero code the row of
    the job is set to failed with the engine's stderr as error_message;
    [completed_at] and [processing_time] (and progress) are not written
    and keep the value they had. *)
Theorem nonzero_exit_marks_failed ev inp out fmt tr tb job_id d j now t0 p t now' :
  transcoding_jobs d !! job_id = Some j →
  ev_begin ev = inr (now, t0) →
  ev_engine ev (build_cmd inp out fmt tr tb) = inr p →
  returncode p ≠ 0 →
  ev_end ev = inr (t, now') →
  ∃ j',
    transcoding_jobs
      (transcode_video_cpu_intensive ev inp out (Some fmt) tr tb job_id d) !! job_id
      = Some j' ∧
    j_status j' = failed ∧
    j_error_message j' = Some (stderr p) ∧
    j_started_at j' = Some now ∧
    j_completed_at j' = j_completed_at j ∧
    j_processing_time j' = j_processing_time j ∧
    j_progress j' = j_progress j.
Proof.
  intros Hj Eb Ee Hrc Eend. rewrite (run_begin_ok _ _ _ _ _ _ _ _ _ _ Eb).
  unfold worker_end, try_end. rewrite Ee, Eend, bool_decide_false by done.
  rewrite !update_job_lookup_eq, Hj. simpl.
  eexists. split; [reflexivity|]. repeat split.
Qed.

(** C4, amended, on the run of Scenario D. *)
Lemma nonzero_exit_marks_failed_witness :
  ∃ j',
    transcoding_jobs
      (transcode_video_cpu_intensive Scenario.unsupported_codec
         "uploads/a.mp4" "transcoded/job-0_h264_720p.mp4"
         (Some "h264") (Some "720p") (Some "2M") "job-0" (store Scenario.w1))
      !! "job-0" = Some j' ∧
    j_status j' = failed ∧
    j_error_message j' = Some "unsupported codec" ∧
    j_started_at j' = Some 1 ∧
    j_completed_at j' = None ∧
    j_processing_time j' = None ∧
    j_progress j' = 0.
Proof.
  exact (nonzero_exit_marks_failed Scenario.unsupported_codec
           "uploads/a.mp4" "transcoded/job-0_h264_720p.mp4"
           "h264" (Some "720p") (Some "2M") "job-0" (store Scenario.w1)
           _ 1 100 {| returncode := 1; stderr := "unsupported codec" |} 107 2
           eq_refl eq_refl eq_refl ltac:(discriminate) eq_refl).
Defined.

(** C5. The [except] block is not guarded. On the sample job the engine
    succeeds, the store is locked at the last commit and is still locked
    when the [except] block runs: the update to failed is not committed,
    and the run ends with the row in status processing, no error message
    and no completion time. The same run with a store that answers in the
    [except] block ends with the row failed and the text of the first
    exception. *)
Theorem failing_handler_leaves_job_processing :
  (∃ j,
     transcoding_jobs
       (transcode_video_cpu_intensive Scenario.locked_store
          "uploads/a.mp4" "transcoded/job-0_h264_720p.mp4"
          (Some "h264") (Some "720p") (Some "2M") "job-0" (store Scenario.w1))
       !! "job-0" = Some j ∧
     j_status j = processing ∧ j_error_message j = None ∧
     j_completed_at j = None) ∧
  (∃ j,
     transcoding_jobs
       (transcode_video_cpu_intensive
          {| ev_begin := ev_begin Scenario.locked_store;
             ev_engine := ev_engine Scenario.locked_store;
             ev_end := ev_end Scenario.locked_store;
             ev_handler := None |}
          "uploads/a.mp4" "transcoded/job-0_h264_720p.mp4"
          (Some "h264") (Some "720p") (Some "2M") "job-0" (store Scenario.w1))
       !! "job-0" = Some j ∧
     j_status j = failed ∧ j_error_message j = Some "database is locked").
Proof.
  split; eexists; (split; [vm_compute; reflexivity|]); by repeat split.
Qed.

(** ** The download view *)

(** C10. The download view changes nothing; it sends a file only for a
    row that is completed and, unless the requester is an admin, owned by
    the requester (the file being the row's result and present on disk);
    for a row in any other status, or of another owner, and for no row at
    all, it answers 404. *)
Theorem download_only_completed_owned path_exists uid role job_id w :
  let r := download_transcoded_video path_exists uid role job_id w in
  r.2 = w ∧
  (∀ file_path, r.1 = SendFile file_path →
     ∃ j f, transcoding_jobs (store w) !! job_id = Some j ∧
            j_status j = completed ∧
            (role = "admin" ∨ j_user_id j = uid) ∧
            j_result_filename j = Some f ∧
            file_path = Py.path_join TRANSCODED_FOLDER f ∧
            path_exists file_path = true) ∧
  (∀ j, transcoding_jobs (store w) !! job_id = Some j →
        j_status j ≠ completed ∨ (role ≠ "admin" ∧ j_user_id j ≠ uid) →
        ∃ msg, r.1 = Message 404 msg) ∧
  (transcoding_jobs (store w) !! job_id = None → ∃ msg, r.1 = Message 404 msg).
Proof.
  unfold download_transcoded_video, select_completed_result, select_job.
  destruct (transcoding_jobs (store w) !! job_id) as [j|] eqn:Hj.
  2:{ simpl. case_bool_decide; simpl; repeat split; try done; eauto. }
  assert (∀ (b : bool) (x y : response * world), x.2 = w → y.2 = w →
            (if b then x else y).2 = w) as Hif by (by intros []).
  repeat split.
  - repeat case_bool_decide; simpl;
      repeat first [done | case_match | apply Hif].
  - intros file_path.
    repeat case_bool_decide; simpl; repeat case_match; simpl; try done;
      intros [= <-]; simplify_eq; eexists _, _; repeat split; eauto.
  - intros j' [= <-] Hno.
    repeat case_bool_decide; simpl; repeat case_match; simpl; eauto;
      exfalso; destruct Hno as [?|[? ?]]; congruence.
  - done.
Qed.

(** ** The batch view *)











(** ** The invariant of the service *)

Lemma truthy_make_result_filename job_id tf tr :
  Py.truthy_str (make_result_filename job_id tf tr) = true.
Proof.
  unfold make_result_filename, Py.truthy_str.
  rewrite bool_decide_false; [done|].
  by destruct job_id.
Qed.

(** The row that [insert_job] writes is [row_ok] and queued, and agrees
    with the task of the job. *)
Lemma insert_job_row now job_id uid video_id tf tr tb d d' :
  insert_job now job_id uid video_id tf tr tb (make_result_filename job_id tf tr) d
    = inr d' →
  transcoding_jobs d !! job_id = None ∧
  is_Some tf ∧
  videos d' = videos d ∧
  ∃ j, transcoding_jobs d' = <[job_id := j]> (transcoding_jobs d) ∧
       j_status j = queued ∧ row_ok j ∧
       j_user_id j = uid ∧ j_video_id j = video_id ∧
       ∀ v, task_matches_row (transcode_task v tf tr tb job_id) j.
Proof.
  unfold insert_job. destruct tf as [fmt|]; [|done].
  destruct (transcoding_jobs d !! job_id) eqn:Hfresh; [done|].
  intros [= <-]. simpl. split_and!; try done.
  eexists. split_and!; try reflexivity; [|done].
  unfold row_ok. simpl. rewrite truthy_make_result_filename.
  split_and!; try done; split; try done; by intros [? ?].
Qed.

Lemma set_processing_row_ok now j :
  j_status j = queued → row_ok j → row_ok (set_processing now j).
Proof.
  intros Hq (Hres & Herr & Hc & Hp & Hs & Hprog). unfold row_ok. simpl.
  rewrite Hq in *. rewrite bool_decide_false in Hprog by done.
  split_and!; try done; intuition (eauto; congruence).
Qed.

Lemma set_failed_row_ok e j :
  j_status j ≠ completed → row_ok j → row_ok (set_failed e j).
Proof.
  intros Hq (Hres & Herr & Hc & Hp & Hs & Hprog). unfold row_ok. simpl.
  rewrite bool_decide_false in Hprog by done.
  split_and!; try done; intuition (eauto; congruence).
Qed.

Lemma set_completed_row_ok now pt j :
  j_status j = processing → row_ok j → row_ok (set_completed now pt j).
Proof.
  intros Hq (Hres & Herr & Hc & Hp & Hs & Hprog). unfold row_ok. simpl.
  rewrite Hq in *.
  split_and!; try done; intuition (eauto; congruence).
Qed.

(** *** The job ids in the pool *)

(** A worker with a job id in a pool whose ids are distinct: the id
    occurs nowhere else, and the ids stay distinct without the worker. *)
Lemma pool_split_nodup p r1 wk r2 id :
  running p = r1 ++ wk :: r2 →
  worker_job_id wk = Some id →
  NoDup (pool_job_ids p) →
  (id ∉ omap task_job_id (backlog p)) ∧
  (id ∉ omap worker_job_id (r1 ++ r2)) ∧
  NoDup (omap task_job_id (backlog p) ++ omap worker_job_id (r1 ++ r2)).
Proof.
  intros Hr Hid. unfold pool_job_ids. rewrite Hr, !omap_app. simpl. rewrite Hid.
  rewrite !NoDup_app, NoDup_cons.
  intros (HB & Hdisj & HR1 & Hdisj1 & Hid2 & HR2).
  split_and!; try done.
  - intros Hin. apply (Hdisj _ Hin). rewrite elem_of_app, elem_of_cons. auto.
  - rewrite elem_of_app. intros [Hin|Hin]; [|done].
    apply (Hdisj1 _ Hin). apply elem_of_cons. auto.
  - intros x Hx Hin. apply (Hdisj _ Hx).
    rewrite elem_of_app, elem_of_cons. rewrite elem_of_app in Hin. tauto.
  - intros x Hx Hin. apply (Hdisj1 _ Hx). apply elem_of_cons. auto.
Qed.

Lemma elem_of_backlog_ids (t : task) (l : list task) id :
  t ∈ l → task_job_id t = Some id → id ∈ omap task_job_id l.
Proof. intros. apply list_elem_of_omap. eauto. Qed.

Lemma elem_of_worker_ids (wk : worker) (l : list worker) id :
  wk ∈ l → worker_job_id wk = Some id → id ∈ omap worker_job_id l.
Proof. intros. apply list_elem_of_omap. eauto. Qed.

Lemma elem_of_encoding_ids t st (l : list worker) id :
  Encoding t st ∈ l → task_job_id t = Some id → id ∈ omap encoding_job_id l.
Proof. intros. apply list_elem_of_omap. by exists (Encoding t st). Qed.

(** The encoding ids are among the ids of the running workers, in order. *)
Lemma encoding_ids_sublist (l : list worker) :
  omap encoding_job_id l `sublist_of` omap worker_job_id l.
Proof.
  induction l as [|[t|t st] l IH]; simpl.
  - constructor.
  - unfold worker_job_id at 1. simpl.
    destruct (task_job_id t); [by apply sublist_cons|done].
  - unfold worker_job_id at 1. simpl.
    destruct (task_job_id t); [by apply sublist_skip|done].
Qed.

Lemma length_omap_le {A B} (f : A → option B) (l : list A) :
  (length (omap f l) ≤ length l)%nat.
Proof.
  induction l as [|x l IH]; [done|].
  change (omap f (x :: l)) with (match f x with Some y => y :: omap f l | None => omap f l end).
  destruct (f x); simpl; lia.
Qed.

(** *** Lists cut at an index *)

Lemma lookup_cut {A} (l : list A) i x :
  l !! i = Some x →
  ∃ l1 l2, l = l1 ++ x :: l2 ∧ delete i l = l1 ++ l2 ∧
           ∀ y, <[i := y]> l = l1 ++ y :: l2.
Proof.
  intros Hi. exists (take i l), (drop (S i) l). split_and!.
  - by rewrite take_drop_middle.
  - apply delete_take_drop.
  - intros y. apply insert_take_drop. by eapply lookup_lt_Some.
Qed.

Lemma omap_sublist {A B} (f : A → option B) (l1 l2 : list A) :
  l1 `sublist_of` l2 → omap f l1 `sublist_of` omap f l2.
Proof.
  induction 1 as [|x l1 l2 _ IH|x l1 l2 _ IH]; simpl.
  - constructor.
  - destruct (f x); [by constructor|done].
  - destruct (f x); [by constructor|done].
Qed.

Lemma sublist_middle {A} (l1 l2 : list A) x : l1 ++ l2 `sublist_of` l1 ++ x :: l2.
Proof. apply sublist_app; [done|by apply sublist_cons]. Qed.

Lemma length_le_1_middle {A} (l1 l2 : list A) x :
  (length (l1 ++ x :: l2) ≤ 1)%nat → l1 = [] ∧ l2 = [].
Proof.
  rewrite length_app. destruct l1, l2; simpl; intros; first [done | lia].
Qed.

Lemma perm_to_front {A} (a b c : list A) x :
  a ++ b ++ x :: c ≡ₚ (a ++ [x]) ++ b ++ c.
Proof.
  rewrite <- (assoc (++)). f_equiv. simpl. symmetry. apply Permutation_middle.
Qed.

Lemma perm_to_end {A} (a b c : list A) x :
  (a ++ b ++ c) ++ [x] ≡ₚ a ++ b ++ x :: c.
Proof.
  rewrite <- !(assoc (++)). do 2 f_equiv. symmetry. apply Permutation_cons_append.
Qed.

(** *** Rows, tasks and updates *)

Lemma is_update_identity f j : is_update f → same_identity j (f j).
Proof. intros [(? & ->)|[(? & ->)|(? & ? & ->)]]; by repeat split. Qed.

Lemma task_matches_update f t j :
  is_update f → task_matches_row t j → task_matches_row t (f j).
Proof.
  intros Hf. destruct (is_update_identity f j Hf) as (_ & _ & Hfmt & Hr & Hb & Hn & _).
  destruct t as [inp out tf tr tb job_id|]; [|done]. simpl.
  rewrite Hfmt, Hr, Hb, Hn. done.
Qed.

Lemma pool_task_ids p t id :
  pool_task p t → task_job_id t = Some id → id ∈ pool_job_ids p.
Proof.
  intros [Hin|Hin] Hid; unfold pool_job_ids; apply elem_of_app.
  - left. by eapply elem_of_backlog_ids.
  - right. apply list_elem_of_fmap in Hin as (wk & -> & Hin).
    by eapply elem_of_worker_ids.
Qed.

Lemma encoding_ids_pool p id : id ∈ encoding_jobs p → id ∈ pool_job_ids p.
Proof.
  intros Hin. unfold pool_job_ids. apply elem_of_app. right.
  eapply elem_of_sublist; [done|apply encoding_ids_sublist].
Qed.

(** *** The invariant under each kind of move *)

(** Rows may disappear (a video is deleted with its jobs). *)
Lemma inv_fewer_rows jobs jobs' p :
  inv jobs p → jobs' ⊆ jobs → inv jobs' p.
Proof.
  intros [Hcap Hnd Hb Hs He Hrows Hm] Hsub.
  pose proof (λ id j, lookup_weaken jobs' jobs id j) as Hw.
  constructor; eauto.
Qed.

(** The order of the queue does not matter to the invariant. *)
Lemma inv_perm jobs p l :
  backlog p ≡ₚ l → inv jobs p → inv jobs {| backlog := l; running := running p |}.
Proof.
  intros Hperm [Hcap Hnd Hb Hs He Hrows Hm]. constructor; simpl; try done.
  - unfold pool_job_ids in *. simpl. by rewrite <- Hperm.
  - intros t id j Hin. apply Hb. by rewrite Hperm.
  - intros t id j [Hin|Hin]; simpl in Hin; apply Hm; [left; by rewrite Hperm|by right].
Qed.

(** Tasks may leave the pool. *)
Lemma inv_sublist jobs p p' :
  inv jobs p →
  backlog p' `sublist_of` backlog p →
  running p' `sublist_of` running p →
  inv jobs p'.
Proof.
  intros [Hcap Hnd Hb Hs He Hrows Hm] Hbl Hr.
  pose proof (λ x H, elem_of_sublist _ _ x H Hbl) as Hinb.
  pose proof (λ x H, elem_of_sublist _ _ x H Hr) as Hinr.
  constructor; eauto.
  - apply sublist_length in Hr. lia.
  - eapply sublist_NoDup; [exact Hnd|].
    unfold pool_job_ids. apply sublist_app; by apply omap_sublist.
  - intros t id j [Hin|Hin]; apply Hm; [left; auto|right].
    apply list_elem_of_fmap in Hin as (wk & -> & Hin).
    apply list_elem_of_fmap. exists wk. auto.
Qed.

(** A task joins the end of the queue: its id is new to the pool, and
    the row of its job, when there is one, is queued and agrees with
    it. *)
Lemma inv_enqueue jobs p t :
  inv jobs p →
  (∀ id, task_job_id t = Some id →
         (id ∉ pool_job_ids p) ∧
         ∀ j, jobs !! id = Some j → j_status j = queued ∧ task_matches_row t j) →
  inv jobs (executor_submit t p).
Proof.
  intros [Hcap Hnd Hb Hs He Hrows Hm] Ht.
  constructor; simpl; try done.
  - unfold pool_job_ids in *. simpl. rewrite omap_app. simpl.
    destruct (task_job_id t) as [id|] eqn:Hid; [|by rewrite app_nil_r].
    destruct (Ht id eq_refl) as [Hfresh _].
    eapply NoDup_Permutation_proper; [|apply NoDup_cons; split; [exact Hfresh|exact Hnd]].
    rewrite <- (assoc (++)). rewrite (Permutation_app_comm [id]).
    rewrite (assoc (++)). by rewrite <- Permutation_cons_append.
  - intros t' id j [Hin| ->%list_elem_of_singleton]%elem_of_app Hid Hj.
    + by eapply Hb.
    + by apply (Ht id Hid).
  - intros t' id j [Hin|Hin] Hid Hj; simpl in Hin.
    + apply elem_of_app in Hin as [Hin| ->%list_elem_of_singleton].
      * apply (Hm t' id j); [by left|done..].
      * by apply (Ht id Hid).
    + apply (Hm t' id j); [by right|done..].
Qed.

(** A queued row appears under an id that had none; the tasks that carry
    the id wait and agree with the row. *)
Lemma inv_insert jobs p id j :
  inv jobs p →
  jobs !! id = None →
  j_status j = queued →
  row_ok j →
  id ∉ encoding_jobs p →
  (∀ t, pool_task p t → task_job_id t = Some id → task_matches_row t j) →
  inv (<[id := j]> jobs) p.
Proof.
  intros [Hcap Hnd Hb Hs He Hrows Hm] Hnone Hq Hok Henc Ht.
  constructor; simpl; try done.
  - intros t id' j'. destruct (decide (id = id')) as [<-|Hne].
    + rewrite lookup_insert_eq. by intros _ _ [= <-].
    + rewrite lookup_insert_ne by done. apply Hb.
  - intros t id' j'. destruct (decide (id = id')) as [<-|Hne].
    + rewrite lookup_insert_eq. by intros _ _ [= <-].
    + rewrite lookup_insert_ne by done. apply Hs.
  - intros t st id' j'. destruct (decide (id = id')) as [<-|Hne].
    + intros Hin Hid. destruct Henc. by eapply elem_of_encoding_ids.
    + rewrite lookup_insert_ne by done. apply He.
  - intros id' j'. destruct (decide (id = id')) as [<-|Hne].
    + rewrite lookup_insert_eq. by intros [= <-].
    + rewrite lookup_insert_ne by done. apply Hrows.
  - intros t id' j'. destruct (decide (id = id')) as [<-|Hne].
    + rewrite lookup_insert_eq. intros Hin Hid [= <-]. by apply Ht.
    + rewrite lookup_insert_ne by done. apply Hm.
Qed.

(** A free thread takes the head of the queue. *)
Lemma inv_dispatch jobs p t ts :
  inv jobs p →
  backlog p = t :: ts →
  (length (running p) < max_workers)%nat →
  inv jobs {| backlog := ts; running := running p ++ [Started t] |}.
Proof.
  intros [Hcap Hnd Hb Hs He Hrows Hm] Hbl Hfree.
  constructor; simpl; try done.
  - rewrite length_app. simpl. lia.
  - unfold pool_job_ids in *. simpl. rewrite Hbl in Hnd. simpl in Hnd.
    rewrite omap_app. simpl. unfold worker_job_id at 2. simpl.
    destruct (task_job_id t) as [id|]; [|by rewrite app_nil_r].
    eapply NoDup_Permutation_proper; [|exact Hnd].
    rewrite (assoc (++)). by rewrite <- Permutation_cons_append.
  - intros t' id j Hin. apply Hb. rewrite Hbl. by apply elem_of_cons; right.
  - intros t' id j [Hin|Hin%list_elem_of_singleton]%elem_of_app; [by apply Hs|].
    injection Hin as ->. apply Hb. rewrite Hbl. by apply elem_of_cons; left.
  - intros t' st id j [Hin|Hin%list_elem_of_singleton]%elem_of_app; [by eapply He|done].
  - intros t' id j Hin. apply Hm. destruct Hin as [Hin|Hin]; simpl in Hin.
    + left. rewrite Hbl. by right.
    + rewrite fmap_app in Hin. apply elem_of_app in Hin as [Hin|Hin]; [by right|].
      apply list_elem_of_singleton in Hin as ->. left. rewrite Hbl. by left.
Qed.

(** A thread commits 'processing' for its task. *)
Lemma inv_begin jobs p r1 t r2 id now st :
  inv jobs p →
  running p = r1 ++ Started t :: r2 →
  task_job_id t = Some id →
  inv (alter (set_processing now) id jobs)
      {| backlog := backlog p; running := r1 ++ Encoding t st :: r2 |}.
Proof.
  intros Hinv Hr Ht.
  destruct (pool_split_nodup p r1 (Started t) r2 id Hr Ht (inv_nodup _ _ Hinv))
    as (HidB & HidR & _).
  destruct Hinv as [Hcap Hnd Hb Hs He Hrows Hm].
  assert (∀ wk, wk ∈ r1 ++ r2 → wk ∈ running p) as Hsub.
  { intros wk. rewrite Hr, !elem_of_app, elem_of_cons. tauto. }
  constructor; simpl.
  - rewrite Hr in Hcap. rewrite length_app in *. simpl in *. lia.
  - unfold pool_job_ids in *. simpl. rewrite Hr in Hnd.
    by rewrite omap_app in *.
  - intros t' id' j' Hin Hid.
    rewrite lookup_alter_ne; [by eapply Hb|].
    intros ->. apply HidB. by eapply elem_of_backlog_ids.
  - intros t' id' j' Hin Hid.
    assert (Started t' ∈ r1 ++ r2) as Hin'.
    { revert Hin. rewrite !elem_of_app, elem_of_cons. intros [?|[?|?]]; by auto. }
    rewrite lookup_alter_ne; [by eapply Hs; eauto|].
    intros ->. apply HidR. by eapply (elem_of_worker_ids (Started t')).
  - intros t' st' id' j' Hin Hid.
    destruct (decide (id = id')) as [<-|Hne].
    + rewrite lookup_alter_eq. destruct (jobs !! id); [|done]. by intros [= <-].
    + rewrite lookup_alter_ne by done. apply (He t' st'); [|done].
      revert Hin. rewrite Hr, !elem_of_app, !elem_of_cons.
      intros [?|[Heq|?]]; [by auto| |by auto].
      injection Heq as -> ->. congruence.
  - intros id' j'. destruct (decide (id = id')) as [<-|Hne].
    + rewrite lookup_alter_eq. destruct (jobs !! id) as [j|] eqn:Hj; [|done].
      intros [= <-]. apply set_processing_row_ok; [|by eapply Hrows].
      eapply Hs; [|done..]. rewrite Hr. apply elem_of_app. right. left.
    + rewrite lookup_alter_ne by done. apply Hrows.
  - intros t' id' j' Hin Hid.
    assert (pool_task p t') as Hin'.
    { destruct Hin as [Hin|Hin]; simpl in Hin; [by left|right].
      revert Hin. rewrite Hr, !fmap_app, !fmap_cons. done. }
    rewrite lookup_alter. case_decide as Heq.
    + destruct (jobs !! id) as [j|] eqn:Hj; [|done]. intros [= <-]. subst id'.
      apply task_matches_update; [left; by eexists|]. by eapply Hm.
    + by apply Hm.
Qed.

(** A thread is done with its task and writes [f] to the row, if there
    still is one; the thread is free again. *)
Lemma inv_finish jobs p r1 wk r2 id f :
  inv jobs p →
  running p = r1 ++ wk :: r2 →
  worker_job_id wk = Some id →
  is_update f →
  (∀ j, jobs !! id = Some j → row_ok (f j)) →
  inv (alter f id jobs) {| backlog := backlog p; running := r1 ++ r2 |}.
Proof.
  intros Hinv Hr Hwk Hupd Hf.
  destruct (pool_split_nodup p r1 wk r2 id Hr Hwk (inv_nodup _ _ Hinv))
    as (HidB & HidR & Hnd').
  destruct Hinv as [Hcap Hnd Hb Hs He Hrows Hm].
  assert (∀ wk', wk' ∈ r1 ++ r2 → wk' ∈ running p) as Hsub.
  { intros wk'. rewrite Hr, !elem_of_app, elem_of_cons. tauto. }
  constructor; simpl.
  - rewrite Hr in Hcap. rewrite length_app in *. simpl in *. lia.
  - done.
  - intros t' id' j' Hin Hid.
    rewrite lookup_alter_ne; [by eapply Hb|].
    intros ->. apply HidB. by eapply elem_of_backlog_ids.
  - intros t' id' j' Hin Hid.
    rewrite lookup_alter_ne; [by eapply Hs; eauto|].
    intros ->. apply HidR. by eapply (elem_of_worker_ids (Started t')).
  - intros t' st' id' j' Hin Hid.
    rewrite lookup_alter_ne; [by eapply He; eauto|].
    intros ->. apply HidR. by eapply (elem_of_worker_ids (Encoding t' st')).
  - intros id' j'. destruct (decide (id = id')) as [<-|Hne].
    + rewrite lookup_alter_eq. destruct (jobs !! id) as [j|] eqn:Hj; [|done].
      intros [= <-]. by apply Hf.
    + rewrite lookup_alter_ne by done. apply Hrows.
  - intros t' id' j' Hin Hid.
    assert (pool_task p t') as Hin'.
    { destruct Hin as [Hin|Hin]; simpl in Hin; [by left|right].
      revert Hin. rewrite Hr, !fmap_app, !fmap_cons, !elem_of_app, elem_of_cons. tauto. }
    rewrite lookup_alter. case_decide as Heq.
    + destruct (jobs !! id) as [j|] eqn:Hj; [|done]. intros [= <-]. subst id'.
      apply task_matches_update; [done|]. by eapply Hm.
    + by apply Hm.
Qed.

(** *** Every action is one of the effects *)

Ltac cut_at H :=
  let l1 := fresh "l1" in
  let l2 := fresh "l2" in
  let Hl := fresh "Hl" in
  let Hdel := fresh "Hdel" in
  let Hins := fresh "Hins" in
  destruct (lookup_cut _ _ _ H) as (l1 & l2 & Hl & Hdel & Hins);
  rewrite ?Hdel, ?Hins in *.

Lemma act_effect a s s' :
  act a s = Some s' →
  effect (transcoding_jobs (store (state s))) (executor (state s))
         (transcoding_jobs (store (state s'))) (executor (state s')).
Proof.
  intros Hact. destruct s as [w rs].
  destruct a as [uid role video_id data|i now uuid4|i|uid role data|i|i now uuid4
                |i commit|video_id uid filename|uid role video_id|i|duration|
                |i ev handler|i engine ev handler|i|]; simpl in Hact.
  - repeat case_match; simplify_eq; apply eff_none.
  - destruct (rs !! i) as [[uid video_id tf tr tb video| | | | |]|]; try done.
    destruct (write_locked rs); [done|]. case_decide; [|done].
    destruct (insert_job _ _ _ _ _ _ _ _ _) as [e|d'] eqn:Hins;
      simplify_eq; simpl; [apply eff_none|].
    apply insert_job_row in Hins as (Hnone & _ & _ & j & -> & Hq & Hok & _).
    by apply eff_insert.
  - destruct (rs !! i) as [[|t| | | |]|]; try done. simplify_eq. apply eff_enqueue.
  - repeat case_match; simplify_eq; apply eff_none.
  - destruct (rs !! i) as [[| |uid role tf tr tb ids| | |]|]; try done.
    repeat case_match; simplify_eq; apply eff_none.
  - destruct (rs !! i) as [[| | |uid role tf tr tb video_id video rest| |]|]; try done.
    destruct (write_locked rs); [done|]. case_decide; [|done].
    destruct (insert_job _ _ _ _ _ _ _ _ _) as [e|d'] eqn:Hins;
      simplify_eq; simpl; [apply eff_none|apply eff_enqueue].
  - destruct (rs !! i) as [[| | | |uid role tf tr tb video_id video now job_id rest|]|];
      try done.
    destruct commit; [simplify_eq; apply eff_none|].
    destruct (insert_job _ _ _ _ _ _ _ _ _) as [e|d'] eqn:Hins; [done|].
    simplify_eq. simpl.
    apply insert_job_row in Hins as (Hnone & _ & _ & j & -> & Hq & Hok & _).
    by apply eff_insert.
  - destruct (write_locked rs); [done|].
    unfold insert_video in Hact.
    destruct (videos (store w) !! video_id); simplify_eq; simpl; apply eff_none.
  - repeat case_match; simplify_eq; apply eff_none.
  - destruct (rs !! i) as [[| | | | |video_id]|]; try done.
    destruct (write_locked rs); [done|]. simplify_eq. simpl. apply eff_delete.
  - simplify_eq. simpl. apply eff_enqueue.
  - destruct (backlog (executor w)) as [|t ts] eqn:Hbl; [done|].
    case_decide; [|done]. simplify_eq. simpl. by apply eff_dispatch.
  - destruct (running (executor w) !! i) as [[[inp out tf tr tb job_id|]|]|] eqn:Hi;
      try done.
    destruct (_ && _)%bool; [done|].
    cut_at Hi. unfold worker_begin, on_exception in Hact.
    destruct ev as [e|[now t0]]; [destruct handler|]; simplify_eq; simpl;
      rewrite ?Hdel, ?Hins.
    + by eapply eff_leave.
    + by eapply eff_begin_raise.
    + by eapply eff_begin.
  - destruct (running (executor w) !! i) as [[|[inp out tf tr tb job_id|] t0]|] eqn:Hi;
      try done.
    destruct (_ && _)%bool; [done|].
    cut_at Hi. simplify_eq. simpl. rewrite ?Hdel.
    destruct (worker_end_cases engine ev handler inp out tf tr tb job_id t0 (store w))
      as [->|[(e & ->)|(now & pt & ->)]]; simpl.
    + by eapply eff_leave.
    + by eapply eff_end_failed.
    + by eapply eff_end_completed.
  - destruct (running (executor w) !! i) as [[[|duration]|]|] eqn:Hi; try done.
    cut_at Hi. simplify_eq. simpl. rewrite ?Hdel. by eapply eff_leave.
  - simplify_eq. simpl. apply eff_crash.
Qed.

Lemma step_effect w w' :
  step w w' →
  effect (transcoding_jobs (store w)) (executor w)
         (transcoding_jobs (store w')) (executor w').
Proof. intros (rs & a & rs' & Hact). exact (act_effect _ _ _ Hact). Qed.

(** *** The requests being served *)

Lemma pending_app rs1 rs2 : pending (rs1 ++ rs2) = pending rs1 ++ pending rs2.
Proof. apply omap_app. Qed.

Lemma uncommitted_app rs1 rs2 :
  uncommitted (rs1 ++ rs2) = uncommitted rs1 ++ uncommitted rs2.
Proof. apply omap_app. Qed.

Lemma unlocked_uncommitted rs : write_locked rs = false → uncommitted rs = [].
Proof. unfold write_locked. by destruct (uncommitted rs). Qed.

(** No request holds the write lock: [uncommitted_ok] says nothing. *)
Lemma uncommitted_nil_ok jobs p rs r :
  uncommitted rs = [] → r ∈ rs → uncommitted_ok jobs p r.
Proof.
  intros Hnil Hin. destruct r; try done.
  assert (job_id ∈ uncommitted rs) as Hid.
  { apply list_elem_of_omap. eexists. split; [exact Hin|done]. }
  rewrite Hnil in Hid. by apply elem_of_nil in Hid.
Qed.

Lemma uncommitted_ok_mono jobs p p' r :
  (∀ t, pool_task p' t → is_Some (task_job_id t) → pool_task p t) →
  (∀ id, id ∈ encoding_jobs p' → id ∈ encoding_jobs p) →
  uncommitted_ok jobs p r → uncommitted_ok jobs p' r.
Proof.
  intros Htask Henc. destruct r; try done. simpl.
  intros (Hnone & Hfmt & Hne & Ht). split_and!; try done.
  - intros Hin. by apply Hne, Henc.
  - intros t Hin Hid. apply Ht; [|done]. apply Htask; [done|by eexists].
Qed.

(** The pool and the tasks about to join it, as lists of ids. *)
Lemma with_pending_ids p q :
  pool_job_ids (with_pending p q)
  ≡ₚ pool_job_ids p ++ omap task_job_id q.
Proof.
  unfold pool_job_ids, with_pending. simpl. rewrite omap_app.
  rewrite <- !(assoc (++)). f_equiv. apply Permutation_app_comm.
Qed.

Lemma fresh_uuid_pool id w rs :
  fresh_uuid id {| state := w; serving := rs |} →
  (id ∉ pool_job_ids (with_pending (executor w) (pending rs))) ∧
  (id ∉ uncommitted rs).
Proof.
  unfold fresh_uuid, ids_in_use. simpl. rewrite with_pending_ids.
  rewrite !elem_of_app. tauto.
Qed.

(** The requests change and the store and the pool do not. *)
Lemma service_inv_requests w rs rs' :
  service_inv {| state := w; serving := rs |} →
  pending rs' = pending rs →
  uncommitted rs' = uncommitted rs →
  (∀ r, r ∈ rs' → r ∈ rs ∨ uncommitted_id r = None) →
  service_inv {| state := w; serving := rs' |}.
Proof.
  intros [Hpool Hlock Hunc] Hp Hu Hsub. simpl in *.
  constructor; simpl; rewrite ?Hp, ?Hu; try done.
  intros r Hin. destruct (Hsub r Hin) as [Hin'|Hnone]; [by apply Hunc|].
  by destruct r.
Qed.

(** Tasks leave the pool, or a closure joins it, while the store and the
    requests stay. *)
Lemma service_inv_pool d p p' rs :
  service_inv {| state := {| store := d; executor := p |}; serving := rs |} →
  inv (transcoding_jobs d) (with_pending p' (pending rs)) →
  (∀ t, pool_task (with_pending p' (pending rs)) t → is_Some (task_job_id t) →
        pool_task (with_pending p (pending rs)) t) →
  (∀ id, id ∈ encoding_jobs p' → id ∈ encoding_jobs p) →
  service_inv {| state := {| store := d; executor := p' |}; serving := rs |}.
Proof.
  intros [Hpool Hlock Hunc] Hinv Htask Henc. simpl in *.
  constructor; simpl; try done.
  intros r Hin. eapply uncommitted_ok_mono; [exact Htask|exact Henc|by apply Hunc].
Qed.

(** The store or the pool change while no request holds the write lock,
    and the requests that change do not take it. *)
Lemma service_inv_unlocked w' rs' :
  inv (transcoding_jobs (store w')) (with_pending (executor w') (pending rs')) →
  uncommitted rs' = [] →
  service_inv {| state := w'; serving := rs' |}.
Proof.
  intros Hinv Hnil. constructor; simpl; [done|by rewrite Hnil; simpl; lia|].
  intros r Hin. by eapply uncommitted_nil_ok.
Qed.

(** A thread leaves its task and writes nothing. *)
Lemma service_inv_leave d p rs l1 wk l2 :
  service_inv {| state := {| store := d; executor := p |}; serving := rs |} →
  running p = l1 ++ wk :: l2 →
  service_inv {| state := {| store := d;
                             executor := {| backlog := backlog p; running := l1 ++ l2 |} |};
                 serving := rs |}.
Proof.
  intros Hinv Hr. apply service_inv_pool with (p := p); [done|..].
  - eapply inv_sublist; [apply (sinv_pool _ Hinv)|done|].
    simpl. rewrite Hr. apply sublist_middle.
  - intros t Hin _. revert Hin. unfold pool_task. simpl.
    rewrite Hr, !fmap_app, fmap_cons, !elem_of_app, elem_of_cons. tauto.
  - intros id Hin. unfold encoding_jobs in *. simpl in Hin. rewrite Hr.
    eapply elem_of_sublist; [exact Hin|]. apply omap_sublist, sublist_middle.
Qed.

(** A thread writes an update to the row of its task and is free again;
    no request holds the write lock. *)
Lemma service_inv_finish d p rs l1 wk l2 id f :
  service_inv {| state := {| store := d; executor := p |}; serving := rs |} →
  uncommitted rs = [] →
  running p = l1 ++ wk :: l2 →
  worker_job_id wk = Some id →
  is_update f →
  (∀ j, transcoding_jobs d !! id = Some j → row_ok (f j)) →
  service_inv {| state := {| store := update_job id f d;
                             executor := {| backlog := backlog p; running := l1 ++ l2 |} |};
                 serving := rs |}.
Proof.
  intros Hinv Hnil Hr Hwk Hf Hok. apply service_inv_unlocked; [|done]. simpl.
  by apply (inv_finish _ (with_pending p (pending rs)) l1 wk l2 id f (sinv_pool _ Hinv)).
Qed.

Lemma end_raises_twice_store engine ev handler inp out tf tr tb job_id t0 d :
  end_raises_twice engine ev handler inp out tf tr tb job_id t0 d = true →
  worker_end engine ev handler inp out tf tr tb job_id t0 d = d.
Proof.
  unfold end_raises_twice, worker_end, on_exception.
  destruct (try_end _ _ _ _ _ _ _ _ _ _); [|done]. by destruct handler.
Qed.

Lemma act_inv a s s' : service_inv s → act a s = Some s' → service_inv s'.
Proof.
  intros Hinv Hact. destruct s as [[d p] rs].
  destruct a as [uid role video_id data|i now uuid4|i|uid role data|i|i now uuid4
                |i commit|video_id uid filename|uid role video_id|i|duration|
                |i ev handler|i engine ev handler|i|]; simpl in Hact.
  - (* TranscodeCheck *)
    repeat case_match; simplify_eq; try done.
    apply (service_inv_requests _ rs); [done|..].
    + rewrite pending_app. apply app_nil_r.
    + rewrite uncommitted_app. apply app_nil_r.
    + intros r [Hin| ->%list_elem_of_singleton]%elem_of_app; auto.
  - (* TranscodeInsert *)
    destruct (rs !! i) as [[uid video_id tf tr tb video| | | | |]|] eqn:Hi; try done.
    destruct (write_locked rs) eqn:Hlock; [done|]. case_decide as Hfresh; [|done].
    apply unlocked_uncommitted in Hlock.
    destruct (insert_job _ _ _ _ _ _ _ _ _) as [e|d'] eqn:Hins; simplify_eq.
    + cut_at Hi. subst rs. apply (service_inv_requests _ (l1 ++ Checked uid video_id tf tr tb video :: l2));
        [done|unfold pending; by rewrite !omap_app|unfold uncommitted; by rewrite !omap_app|].
      intros r. rewrite !elem_of_app, elem_of_cons. tauto.
    + apply insert_job_row in Hins
        as (Hnone & Hfmt & _ & j & Hjobs & Hq & Hok & _ & _ & Hmatch).
      apply fresh_uuid_pool in Hfresh as [Hfresh _]. simpl in Hfresh.
      pose proof (sinv_pool _ Hinv) as Hpool. simpl in Hpool.
      cut_at Hi. subst rs.
      set (t := transcode_task video tf tr tb uuid4) in *.
      set (q := pending (l1 ++ Checked uid video_id tf tr tb video :: l2)) in *.
      apply service_inv_unlocked; simpl.
      * rewrite Hjobs.
        apply (inv_perm _ (executor_submit t (with_pending p q))).
        { simpl. subst q. unfold pending. rewrite !omap_app. simpl.
          apply perm_to_end. }
        apply inv_insert; try done.
        -- apply inv_enqueue; [done|]. intros id [= <-]. split; [done|].
           intros j' Hj'. congruence.
        -- intros Hin. apply Hfresh. by apply encoding_ids_pool.
        -- intros t' [Hin|Hin] Hid; simpl in Hin.
           ++ apply elem_of_app in Hin as [Hin| ->%list_elem_of_singleton]; [|apply Hmatch].
              destruct Hfresh. eapply pool_task_ids; [left; exact Hin|done].
           ++ destruct Hfresh. eapply pool_task_ids; [right; exact Hin|done].
      * revert Hlock. unfold uncommitted. by rewrite !omap_app.
  - (* TranscodeSubmit *)
    destruct (rs !! i) as [[|t| | | |]|] eqn:Hi; try done. simplify_eq.
    cut_at Hi. subst rs. destruct Hinv as [Hpool Hlock Hunc]. simpl in *.
    assert (backlog p ++ pending (l1 ++ Inserted t :: l2)
            ≡ₚ (backlog p ++ [t]) ++ pending (l1 ++ l2)) as Hperm.
    { unfold pending. rewrite !omap_app. simpl. apply perm_to_front. }
    constructor; simpl.
    + exact (inv_perm _ (with_pending p (pending (l1 ++ Inserted t :: l2))) _
                      Hperm Hpool).
    + revert Hlock. unfold uncommitted. by rewrite !omap_app.
    + intros r Hin. eapply uncommitted_ok_mono; [| |apply Hunc].
      * intros t'. unfold pool_task. simpl. by rewrite Hperm.
      * done.
      * revert Hin. rewrite !elem_of_app, elem_of_cons. tauto.
  - (* BatchBegin *)
    repeat case_match; simplify_eq; try done.
    apply (service_inv_requests _ rs); [done|..].
    + rewrite pending_app. apply app_nil_r.
    + rewrite uncommitted_app. apply app_nil_r.
    + intros r [Hin| ->%list_elem_of_singleton]%elem_of_app; auto.
  - (* BatchCheck *)
    destruct (rs !! i) as [[| |uid role tf tr tb ids| | |]|] eqn:Hi; try done.
    cut_at Hi. subst rs.
    repeat case_match; simplify_eq; rewrite ?Hdel, ?Hins;
      (eapply service_inv_requests;
       [exact Hinv|unfold pending; by rewrite !omap_app
       |unfold uncommitted; by rewrite !omap_app|]);
      intros r; rewrite !elem_of_app, ?elem_of_cons;
      intros [?|[->|?]] || intros [?|?]; auto.
  - (* BatchSubmit *)
    destruct (rs !! i) as [[| | |uid role tf tr tb video_id video rest| |]|] eqn:Hi;
      try done.
    destruct (write_locked rs) eqn:Hlock; [done|]. case_decide as Hfresh; [|done].
    apply unlocked_uncommitted in Hlock.
    destruct (insert_job _ _ _ _ _ _ _ _ _) as [e|d'] eqn:Hins; simplify_eq.
    + cut_at Hi. subst rs.
      eapply service_inv_requests;
        [exact Hinv|unfold pending; by rewrite !omap_app
        |unfold uncommitted; by rewrite !omap_app|].
      intros r. rewrite !elem_of_app, elem_of_cons. tauto.
    + apply insert_job_row in Hins
        as (Hnone & Hfmt & _ & j & _ & _ & _ & _ & _ & _).
      apply fresh_uuid_pool in Hfresh as [Hfresh _]. simpl in Hfresh.
      pose proof (sinv_pool _ Hinv) as Hpool. simpl in Hpool.
      cut_at Hi. subst rs.
      set (t := transcode_task video tf tr tb uuid4) in *.
      assert (pending (l1 ++ BatchSubmitted uid role tf tr tb video_id video now uuid4 rest
                          :: l2)
              = pending (l1 ++ BatchChecked uid role tf tr tb video_id video rest :: l2))
        as Hq by (unfold pending; by rewrite !omap_app).
      assert (uncommitted l1 = [] ∧ uncommitted l2 = []) as [Hu1 Hu2].
      { revert Hlock. unfold uncommitted. rewrite !omap_app. simpl.
        by intros [? ?]%app_eq_nil. }
      constructor; simpl; rewrite ?Hq.
      * apply (inv_perm _ (executor_submit t
                 (with_pending p
                    (pending (l1 ++ BatchChecked uid role tf tr tb video_id video rest
                                 :: l2))))).
        { simpl. rewrite <- !(assoc (++)). f_equiv. apply Permutation_app_comm. }
        apply inv_enqueue; [done|]. intros id [= <-]. split; [done|].
        intros j' Hj'. congruence.
      * rewrite uncommitted_app. simpl. rewrite Hu1. simpl.
        change (omap uncommitted_id l2) with (uncommitted l2). rewrite Hu2. simpl. lia.
      * intros r [Hin|[->|Hin]%elem_of_cons]%elem_of_app.
        -- exact (uncommitted_nil_ok _ _ l1 r Hu1 Hin).
        -- simpl. split_and!; try done.
           ++ intros Hin. apply Hfresh. apply encoding_ids_pool. exact Hin.
           ++ intros t' [Hin|Hin] Hid; simpl in Hin.
              ** rewrite <- (assoc (++)) in Hin.
                 apply elem_of_app in Hin as [Hin|Hin].
                 --- destruct Hfresh. eapply pool_task_ids; [|done].
                     left. simpl. apply elem_of_app. by left.
                 --- apply elem_of_cons in Hin as [->|Hin]; [done|].
                     destruct Hfresh. eapply pool_task_ids; [|done].
                     left. simpl. apply elem_of_app. by right.
              ** destruct Hfresh. eapply pool_task_ids; [right; exact Hin|done].
        -- exact (uncommitted_nil_ok _ _ l2 r Hu2 Hin).
  - (* BatchCommit *)
    destruct (rs !! i)
      as [[| | | |uid role tf tr tb video_id video now job_id rest|]|] eqn:Hi; try done.
    pose proof Hinv as [Hpool Hlock Hunc]. simpl in *.
    cut_at Hi. subst rs.
    assert (uncommitted l1 = [] ∧ uncommitted l2 = []) as [Hu1 Hu2].
    { revert Hlock. unfold uncommitted. rewrite !omap_app. simpl.
      apply length_le_1_middle. }
    destruct (Hunc (BatchSubmitted uid role tf tr tb video_id video now job_id rest))
      as (Hnone & Hfmt & Henc & Htask).
    { apply elem_of_app. right. by left. }
    destruct commit as [e|].
    + simplify_eq. apply service_inv_unlocked; simpl.
      * revert Hpool. unfold pending. by rewrite !omap_app.
      * by rewrite uncommitted_app, Hu1, Hu2.
    + destruct (insert_job _ _ _ _ _ _ _ _ _) as [e|d'] eqn:Hjob; [done|].
      simplify_eq.
      apply insert_job_row in Hjob
        as (_ & _ & _ & j & Hjobs & Hq & Hok & _ & _ & Hmatch).
      apply service_inv_unlocked; simpl.
      * rewrite Hjobs.
        assert (pending (l1 ++ BatchLoop uid role tf tr tb rest :: l2)
                = pending (l1 ++ BatchSubmitted uid role tf tr tb video_id video now
                                                job_id rest :: l2)) as ->
          by (unfold pending; by rewrite !omap_app).
        apply inv_insert; try done.
        intros t Hin Hid. rewrite (Htask t Hin Hid). apply Hmatch.
      * rewrite uncommitted_app. simpl. by rewrite Hu1, Hu2.
  - (* Upload *)
    destruct (write_locked rs) eqn:Hlock; [done|].
    unfold insert_video in Hact.
    destruct (videos d !! video_id); simplify_eq; [done|].
    destruct Hinv as [Hpool Hl Hunc]. by constructor.
  - (* DeleteCheck *)
    repeat case_match; simplify_eq; try done.
    apply (service_inv_requests _ rs); [done|..].
    + rewrite pending_app. apply app_nil_r.
    + rewrite uncommitted_app. apply app_nil_r.
    + intros r [Hin| ->%list_elem_of_singleton]%elem_of_app; auto.
  - (* DeleteCommit *)
    destruct (rs !! i) as [[| | | | |video_id]|] eqn:Hi; try done.
    destruct (write_locked rs) eqn:Hlock; [done|]. simplify_eq.
    apply unlocked_uncommitted in Hlock.
    pose proof (sinv_pool _ Hinv) as Hpool. simpl in Hpool.
    cut_at Hi. subst rs. apply service_inv_unlocked; simpl.
    + eapply inv_fewer_rows; [|apply map_filter_subseteq].
      revert Hpool. unfold pending. by rewrite !omap_app.
    + revert Hlock. unfold uncommitted. by rewrite !omap_app.
  - (* StressSubmit *)
    simplify_eq. apply service_inv_pool with (p := p); [done|..].
    + apply (inv_perm _ (executor_submit (CpuIntensive duration)
                                         (with_pending p (pending rs)))).
      { simpl. rewrite <- !(assoc (++)). f_equiv. apply Permutation_app_comm. }
      apply inv_enqueue; [apply (sinv_pool _ Hinv)|done].
    + intros t Hin [id Hid]. revert Hin. unfold pool_task. simpl.
      rewrite !elem_of_app, list_elem_of_singleton.
      intros [[[?|Heq]|?]|?]; auto. by subst t.
    + done.
  - (* Dispatch *)
    destruct (backlog p) as [|t ts] eqn:Hbl; [done|].
    case_decide as Hfree; [|done]. simplify_eq.
    apply service_inv_pool with (p := p); [done|..].
    + apply (inv_dispatch _ (with_pending p (pending rs)) t (ts ++ pending rs));
        [apply (sinv_pool _ Hinv)|by simpl; rewrite Hbl|done].
    + intros t' Hin _. revert Hin. unfold pool_task. simpl.
      rewrite Hbl, fmap_app, !elem_of_app. simpl.
      rewrite list_elem_of_singleton, elem_of_cons. tauto.
    + intros id. unfold encoding_jobs. simpl. rewrite omap_app. simpl.
      by rewrite app_nil_r.
  - (* WorkerBegin *)
    destruct (running p !! i) as [[[inp out tf tr tb job_id|]|]|] eqn:Hi; try done.
    cut_at Hi.
    destruct ev as [e|[now t0]]; [destruct handler as [e'|]|]; simpl in Hact.
    + rewrite andb_false_r in Hact. unfold on_exception in Hact. simplify_eq.
      rewrite ?Hdel. by eapply service_inv_leave.
    + rewrite andb_true_r in Hact.
      destruct (write_locked rs) eqn:Hlock; [done|].
      apply unlocked_uncommitted in Hlock. unfold on_exception in Hact. simplify_eq.
      rewrite ?Hdel.
      eapply (service_inv_finish _ _ _ l1 (Started (Transcode inp out tf tr tb job_id)));
        try done.
      * right; left; by eexists.
      * intros j Hj. apply set_failed_row_ok; [|by eapply inv_rows, Hj; apply Hinv].
        rewrite (inv_started _ _ (sinv_pool _ Hinv)
                   (Transcode inp out tf tr tb job_id) job_id j); [done| |done..].
        simpl. rewrite Hl. apply elem_of_app. right. by left.
    + rewrite andb_true_r in Hact.
      destruct (write_locked rs) eqn:Hlock; [done|].
      apply unlocked_uncommitted in Hlock. simplify_eq. rewrite ?Hins.
      apply service_inv_unlocked; [|done]. simpl.
      by apply (inv_begin _ (with_pending p (pending rs)) l1
                          (Transcode inp out tf tr tb job_id) l2 job_id now t0
                          (sinv_pool _ Hinv)).
  - (* WorkerEnd *)
    destruct (running p !! i) as [[|[inp out tf tr tb job_id|] t0]|] eqn:Hi; try done.
    cut_at Hi.
    assert (Encoding (Transcode inp out tf tr tb job_id) t0
              ∈ running (with_pending p (pending rs))) as Hin.
    { simpl. rewrite Hl. apply elem_of_app. right. by left. }
    destruct (end_raises_twice engine ev handler inp out tf tr tb job_id t0 d) eqn:Htw.
    + rewrite andb_false_r in Hact. simplify_eq.
      rewrite (end_raises_twice_store _ _ _ _ _ _ _ _ _ _ _ Htw).
      by eapply service_inv_leave.
    + rewrite andb_true_r in Hact.
      destruct (write_locked rs) eqn:Hlock; [done|].
      apply unlocked_uncommitted in Hlock. simplify_eq.
      destruct (worker_end_cases engine ev handler inp out tf tr tb job_id t0 d)
        as [->|[(e & ->)|(now & pt & ->)]].
      * by eapply service_inv_leave.
      * eapply (service_inv_finish _ _ _ l1
                  (Encoding (Transcode inp out tf tr tb job_id) t0)); try done.
        -- right; left; by eexists.
        -- intros j Hj. apply set_failed_row_ok; [|by eapply inv_rows, Hj; apply Hinv].
           by rewrite (inv_encoding _ _ (sinv_pool _ Hinv) _ _ job_id j Hin eq_refl Hj).
      * eapply (service_inv_finish _ _ _ l1
                  (Encoding (Transcode inp out tf tr tb job_id) t0)); try done.
        -- right; right; by repeat eexists.
        -- intros j Hj. apply set_completed_row_ok; [|by eapply inv_rows, Hj; apply Hinv].
           exact (inv_encoding _ _ (sinv_pool _ Hinv) _ _ job_id j Hin eq_refl Hj).
  - (* CpuDone *)
    destruct (running p !! i) as [[[|duration]|]|] eqn:Hi; try done.
    cut_at Hi. simplify_eq. by eapply service_inv_leave.
  - (* Crash *)
    simplify_eq. apply service_inv_unlocked; [|done]. simpl.
    eapply inv_sublist; [apply (sinv_pool _ Hinv)|apply sublist_nil_l..].
Qed.

(** *** Every state of the service satisfies the invariant *)

Lemma start_inv vs : service_inv (start vs).
Proof.
  apply service_inv_unlocked; [|done]. simpl. constructor; simpl.
  - unfold max_workers. lia.
  - constructor.
  - intros t id j Hin. by apply elem_of_nil in Hin.
  - intros t id j Hin. by apply elem_of_nil in Hin.
  - intros t st id j Hin. by apply elem_of_nil in Hin.
  - done.
  - intros t id j [Hin|Hin]; simpl in Hin; by apply elem_of_nil in Hin.
Qed.

Lemma reachable_service_inv s : reachable_service s → service_inv s.
Proof.
  induction 1 as [vs|s a s' _ IH Hact]; [apply start_inv|by eapply act_inv].
Qed.

Lemma service_inv_world s : service_inv s → world_inv (state s).
Proof.
  intros Hinv. unfold world_inv.
  eapply inv_sublist; [apply (sinv_pool _ Hinv)|simpl|done].
  by apply sublist_inserts_r.
Qed.

Lemma reachable_inv w : reachable w → world_inv w.
Proof.
  intros [rs Hreach]. exact (service_inv_world _ (reachable_service_inv _ Hreach)).
Qed.

(** A schedule leads from a state of the service to a state of the
    service. *)
Lemma run_reachable actions :
  ∀ s s', reachable_service s → run actions s = Some s' → reachable_service s'.
Proof.
  induction actions as [|a actions IH]; intros s s' Hreach; simpl.
  - by intros [= <-].
  - destruct (act a s) as [s1|] eqn:Hact; [|done].
    apply IH. by eapply reachable_act.
Qed.

(** The sample worlds are states of the service. *)
Lemma scenario_w1_reachable : reachable Scenario.w1.
Proof.
  exists []. apply (run_reachable Scenario.to_w1 (start Scenario.videos0));
    [apply reachable_start|]. vm_compute. reflexivity.
Qed.

Lemma scenario_w2_reachable : reachable Scenario.w2.
Proof.
  exists []. apply (run_reachable Scenario.to_w2 (start Scenario.videos0));
    [apply reachable_start|]. vm_compute. reflexivity.
Qed.

Lemma scenario_w3_reachable : reachable Scenario.w3.
Proof.
  exists []. apply (run_reachable Scenario.to_w3 (start Scenario.videos0));
    [apply reachable_start|]. vm_compute. reflexivity.
Qed.

Lemma scenario_w2_w3 : step Scenario.w2 Scenario.w3.
Proof. exists [], (WorkerBegin 0 (inr (1, 100)) None), []. vm_compute. reflexivity. Qed.

(** ** The lifecycle of a row *)

Lemma transition_ok_refl s : transition_ok s s = true.
Proof. by destruct s. Qed.

Lemma transition_ok_rank s s' :
  transition_ok s s' = true → (status_rank s ≤ status_rank s')%nat.
Proof. destruct s, s'; simpl; (done || lia). Qed.

Lemma effect_transition jobs p jobs' p' :
  inv jobs p → effect jobs p jobs' p' →
  ∀ id j j', jobs !! id = Some j → jobs' !! id = Some j' →
             transition_ok (j_status j) (j_status j') = true.
Proof.
  intros Hinv Heff id' j j' Hj.
  assert (∀ r1 wk r2, running p = r1 ++ wk :: r2 → wk ∈ running p) as Hmid.
  { intros r1 wk r2 ->. apply elem_of_app. right. left. }
  destruct Heff
    as [|id j0 Hnone Hq Hok|t|video_id|t ts Hbl Hfree
       |r1 t r2 id now st Hr Ht|r1 t r2 id e Hr Ht|r1 wk r2 Hr
       |r1 t st r2 id e Hr Ht|r1 t st r2 id now pt Hr Ht|];
    try (rewrite Hj; intros [= <-]; apply transition_ok_refl).
  - destruct (decide (id = id')) as [<-|Hne]; [congruence|].
    rewrite lookup_insert_ne, Hj by done. intros [= <-]. apply transition_ok_refl.
  - intros [Hj' _]%map_lookup_filter_Some. rewrite Hj in Hj'. injection Hj' as <-.
    apply transition_ok_refl.
  - destruct (decide (id = id')) as [<-|Hne].
    + rewrite lookup_alter_eq, Hj. intros [= <-]. simpl.
      by rewrite (inv_started _ _ Hinv t id j (Hmid _ _ _ Hr) Ht Hj).
    + rewrite lookup_alter_ne, Hj by done. intros [= <-]. apply transition_ok_refl.
  - destruct (decide (id = id')) as [<-|Hne].
    + rewrite lookup_alter_eq, Hj. intros [= <-]. simpl.
      by rewrite (inv_started _ _ Hinv t id j (Hmid _ _ _ Hr) Ht Hj).
    + rewrite lookup_alter_ne, Hj by done. intros [= <-]. apply transition_ok_refl.
  - destruct (decide (id = id')) as [<-|Hne].
    + rewrite lookup_alter_eq, Hj. intros [= <-]. simpl.
      by rewrite (inv_encoding _ _ Hinv t st id j (Hmid _ _ _ Hr) Ht Hj).
    + rewrite lookup_alter_ne, Hj by done. intros [= <-]. apply transition_ok_refl.
  - destruct (decide (id = id')) as [<-|Hne].
    + rewrite lookup_alter_eq, Hj. intros [= <-]. simpl.
      by rewrite (inv_encoding _ _ Hinv t st id j (Hmid _ _ _ Hr) Ht Hj).
    + rewrite lookup_alter_ne, Hj by done. intros [= <-]. apply transition_ok_refl.
Qed.

(** Every row is [row_ok] after an action, whatever the requests. *)
Lemma effect_rows jobs p jobs' p' :
  inv jobs p → effect jobs p jobs' p' →
  ∀ id j', jobs' !! id = Some j' → row_ok j'.
Proof.
  intros Hinv Heff id' j'.
  assert (∀ r1 wk r2, running p = r1 ++ wk :: r2 → wk ∈ running p) as Hmid.
  { intros r1 wk r2 ->. apply elem_of_app. right. left. }
  assert (∀ id f,
            (∀ j, jobs !! id = Some j → row_ok (f j)) →
            alter f id jobs !! id' = Some j' → row_ok j') as Halter.
  { intros id f Hf. rewrite lookup_alter. case_decide as Heq.
    - destruct (jobs !! id) as [j|] eqn:Hj; [|done]. intros [= <-]. by apply Hf.
    - apply (inv_rows _ _ Hinv). }
  destruct Heff
    as [|id j0 Hnone Hq Hok|t|video_id|t ts Hbl Hfree
       |r1 t r2 id now st Hr Ht|r1 t r2 id e Hr Ht|r1 wk r2 Hr
       |r1 t st r2 id e Hr Ht|r1 t st r2 id now pt Hr Ht|];
    try apply (inv_rows _ _ Hinv).
  - rewrite lookup_insert. case_decide; [by intros [= <-]|apply (inv_rows _ _ Hinv)].
  - intros [Hj' _]%map_lookup_filter_Some. by eapply inv_rows.
  - apply Halter. intros j Hj. apply set_processing_row_ok; [|by eapply inv_rows].
    exact (inv_started _ _ Hinv t id j (Hmid _ _ _ Hr) Ht Hj).
  - apply Halter. intros j Hj. apply set_failed_row_ok; [|by eapply inv_rows].
    by rewrite (inv_started _ _ Hinv t id j (Hmid _ _ _ Hr) Ht Hj).
  - apply Halter. intros j Hj. apply set_failed_row_ok; [|by eapply inv_rows].
    by rewrite (inv_encoding _ _ Hinv t st id j (Hmid _ _ _ Hr) Ht Hj).
  - apply Halter. intros j Hj. apply set_completed_row_ok; [|by eapply inv_rows].
    exact (inv_encoding _ _ Hinv t st id j (Hmid _ _ _ Hr) Ht Hj).
Qed.

(** C3 as stated fails: the store takes an update that moves a completed
    row back to processing, and one that sets an error message on it; it
    rejects neither. *)
Lemma store_accepts_backward_update :
  transcoding_jobs Scenario.done_db !! "job-0" = Some Scenario.done_job ∧
  j_status Scenario.done_job = completed ∧
  (∃ j', transcoding_jobs (update_job "job-0" (set_processing 5) Scenario.done_db)
           !! "job-0" = Some j' ∧
         j_status j' = processing ∧
         transition_ok (j_status Scenario.done_job) (j_status j') = false) ∧
  (∃ j', transcoding_jobs (update_job "job-0" (set_failed "late") Scenario.done_db)
           !! "job-0" = Some j' ∧
         j_status j' = failed ∧ j_error_message j' = Some "late" ∧
         j_result_filename j' = Some "job-0_h264_720p.mp4").
Proof.
  split; [by vm_compute|]. split; [done|].
  split; eexists; (split; [vm_compute; reflexivity|]); by repeat split.
Qed.

(** C3, amended. The store applies every update as it comes; the order
    is kept by the code that issues them: in every step of the running
    system a row that is there before and after keeps its status or moves
    queued to processing, queued to failed, processing to completed or
    processing to failed, and so never moves backward. *)
Theorem status_moves_forward w w' :
  reachable w → step w w' →
  ∀ id j j',
    transcoding_jobs (store w) !! id = Some j →
    transcoding_jobs (store w') !! id = Some j' →
    transition_ok (j_status j) (j_status j') = true ∧
    (status_rank (j_status j) ≤ status_rank (j_status j'))%nat.
Proof.
  intros Hreach Hstep id j j' Hj Hj'.
  assert (transition_ok (j_status j) (j_status j') = true) as Hok.
  { eapply effect_transition; [apply (reachable_inv _ Hreach)|by apply step_effect|done..]. }
  split; [done|by apply transition_ok_rank].
Qed.

(** C3, amended, on the sample job when its thread commits 'processing'. *)
Lemma status_moves_forward_witness :
  transition_ok (j_status Scenario.job0)
                (j_status (set_processing 1 Scenario.job0)) = true ∧
  (status_rank (j_status Scenario.job0)
   ≤ status_rank (j_status (set_processing 1 Scenario.job0)))%nat.
Proof.
  apply (status_moves_forward Scenario.w2 Scenario.w3
           scenario_w2_reachable scenario_w2_w3 "job-0").
  - by vm_compute.
  - by vm_compute.
Defined.

(** ** The pool and the rows in processing *)

(** C8. Five jobs are in status processing while the pool of four
    threads holds four of them. User 3 submits "v1" five times; threads
    take the first four jobs and commit 'processing'; the run of job-0
    meets a locked store at its last commit and again in its [except]
    block, so its row stays in processing when its thread is free again;
    the thread takes job-4 and commits 'processing'. *)
Theorem five_jobs_processing_on_four_threads :
  ∃ s,
    run Scenario.five_jobs (start Scenario.videos0) = Some s ∧
    reachable (state s) ∧
    count_status processing (store (state s)) = 5%nat ∧
    length (running (executor (state s))) = 4%nat ∧
    encoding_jobs (executor (state s)) = ["job-1"; "job-2"; "job-3"; "job-4"] ∧
    (∃ j, transcoding_jobs (store (state s)) !! "job-0" = Some j ∧
          j_status j = processing) ∧
    serving s = [].
Proof.
  eexists. split; [vm_compute; reflexivity|].
  split.
  { exists []. apply (run_reachable Scenario.five_jobs (start Scenario.videos0));
      [apply reachable_start|]. vm_compute. reflexivity. }
  split; [vm_compute; reflexivity|].
  split; [vm_compute; reflexivity|].
  split; [vm_compute; reflexivity|].
  split; [|reflexivity].
  eexists. split; [vm_compute; reflexivity|reflexivity].
Qed.

(** ** Result file name and error message on a row *)

(** C2 as stated fails: the row of a job that was just submitted is
    queued and has its result file name; the row of a job whose engine
    run failed has both a result file name and an error message. *)
Lemma queued_job_has_result_filename :
  reachable Scenario.w1 ∧
  (∃ j, transcoding_jobs (store Scenario.w1) !! "job-0" = Some j ∧
        j_status j = queued ∧
        j_result_filename j = Some "job-0_h264_720p.mp4") ∧
  (∃ j, transcoding_jobs
          (transcode_video_cpu_intensive Scenario.unsupported_codec
             "uploads/a.mp4" "transcoded/job-0_h264_720p.mp4"
             (Some "h264") (Some "720p") (Some "2M") "job-0" (store Scenario.w1))
          !! "job-0" = Some j ∧
        j_status j = failed ∧
        j_result_filename j = Some "job-0_h264_720p.mp4" ∧
        j_error_message j = Some "unsupported codec").
Proof.
  split; [apply scenario_w1_reachable|].
  split; eexists; (split; [vm_compute; reflexivity|]); by repeat split.
Qed.

(** C2, amended. In every state of the system every row has a non-empty
    result file name, whatever its status, and has an error message if
    and only if its status is failed (so a failed row has both); what
    goes with status completed is the download link: the job view
    carries download_url if and only if the status is completed. *)
Theorem rows_consistent w :
  reachable w →
  ∀ id j,
    transcoding_jobs (store w) !! id = Some j →
    Py.truthy (j_result_filename j) = true ∧
    (is_Some (j_error_message j) ↔ j_status j = failed) ∧
    (∀ uid role data w',
       get_transcoding_job uid role id w = (JobData data, w') →
       jd_status data = j_status j ∧
       jd_error_message data = j_error_message j ∧
       (is_Some (jd_download_url data) ↔ j_status j = completed)).
Proof.
  intros Hreach id j Hj.
  destruct (inv_rows _ _ (reachable_inv _ Hreach) _ _ Hj) as (Hres & Herr & _).
  split_and!; try done.
  intros uid role data w'. unfold get_transcoding_job, select_job. rewrite Hj.
  repeat case_bool_decide; try done; intros [= <- <-]; simpl;
    (split_and!; [done..|]); rewrite Hres; simpl;
    (split; intros Hs; first [done | by eexists | by destruct Hs | congruence]).
Qed.

(** C2, amended, on the sample job right after its submission. *)
Lemma rows_consistent_witness :
  Py.truthy (j_result_filename Scenario.job0) = true ∧
  (is_Some (j_error_message Scenario.job0) ↔ j_status Scenario.job0 = failed).
Proof.
  pose proof (rows_consistent Scenario.w1 scenario_w1_reachable "job-0" Scenario.job0
                eq_refl) as (H1 & H2 & _).
  exact (conj H1 H2).
Defined.

(** * Further properties *)

(** ** The pool and the job table *)

Lemma build_cmd_ends inp out fmt tr tb :
  take 4 (build_cmd inp out fmt tr tb) = ["ffmpeg"; "-i"; inp; "-y"] ∧
  last (build_cmd inp out fmt tr tb) = Some out.
Proof.
  split; [|apply last_snoc].
  unfold build_cmd.
  destruct tr as [r|]; [destruct (Py.truthy_str r); [unfold scale_filter|]|];
    repeat case_bool_decide;
    (destruct tb as [b|]; [destruct (Py.truthy_str b)|]); reflexivity.
Qed.

(** The rows in processing are at most the threads past their first
    commit, as long as each of them is held by such a thread. *)
Lemma count_processing_le jobs p :
  inv jobs p →
  (∀ id j, jobs !! id = Some j → j_status j = processing → id ∈ encoding_jobs p) →
  (size (filter (λ kj : string * job, j_status kj.2 = processing) jobs)
   ≤ length (running p))%nat.
Proof.
  intros Hinv Hheld.
  rewrite <- (size_dom (D := gset string)).
  transitivity (size (list_to_set (C := gset string) (encoding_jobs p))).
  - apply subseteq_size. intros id [j Hj]%elem_of_dom.
    apply map_lookup_filter_Some in Hj as [Hj Hst].
    apply elem_of_list_to_set. by eapply Hheld.
  - rewrite size_list_to_set; [apply length_omap_le|].
    pose proof (inv_nodup _ _ Hinv) as Hnd. unfold pool_job_ids in Hnd.
    apply NoDup_app in Hnd as (_ & _ & Hnd).
    eapply sublist_NoDup; [exact Hnd|apply encoding_ids_sublist].
Qed.

(** X2. In every state of the service the pool runs at most four tasks,
    no two tasks of the pool are for the same job, and a task and the row
    of its job (when the row is there) agree: the row of a task that
    waits in the queue is queued, the row of a task whose thread is past
    its first commit is processing, the task carries the row's target
    format, resolution and bitrate, and its output path is the
    transcoded folder joined with the row's result file name. When no
    row is stale (in processing with no thread on it), the rows in
    processing are at most the running tasks. *)
Theorem pool_tasks_and_rows w :
  reachable w →
  (length (running (executor w)) ≤ 4)%nat ∧
  NoDup (pool_job_ids (executor w)) ∧
  (∀ t id j,
     t ∈ backlog (executor w) → task_job_id t = Some id →
     transcoding_jobs (store w) !! id = Some j → j_status j = queued) ∧
  (∀ t st id j,
     Encoding t st ∈ running (executor w) → task_job_id t = Some id →
     transcoding_jobs (store w) !! id = Some j → j_status j = processing) ∧
  (∀ inp out tf tr tb id j,
     pool_task (executor w) (Transcode inp out tf tr tb id) →
     transcoding_jobs (store w) !! id = Some j →
     tf = Some (j_target_format j) ∧ tr = j_target_resolution j ∧
     tb = j_target_bitrate j ∧
     ∃ name, j_result_filename j = Some name ∧
             out = Py.path_join TRANSCODED_FOLDER name) ∧
  ((∀ id, ¬ stale w id) →
   (count_status processing (store w) ≤ length (running (executor w)))%nat).
Proof.
  intros Hreach. pose proof (reachable_inv _ Hreach) as Hinv. unfold world_inv in Hinv.
  split_and!.
  - apply (inv_capacity _ _ Hinv).
  - apply (inv_nodup _ _ Hinv).
  - apply (inv_backlog _ _ Hinv).
  - apply (inv_encoding _ _ Hinv).
  - intros inp out tf tr tb id j Hin Hj.
    destruct (inv_matches _ _ Hinv _ _ _ Hin eq_refl Hj) as (? & ? & ? & Hname & Hout).
    split_and!; [done..|]. eauto.
  - intros Hnone. apply count_processing_le; [done|].
    intros id j Hj Hst.
    destruct (decide (id ∈ encoding_jobs (executor w))) as [|Hnot]; [done|].
    destruct (Hnone id). split; [eauto|done].
Qed.

(** X2 on the sample world in which the job is being encoded. *)
Lemma pool_tasks_and_rows_witness :
  (length (running (executor Scenario.w3)) ≤ 4)%nat ∧
  NoDup (pool_job_ids (executor Scenario.w3)) ∧
  (∀ t st id j,
     Encoding t st ∈ running (executor Scenario.w3) → task_job_id t = Some id →
     transcoding_jobs (store Scenario.w3) !! id = Some j → j_status j = processing).
Proof.
  destruct (pool_tasks_and_rows Scenario.w3 scenario_w3_reachable)
    as (Hcap & Hnd & _ & Henc & _).
  exact (conj Hcap (conj Hnd Henc)).
Defined.

(** ** Rows in processing that no thread holds *)

Lemma encoding_jobs_cut (l1 l2 : list worker) wk :
  omap encoding_job_id (l1 ++ wk :: l2)
  = omap encoding_job_id l1 ++ from_option (λ id, [id]) [] (encoding_job_id wk)
    ++ omap encoding_job_id l2.
Proof.
  rewrite omap_app. simpl. by destruct (encoding_job_id wk).
Qed.

Lemma encoding_jobs_app (l1 l2 : list worker) :
  omap encoding_job_id (l1 ++ l2) = omap encoding_job_id l1 ++ omap encoding_job_id l2.
Proof. apply omap_app. Qed.





(** A stale row is out of reach of every thread: an effect leaves it as
    it is, or deletes it. *)
Lemma effect_stale_kept jobs p jobs' p' id j :
  inv jobs p → effect jobs p jobs' p' →
  jobs !! id = Some j → j_status j = processing → id ∉ encoding_jobs p →
  (jobs' !! id = Some j ∧ id ∉ encoding_jobs p') ∨ jobs' !! id = None.
Proof.
  intros Hinv Heff Hj Hst Hnot.
  assert (∀ r1 wk r2, running p = r1 ++ wk :: r2 → wk ∈ running p) as Hmid.
  { intros r1 wk r2 ->. apply elem_of_app. right. left. }
  assert (∀ r1 t r2 id0,
            running p = r1 ++ Started t :: r2 → task_job_id t = Some id0 → id0 ≠ id)
    as Hstarted.
  { intros r1 t r2 id0 Hr Ht ->.
    pose proof (inv_started _ _ Hinv t id j (Hmid _ _ _ Hr) Ht Hj). congruence. }
  assert (∀ r1 t st r2 id0,
            running p = r1 ++ Encoding t st :: r2 → task_job_id t = Some id0 → id0 ≠ id)
    as Hencoding.
  { intros r1 t st r2 id0 Hr Ht ->. apply Hnot.
    eapply elem_of_encoding_ids; [by eapply Hmid|done]. }
  assert (∀ r1 wk r2, running p = r1 ++ wk :: r2 →
                      id ∉ omap encoding_job_id (r1 ++ r2)) as Hless.
  { intros r1 wk r2 Hr Hin. apply Hnot. unfold encoding_jobs. rewrite Hr.
    eapply elem_of_sublist; [exact Hin|]. apply omap_sublist, sublist_middle. }
  destruct Heff
    as [|id0 j0 Hnone Hq Hok|t|video_id|t ts Hbl Hfree
       |r1 t r2 id0 now st Hr Ht|r1 t r2 id0 e Hr Ht|r1 wk r2 Hr
       |r1 t st r2 id0 e Hr Ht|r1 t st r2 id0 now pt Hr Ht|];
    unfold encoding_jobs in *; simpl in *.
  - by left.
  - left. split; [|done]. rewrite lookup_insert_ne; [done|]. intros ->. congruence.
  - by left.
  - destruct (decide (j_video_id j = video_id)) as [Hvid|Hvid].
    + right. apply map_lookup_filter_None. right. intros j1 Hj1. simpl.
      rewrite Hj in Hj1. injection Hj1 as <-. tauto.
    + left. split; [|done]. by apply map_lookup_filter_Some.
  - left. split; [done|]. rewrite encoding_jobs_app. simpl.
    by rewrite app_nil_r.
  - left. pose proof (Hstarted _ _ _ _ Hr Ht) as Hneq.
    split; [by rewrite lookup_alter_ne|].
    rewrite encoding_jobs_cut. simpl. rewrite Ht. simpl.
    rewrite Hr, encoding_jobs_cut in Hnot. simpl in Hnot.
    intros [Hin|[Hin|Hin]%elem_of_cons]%elem_of_app; [|done|].
    + apply Hnot, elem_of_app. by left.
    + apply Hnot, elem_of_app. by right.
  - left. pose proof (Hstarted _ _ _ _ Hr Ht) as Hneq.
    split; [by rewrite lookup_alter_ne|]. by eapply Hless.
  - left. split; [done|]. by eapply Hless.
  - left. pose proof (Hencoding _ _ _ _ _ Hr Ht) as Hneq.
    split; [by rewrite lookup_alter_ne|]. by eapply Hless.
  - left. pose proof (Hencoding _ _ _ _ _ Hr Ht) as Hneq.
    split; [by rewrite lookup_alter_ne|]. by eapply Hless.
  - left. split; [done|]. apply not_elem_of_nil.
Qed.

(** X24. Nothing moves a stale row. Take a state of the service with a
    row in processing that no thread past its first commit holds, and any
    schedule from there: requests, pool threads, a stop of the process.
    At its end the row is still there, unchanged and held by no thread,
    unless the row was deleted on the way (with its video). No part of
    the code looks for such rows: the row is reported as processing for
    as long as it exists. *)
Theorem stale_job_stays_processing actions s s' id j :
  reachable_service s →
  transcoding_jobs (store (state s)) !! id = Some j →
  j_status j = processing →
  id ∉ encoding_jobs (executor (state s)) →
  run actions s = Some s' →
  (transcoding_jobs (store (state s')) !! id = Some j ∧
   id ∉ encoding_jobs (executor (state s'))) ∨
  (∃ before after s1,
     actions = before ++ after ∧ run before s = Some s1 ∧
     transcoding_jobs (store (state s1)) !! id = None).
Proof.
  revert s. induction actions as [|a actions IH]; intros s Hreach Hj Hst Hnot; simpl.
  - intros [= <-]. by left.
  - destruct (act a s) as [s1|] eqn:Hact; [|done]. intros Hrun.
    pose proof (service_inv_world _ (reachable_service_inv _ Hreach)) as Hinv.
    destruct (effect_stale_kept _ _ _ _ id j Hinv (act_effect _ _ _ Hact) Hj Hst Hnot)
      as [[Hj1 Hnot1]|Hnone].
    + destruct (IH s1 (reachable_act _ _ _ Hreach Hact) Hj1 Hst Hnot1 Hrun)
        as [?|(before & after & s2 & -> & Hbefore & Hnone)]; [by left|].
      right. exists (a :: before), after, s2. split; [done|].
      split; [|done]. simpl. by rewrite Hact.
    + right. exists [a], actions, s1. split; [done|].
      split; [|done]. simpl. by rewrite Hact.
Qed.

(** X24 after the five submissions of [Scenario.five_jobs]: the thread
    of job-1 ends its run and the process stops; the row of job-0 is as
    it was. *)
Lemma stale_job_stays_processing_witness :
  ∃ s' j,
    run [WorkerEnd 0 (λ _, inr {| returncode := 0; stderr := "" |}) (inr (110, 9)) None;
         Crash] Scenario.after_five_jobs = Some s' ∧
    transcoding_jobs (store (state Scenario.after_five_jobs)) !! "job-0" = Some j ∧
    j_status j = processing ∧
    ((transcoding_jobs (store (state s')) !! "job-0" = Some j ∧
      "job-0" ∉ encoding_jobs (executor (state s'))) ∨
     (∃ before after s1,
        [WorkerEnd 0 (λ _, inr {| returncode := 0; stderr := "" |}) (inr (110, 9)) None;
         Crash] = before ++ after ∧
        run before Scenario.after_five_jobs = Some s1 ∧
        transcoding_jobs (store (state s1)) !! "job-0" = None)).
Proof.
  eexists _, _. split; [vm_compute; reflexivity|].
  split; [vm_compute; reflexivity|]. split; [reflexivity|].
  apply stale_job_stays_processing.
  - apply (run_reachable Scenario.five_jobs (start Scenario.videos0));
      [apply reachable_start|]. vm_compute. reflexivity.
  - vm_compute. reflexivity.
  - reflexivity.
  - vm_compute. intros Hin. repeat (apply elem_of_cons in Hin as [Hin|Hin]; [discriminate|]).
    by apply elem_of_nil in Hin.
  - vm_compute. reflexivity.
Defined.

(** ** A deletion between the SELECT and the INSERT of a submission *)

Lemma insert_job_queued_row now job_id uid video_id fmt tr tb d :
  transcoding_jobs d !! job_id = None →
  insert_job now job_id uid video_id (Some fmt) tr tb
             (make_result_filename job_id (Some fmt) tr) d
  = inr {| videos := videos d;
           transcoding_jobs :=
             <[job_id := queued_row now uid video_id fmt tr tb job_id]>
               (transcoding_jobs d) |}.
Proof. intros H. unfold insert_job. by rewrite H. Qed.

Lemma run_step a actions s s1 :
  act a s = Some s1 → run (a :: actions) s = run actions s1.
Proof. intros H. simpl. by rewrite H. Qed.

Lemma lookup_snoc {A} (l : list A) x : (l ++ [x]) !! length l = Some x.
Proof. by apply list_lookup_middle. Qed.

Lemma delete_snoc {A} (l : list A) x : delete (length l) (l ++ [x]) = l.
Proof. rewrite delete_middle. apply app_nil_r. Qed.

Lemma insert_snoc {A} (l : list A) x y : <[length l := y]> (l ++ [x]) = l ++ [y].
Proof.
  rewrite insert_app_r_alt by lia. by rewrite Nat.sub_diag.
Qed.

Lemma uncommitted_snoc rs r :
  uncommitted_id r = None → uncommitted (rs ++ [r]) = uncommitted rs.
Proof.
  intros Hr. unfold uncommitted. rewrite omap_app. simpl. rewrite Hr. apply app_nil_r.
Qed.

Lemma pending_snoc rs r :
  pending_task r = None → pending (rs ++ [r]) = pending rs.
Proof.
  intros Hr. unfold pending. rewrite omap_app. simpl. rewrite Hr. apply app_nil_r.
Qed.

(** X1. A submission does not hold on to the video it has checked. The
    view reads the row of the video and inserts the job in two
    statements of its own, the store enforces no foreign key, and
    another request can commit in between. Whatever else the service is
    doing: when a request to transcode a video has passed its check, a
    request that deletes the video is served in full, and the first
    request goes on, then the job is inserted and its task handed to the
    pool all the same: the store has a queued job for a video that has
    no row, and the pool a task that reads the deleted video's file. *)
Theorem delete_between_check_and_insert
    s uid role video_id data v uid' role' v' now uuid4 :
  field_ok (b_target_format data) valid_formats →
  field_ok (b_target_resolution data) valid_resolutions →
  select_video (store (state s)) role uid video_id = Some v →
  select_video (store (state s)) role' uid' video_id = Some v' →
  write_locked (serving s) = false →
  transcoding_jobs (store (state s)) !! uuid4 = None →
  fresh_uuid uuid4 s →
  let n := length (serving s) in
  let tf := default (Some "h264") (b_target_format data) in
  let tr := default (Some "720p") (b_target_resolution data) in
  let tb := default (Some "2M") (b_target_bitrate data) in
  ∃ s' j,
    run [TranscodeCheck uid role video_id data;
         DeleteCheck uid' role' video_id; DeleteCommit (S n);
         TranscodeInsert n now uuid4; TranscodeSubmit n] s = Some s' ∧
    serving s' = serving s ∧
    videos (store (state s')) !! video_id = None ∧
    transcoding_jobs (store (state s')) !! uuid4 = Some j ∧
    j_video_id j = video_id ∧ j_user_id j = uid ∧ j_status j = queued ∧
    backlog (executor (state s'))
    = backlog (executor (state s)) ++ [transcode_task v tf tr tb uuid4].
Proof.
  intros Hf Hr Hv Hv' Hlock Hnone Hfresh n tf tr tb.
  assert (py_in tf valid_formats = true) as Vfmt.
  { subst tf. destruct (b_target_format data) as [[f|]|]; simpl in *; eauto. }
  assert (∃ fmt, tf = Some fmt) as [fmt Efmt].
  { destruct tf; [eauto|discriminate]. }
  assert (py_in tr valid_resolutions = true) as Vres.
  { subst tr. destruct (b_target_resolution data) as [[r|]|]; simpl in *; eauto. }
  destruct s as [w rs]. cbn [state serving] in *.
  set (c := Checked uid video_id tf tr tb v).
  assert (write_locked (rs ++ [c]) = false) as Hlock1.
  { unfold write_locked. by rewrite uncommitted_snoc. }
  assert (write_locked ((rs ++ [c]) ++ [Deleting video_id]) = false) as Hlock2.
  { unfold write_locked. rewrite uncommitted_snoc by done. exact Hlock1. }
  set (d1 := {| videos := delete video_id (videos (store w));
                transcoding_jobs := filter (λ kj : string * job, j_video_id kj.2 ≠ video_id)
                                           (transcoding_jobs (store w)) |}).
  assert (transcoding_jobs d1 !! uuid4 = None) as Hnone1.
  { apply map_lookup_filter_None. by left. }
  set (s1 := {| state := w; serving := rs ++ [c] |}).
  set (s2 := {| state := w; serving := (rs ++ [c]) ++ [Deleting video_id] |}).
  set (s3 := {| state := {| store := d1; executor := executor w |};
                serving := rs ++ [c] |}).
  set (d2 := {| videos := videos d1;
                transcoding_jobs :=
                  <[uuid4 := queued_row now uid video_id fmt tr tb uuid4]>
                    (transcoding_jobs d1) |}).
  set (s4 := {| state := {| store := d2; executor := executor w |};
                serving := rs ++ [Inserted (transcode_task v tf tr tb uuid4)] |}).
  set (s5 := {| state := {| store := d2;
                            executor := executor_submit (transcode_task v tf tr tb uuid4)
                                                        (executor w) |};
                serving := rs |}).
  assert (act (TranscodeCheck uid role video_id data) {| state := w; serving := rs |}
          = Some s1) as H1.
  { unfold act. cbn [state serving]. fold tf tr tb.
    rewrite Vfmt, Vres. cbn [negb]. by rewrite Hv. }
  assert (act (DeleteCheck uid' role' video_id) s1 = Some s2) as H2.
  { unfold act, s1. cbn [state serving]. by rewrite Hv'. }
  assert (act (DeleteCommit (S n)) s2 = Some s3) as H3.
  { unfold act, s2. cbn [state serving].
    replace (S n) with (length (rs ++ [c])) by (rewrite length_app; simpl; lia).
    by rewrite lookup_snoc, Hlock2, delete_snoc. }
  assert (act (TranscodeInsert n now uuid4) s3 = Some s4) as H4.
  { unfold act, s3. cbn [state serving store executor].
    subst n. rewrite lookup_snoc. unfold c at 1. rewrite Hlock1.
    rewrite decide_True; last first.
    { unfold fresh_uuid, ids_in_use in *. cbn [state serving executor] in *.
      by rewrite pending_snoc, uncommitted_snoc. }
    rewrite Efmt, (insert_job_queued_row now uuid4 uid video_id fmt tr tb d1 Hnone1).
    rewrite insert_snoc. unfold s4, d2. by rewrite Efmt. }
  assert (act (TranscodeSubmit n) s4 = Some s5) as H5.
  { unfold act, s4. cbn [state serving store executor].
    subst n. by rewrite lookup_snoc, delete_snoc. }
  exists s5, (queued_row now uid video_id fmt tr tb uuid4).
  split.
  { by rewrite (run_step _ _ _ _ H1), (run_step _ _ _ _ H2), (run_step _ _ _ _ H3),
               (run_step _ _ _ _ H4), (run_step _ _ _ _ H5). }
  simpl. split; [done|]. split; [apply lookup_delete_eq|].
  split; [apply lookup_insert_eq|]. done.
Qed.

(** X1 at the sample store: user 3 submits "v1" and deletes it in
    between. *)
Lemma delete_between_check_and_insert_witness :
  ∃ s' j,
    run Scenario.delete_in_between (start Scenario.videos0) = Some s' ∧
    videos (store (state s')) !! "v1" = None ∧
    transcoding_jobs (store (state s')) !! "job-0" = Some j ∧
    j_video_id j = "v1" ∧ j_status j = queued ∧
    backlog (executor (state s')) = [Scenario.task0].
Proof.
  destruct (delete_between_check_and_insert (start Scenario.videos0)
              3 "user" "v1" Scenario.no_target
              {| v_user_id := 3; v_filename := "a.mp4" |} 3 "user"
              {| v_user_id := 3; v_filename := "a.mp4" |} 0 "job-0")
    as (s' & j & Hrun & _ & Hvid & Hj & Hjv & _ & Hst & Hbl).
  - exact I.
  - exact I.
  - reflexivity.
  - reflexivity.
  - reflexivity.
  - reflexivity.
  - apply not_elem_of_nil.
  - exists s', j. split; [exact Hrun|]. split; [exact Hvid|].
    split; [exact Hj|]. split; [exact Hjv|]. split; [exact Hst|exact Hbl].
Defined.

(** ** From the engine's output to the download *)

(** X3. The path the download view hands to [send_file] is the path the
    engine was told to write. In a state of the service in which a
    thread is encoding a job whose row exists, the invocation ends with
    the task's output path, and this path is the transcoded folder
    joined with the row's result file name; when the engine exits with
    code 0 and the last commit goes through, the row is completed and
    the download view, asked by the owner, tests [os.path.exists] on
    that very path and returns [send_file] on it. (Both paths are
    relative; which directory each call reads them from is outside the
    view.) *)
Theorem download_serves_engine_output w r1 r2 inp out tf tr tb id st j
    engine process t now handler path_exists :
  reachable w →
  running (executor w) = r1 ++ Encoding (Transcode inp out tf tr tb id) st :: r2 →
  transcoding_jobs (store w) !! id = Some j →
  let cmd := build_cmd inp out (j_target_format j) tr tb in
  engine cmd = inr process →
  returncode process = 0 →
  path_exists out = true →
  let w' := {| store := worker_end engine (inr (t, now)) handler inp out tf tr tb id st
                                   (store w);
               executor := {| backlog := backlog (executor w); running := r1 ++ r2 |} |} in
  step w w' ∧
  last cmd = Some out ∧
  (∃ name, j_result_filename j = Some name ∧
           out = Py.path_join TRANSCODED_FOLDER name) ∧
  (∃ j', transcoding_jobs (store w') !! id = Some j' ∧ j_status j' = completed ∧
         j_result_filename j' = j_result_filename j) ∧
  download_transcoded_video path_exists (j_user_id j) "user" id w' = (SendFile out, w').
Proof.
  intros Hreach Hr Hj cmd Hengine Hrc Hexists w'.
  pose proof (reachable_inv _ Hreach) as Hinv.
  assert (pool_task (executor w) (Transcode inp out tf tr tb id)) as Hin.
  { right. rewrite Hr, fmap_app, fmap_cons. apply elem_of_app. right. by left. }
  destruct (inv_matches _ _ Hinv _ _ _ Hin eq_refl Hj) as (Htf & -> & -> & Hname & Hout).
  assert (worker_end engine (inr (t, now)) handler inp out tf (j_target_resolution j)
                     (j_target_bitrate j) id st (store w)
          = update_job id (set_completed now (t - st)) (store w)) as Hend.
  { unfold worker_end, try_end. rewrite Htf. fold cmd.
    by rewrite Hengine, bool_decide_true. }
  split_and!.
  - exists [], (WorkerEnd (length r1) engine (inr (t, now)) handler), [].
    unfold act. cbn [state serving write_locked uncommitted omap andb].
    rewrite Hr, list_lookup_middle by done. by rewrite delete_middle.
  - apply build_cmd_ends.
  - eauto.
  - subst w'. cbn [store]. rewrite Hend, update_job_lookup_eq, Hj. simpl. eauto.
  - subst w'. unfold download_transcoded_video, select_completed_result, select_job.
    cbn [store]. rewrite Hend, update_job_lookup_eq, Hj. simpl.
    rewrite bool_decide_true by done. simpl.
    rewrite Hname, Htf, truthy_make_result_filename, <- Htf, <- Hout, Hexists. done.
Qed.

(** X3 on the sample job: the engine of Scenario A succeeds. *)
Lemma download_serves_engine_output_witness :
  ∃ w',
    step Scenario.w3 w' ∧
    download_transcoded_video (λ _, true) 3 "user" "job-0" w'
    = (SendFile "transcoded/job-0_h264_720p.mp4", w').
Proof.
  destruct (download_serves_engine_output Scenario.w3 [] []
              "uploads/a.mp4" "transcoded/job-0_h264_720p.mp4"
              (Some "h264") (Some "720p") (Some "2M") "job-0" 100
              (set_processing 1 Scenario.job0)
              (λ _, inr {| returncode := 0; stderr := "" |})
              {| returncode := 0; stderr := "" |} 107 2 None (λ _, true))
    as (Hstep & _ & _ & _ & Hdl).
  - exact scenario_w3_reachable.
  - reflexivity.
  - by vm_compute.
  - reflexivity.
  - reflexivity.
  - reflexivity.
  - eexists. split; [exact Hstep|exact Hdl].
Defined.

(** ** What a step leaves alone *)

Lemma same_identity_refl j : same_identity j j.
Proof. by repeat split. Qed.

Lemma effect_identity jobs p jobs' p' :
  effect jobs p jobs' p' →
  ∀ id j j', jobs !! id = Some j → jobs' !! id = Some j' → same_identity j j'.
Proof.
  intros Heff id' j j' Hj.
  assert (∀ id f, is_update f → alter f id jobs !! id' = Some j' → same_identity j j')
    as Halter.
  { intros id f Hf. destruct (decide (id = id')) as [->|Hne].
    - rewrite lookup_alter_eq, Hj. intros [= <-]. by apply is_update_identity.
    - rewrite lookup_alter_ne, Hj by done. intros [= <-]. apply same_identity_refl. }
  destruct Heff
    as [|id j0 Hnone Hq Hok|t|video_id|t ts Hbl Hfree
       |r1 t r2 id now st Hr Ht|r1 t r2 id e Hr Ht|r1 wk r2 Hr
       |r1 t st r2 id e Hr Ht|r1 t st r2 id now pt Hr Ht|];
    try (rewrite Hj; intros [= <-]; apply same_identity_refl).
  - destruct (decide (id = id')) as [<-|Hne]; [congruence|].
    rewrite lookup_insert_ne, Hj by done. intros [= <-]. apply same_identity_refl.
  - intros [Hj' _]%map_lookup_filter_Some. rewrite Hj in Hj'. injection Hj' as <-.
    apply same_identity_refl.
  - apply Halter. left. eauto.
  - apply Halter. right. left. eauto.
  - apply Halter. right. left. eauto.
  - apply Halter. right. right. eauto.
Qed.

(** X4. No step of the system rewrites what identifies a job: the owner,
    the video, the target format, resolution and bitrate, the result file
    name and the creation time of a row are the same before and after. *)
Theorem step_keeps_identity w w' id j j' :
  step w w' →
  transcoding_jobs (store w) !! id = Some j →
  transcoding_jobs (store w') !! id = Some j' →
  same_identity j j'.
Proof. intros Hstep. eapply effect_identity. by apply step_effect. Qed.

Lemma step_keeps_identity_witness :
  same_identity Scenario.job0 (set_processing 1 Scenario.job0).
Proof.
  apply (step_keeps_identity Scenario.w2 Scenario.w3 "job-0" _ _ scenario_w2_w3).
  - by vm_compute.
  - by vm_compute.
Defined.

(** X5. Progress is coarse and monotone: in every state of the system a
    row's progress is 100 when its status is completed and 0 otherwise,
    and no step makes it smaller. *)
Theorem progress_never_decreases w w' id j j' :
  reachable w → step w w' →
  transcoding_jobs (store w) !! id = Some j →
  transcoding_jobs (store w') !! id = Some j' →
  j_progress j = (if bool_decide (j_status j = completed) then 100 else 0) ∧
  j_progress j' = (if bool_decide (j_status j' = completed) then 100 else 0) ∧
  j_progress j ≤ j_progress j'.
Proof.
  intros Hreach Hstep Hj Hj'.
  pose proof (reachable_inv _ Hreach) as Hinv.
  pose proof (step_effect _ _ Hstep) as Heff.
  destruct (inv_rows _ _ Hinv _ _ Hj) as (_ & _ & _ & _ & _ & Hp).
  destruct (effect_rows _ _ _ _ Hinv Heff _ _ Hj') as (_ & _ & _ & _ & _ & Hp').
  pose proof (effect_transition _ _ _ _ Hinv Heff _ _ _ Hj Hj') as Htr.
  split_and!; [done..|]. rewrite Hp, Hp'.
  destruct (j_status j), (j_status j'); simpl in *; try done;
    repeat case_bool_decide; done || lia.
Qed.

Lemma progress_never_decreases_witness :
  j_progress Scenario.job0 ≤ j_progress (set_processing 1 Scenario.job0).
Proof.
  refine (proj2 (proj2 (progress_never_decreases Scenario.w2 Scenario.w3 "job-0" _ _
                          scenario_w2_reachable scenario_w2_w3 _ _))).
  - by vm_compute.
  - by vm_compute.
Defined.

(** ** Deleting a video *)

Lemma update_job_missing id f d :
  transcoding_jobs d !! id = None → update_job id f d = d.
Proof.
  intros Hnone. unfold update_job. rewrite alter_id' by done. by destruct d.
Qed.

Lemma run_on_missing_row ev inp out tf tr tb id d :
  transcoding_jobs d !! id = None →
  transcode_video_cpu_intensive ev inp out tf tr tb id d = d.
Proof.
  intros Hnone. unfold transcode_video_cpu_intensive, worker_begin, on_exception.
  destruct (ev_begin ev) as [e|[now t0]].
  { destruct (ev_handler ev); [done|by apply update_job_missing]. }
  rewrite (update_job_missing id (set_processing now)) by done.
  destruct (worker_end_cases (ev_engine ev) (ev_end ev) (ev_handler ev)
                             inp out tf tr tb id t0 d)
    as [->|[(e & ->)|(now' & pt & ->)]]; [done|by apply update_job_missing..].
Qed.
(** X6. Deleting a video that the requester may delete removes its row
    and exactly the job rows of that video, and leaves the pool alone;
    from then on the job view and the download view answer 404 for each
    of those jobs, and a worker run that is still to come for such a job
    writes nothing: the row does not come back. *)
Theorem delete_video_removes_jobs uid role video_id w v :
  select_video (store w) role uid video_id = Some v →
  let w' := (delete_video uid role video_id w).2 in
  (delete_video uid role video_id w).1 = Message 200 "Video deleted successfully" ∧
  videos (store w') !! video_id = None ∧
  executor w' = executor w ∧
  (∀ id j, transcoding_jobs (store w') !! id = Some j ↔
           transcoding_jobs (store w) !! id = Some j ∧ j_video_id j ≠ video_id) ∧
  (∀ id j, transcoding_jobs (store w) !! id = Some j → j_video_id j = video_id →
     transcoding_jobs (store w') !! id = None ∧
     (∀ uid' role', (get_transcoding_job uid' role' id w').1
                    = Message 404 "Job not found") ∧
     (∀ path_exists uid' role',
        (download_transcoded_video path_exists uid' role' id w').1
        = Message 404 "Transcoded video not found") ∧
     (∀ ev inp out tf tr tb,
        transcode_video_cpu_intensive ev inp out tf tr tb id (store w') = store w')).
Proof.
  intros Hv w'. subst w'. unfold delete_video. rewrite Hv. simpl.
  split_and!; try done.
  - apply lookup_delete_eq.
  - intros id j. apply map_lookup_filter_Some.
  - intros id j Hj Hvid.
    assert (filter (λ kj : string * job, j_video_id kj.2 ≠ video_id)
                   (transcoding_jobs (store w)) !! id = None) as Hnone.
    { apply map_lookup_filter_None. right. intros j' Hj'. simpl.
      rewrite Hj in Hj'. injection Hj' as <-. tauto. }
    split_and!; [done|..].
    + intros uid' role'. unfold get_transcoding_job, select_job. simpl.
      rewrite Hnone. by case_bool_decide.
    + intros path_exists uid' role'.
      unfold download_transcoded_video, select_completed_result, select_job. simpl.
      rewrite Hnone. by case_bool_decide.
    + intros. by apply run_on_missing_row.
Qed.

(** X6 on the sample store: user 3 deletes "v1" while its job waits. *)
Lemma delete_video_removes_jobs_witness :
  (delete_video 3 "user" "v1" Scenario.w1).1 = Message 200 "Video deleted successfully" ∧
  videos (store (delete_video 3 "user" "v1" Scenario.w1).2) !! "v1" = None ∧
  transcoding_jobs (store (delete_video 3 "user" "v1" Scenario.w1).2) !! "job-0" = None.
Proof.
  destruct (delete_video_removes_jobs 3 "user" "v1" Scenario.w1
              {| v_user_id := 3; v_filename := "a.mp4" |} eq_refl)
    as (Hresp & Hvid & _ & _ & Hjobs).
  split; [exact Hresp|]. split; [exact Hvid|].
  exact (proj1 (Hjobs "job-0" Scenario.job0 eq_refl eq_refl)).
Defined.

(** ** Names of uploaded files *)

Lemma rsplit_dot_cons c s :
  rsplit_dot (String c s)
  = match rsplit_dot s with
    | [head; tail] => [String c head; tail]
    | _ => if bool_decide (c = "."%char) then [""; s] else [String c s]
    end.
Proof. reflexivity. Qed.

Lemma rsplit_dot_no_dot s : has_dot s = false → rsplit_dot s = [s].
Proof.
  induction s as [|c s IH]; [done|]. rewrite rsplit_dot_cons. simpl.
  intros [Hc Hs]%orb_false_elim. rewrite (IH Hs), Hc. done.
Qed.

Lemma rsplit_dot_last head tail :
  has_dot tail = false → rsplit_dot (head +:+ "." +:+ tail) = [head; tail].
Proof.
  intros Ht. induction head as [|c head IH].
  - change ("" +:+ "." +:+ tail) with (String "."%char tail).
    by rewrite rsplit_dot_cons, (rsplit_dot_no_dot _ Ht).
  - change (String c head +:+ "." +:+ tail) with (String c (head +:+ "." +:+ tail)).
    by rewrite rsplit_dot_cons, IH.
Qed.

Lemma has_dot_app a b : has_dot (a +:+ b) = (has_dot a || has_dot b)%bool.
Proof. induction a as [|c a IH]; simpl; [done|]. rewrite IH. by rewrite orb_assoc. Qed.

(** A text with a dot is its head, a dot, and a dot-free tail. *)
Lemma rsplit_dot_has_dot s :
  has_dot s = true →
  ∃ head tail, rsplit_dot s = [head; tail] ∧ has_dot tail = false ∧
               s = head +:+ "." +:+ tail.
Proof.
  induction s as [|c s IH]; [done|]. rewrite rsplit_dot_cons. simpl.
  destruct (has_dot s) eqn:Hs.
  - destruct (IH eq_refl) as (head & tail & -> & Ht & ->). intros _.
    exists (String c head), tail. done.
  - rewrite orb_false_r. intros Hc. rewrite (rsplit_dot_no_dot _ Hs), Hc.
    apply bool_decide_eq_true in Hc as ->. by exists "", s.
Qed.

Lemma lower_ascii_dot c : Py.lower_ascii c = "."%char ↔ c = "."%char.
Proof.
  destruct c as [[] [] [] [] [] [] [] []]; vm_compute; split; congruence.
Qed.

Lemma lower_ascii_idemp c : Py.lower_ascii (Py.lower_ascii c) = Py.lower_ascii c.
Proof. destruct c as [[] [] [] [] [] [] [] []]; reflexivity. Qed.

Lemma lower_idemp s : Py.lower (Py.lower s) = Py.lower s.
Proof. induction s as [|c s IH]; simpl; [done|]. by rewrite lower_ascii_idemp, IH. Qed.

Lemma has_dot_lower s : has_dot (Py.lower s) = has_dot s.
Proof.
  induction s as [|c s IH]; simpl; [done|]. rewrite IH. f_equal.
  apply bool_decide_ext, lower_ascii_dot.
Qed.

(** X7. Only the text after the last dot of a file name decides, and it
    is compared without regard to case: a name [head.tail] with a
    dot-free ASCII tail is allowed exactly when the lower-cased tail is
    one of the eight extensions, a name without a dot is refused, and an
    ASCII name has the verdict of its lower-cased form. *)
Theorem allowed_video_file_last_extension :
  (∀ head tail,
     ascii_only tail = true →
     has_dot tail = false →
     allowed_video_file (head +:+ "." +:+ tail)
     = bool_decide (Py.lower tail ∈ ALLOWED_EXTENSIONS)) ∧
  (∀ name, has_dot name = false → allowed_video_file name = false) ∧
  (∀ name, ascii_only name = true →
           allowed_video_file name = allowed_video_file (Py.lower name)).
Proof.
  split_and!.
  - intros head tail _ Ht. unfold allowed_video_file.
    rewrite has_dot_app. simpl. rewrite orb_true_r.
    by rewrite (rsplit_dot_last _ _ Ht).
  - intros name Hn. unfold allowed_video_file. by rewrite Hn.
  - intros name _. unfold allowed_video_file. rewrite has_dot_lower.
    destruct (has_dot name) eqn:Hd; [|done].
    destruct (rsplit_dot_has_dot _ Hd) as (head & tail & -> & Ht & ->).
    assert (Py.lower (head +:+ "." +:+ tail)
            = Py.lower head +:+ "." +:+ Py.lower tail) as ->.
    { clear. induction head as [|c head IH]; simpl; [done|]. by rewrite IH. }
    rewrite rsplit_dot_last by (by rewrite has_dot_lower).
    simpl. by rewrite lower_idemp.
Qed.

(** X8. The name under which an upload is stored. [upload_video]
    checks the name as sent and builds the stored name from
    [secure_filename] of it. For a name that [allowed_video_file]
    accepts: when the name is ASCII and [secure_filename] leaves it as
    it is, the stored name is the identifier drawn, a dot and the
    lower-cased extension, and [allowed_video_file] accepts it too;
    when [secure_filename] returns a name without a dot (it strips
    leading dots), [generate_unique_filename] raises IndexError, so the
    accepted upload ends in an error and not in a stored file. Nothing
    else is assumed of [secure_filename]. *)
Theorem upload_filename_allowed secure_filename uuid4 filename :
  allowed_video_file filename = true →
  (ascii_only filename = true → secure_filename filename = filename →
   ∃ head tail,
     filename = head +:+ "." +:+ tail ∧
     upload_filename secure_filename uuid4 filename
     = Some (inr (uuid4 +:+ "." +:+ Py.lower tail)) ∧
     allowed_video_file (uuid4 +:+ "." +:+ Py.lower tail) = true) ∧
  (has_dot (secure_filename filename) = false →
   upload_filename secure_filename uuid4 filename
   = Some (inl "list index out of range")).
Proof.
  intros Hallowed. unfold upload_filename. rewrite Hallowed. split.
  - intros _ ->. revert Hallowed.
    unfold allowed_video_file, generate_unique_filename.
    destruct (has_dot filename) eqn:Hd; [|done].
    destruct (rsplit_dot_has_dot _ Hd) as (head & tail & Hsplit & Ht & ->).
    rewrite Hsplit. simpl. intros Hallowed.
    exists head, tail. split_and!; [done..|].
    rewrite has_dot_app. simpl. rewrite orb_true_r.
    rewrite rsplit_dot_last by (by rewrite has_dot_lower).
    simpl. by rewrite lower_idemp.
  - intros Hd. unfold generate_unique_filename. by rewrite (rsplit_dot_no_dot _ Hd).
Qed.

(** X8 on two names: one that [secure_filename] leaves alone, and
    ".mp4", of which a function that strips the leading dot leaves
    "mp4". *)
Lemma upload_filename_allowed_witness :
  (∃ head tail,
     "Holiday.Final.MP4" = head +:+ "." +:+ tail ∧
     upload_filename (λ name, name) "job-0" "Holiday.Final.MP4"
     = Some (inr ("job-0" +:+ "." +:+ Py.lower tail)) ∧
     allowed_video_file ("job-0" +:+ "." +:+ Py.lower tail) = true) ∧
  upload_filename (λ _, "mp4") "job-0" ".mp4" = Some (inl "list index out of range").
Proof.
  split.
  - exact (proj1 (upload_filename_allowed (λ name, name) "job-0" "Holiday.Final.MP4"
                    eq_refl) eq_refl eq_refl).
  - exact (proj2 (upload_filename_allowed (λ _, "mp4") "job-0" ".mp4" eq_refl) eq_refl).
Defined.

(** [generate_unique_filename] on a name without a dot. *)
Lemma generate_unique_filename_no_dot uuid4 name :
  has_dot name = false →
  generate_unique_filename uuid4 name = inl "list index out of range".
Proof.
  intros Hn. unfold generate_unique_filename. by rewrite (rsplit_dot_no_dot _ Hn).
Qed.

(** ** The SQL text of the listing views *)

Lemma sanitize_in (x d : string) (l : list string) :
  d ∈ l → (if bool_decide (x ∈ l) then x else d) ∈ l.
Proof. intros Hd. by case_bool_decide. Qed.

Lemma sort_field_cases x :
  x ∈ valid_sort_fields →
  x = "upload_time" ∨ x = "original_filename" ∨ x = "file_size" ∨ x = "duration".
Proof.
  unfold valid_sort_fields. rewrite !elem_of_cons, elem_of_nil. tauto.
Qed.

Lemma sort_order_cases x : x ∈ valid_sort_orders → x = "ASC" ∨ x = "DESC".
Proof. unfold valid_sort_orders. rewrite !elem_of_cons, elem_of_nil. tauto. Qed.

(** X9. Whatever the request, each statement of the two listing views
    has exactly as many placeholders as the view binds values to it: the
    count statement and the page statement of [get_videos] and of
    [get_transcoding_jobs] never reach the store with a value missing or
    left over. *)
Theorem listing_queries_bind_every_placeholder
    uid role page per_page status_filter sort_by sort_order :
  let qv := get_videos_queries uid role page per_page status_filter sort_by sort_order in
  let qj := get_transcoding_jobs_queries uid role page per_page status_filter in
  count_char "?" (count_query qv) = length (count_params qv) ∧
  count_char "?" (final_query qv) = length (final_params qv) ∧
  count_char "?" (count_query qj) = length (count_params qj) ∧
  count_char "?" (final_query qj) = length (final_params qj).
Proof.
  intros qv qj. subst qv qj.
  unfold get_videos_queries, get_transcoding_jobs_queries.
  pose proof (sanitize_in sort_by "upload_time" valid_sort_fields) as Hs.
  pose proof (sanitize_in sort_order "DESC" valid_sort_orders) as Ho.
  assert ("upload_time" ∈ valid_sort_fields) as Hd1 by (by left).
  assert ("DESC" ∈ valid_sort_orders) as Hd2 by (right; by left).
  destruct (sort_field_cases _ (Hs Hd1)) as [-> | [-> | [-> | ->]]];
    destruct (sort_order_cases _ (Ho Hd2)) as [-> | ->];
    clear Hs Ho Hd1 Hd2;
    case_bool_decide;
    (destruct status_filter as [s|]; [destruct (Py.truthy_str s)|]);
    by vm_compute.
Qed.

(** X10. No text of the request reaches the SQL text of [get_videos].
    The sort column and direction that the statement names are taken
    from the two whitelists (the request's own when it is listed,
    upload_time and DESC otherwise), and the text of both statements is
    the same for every user id, page, page size and status filter value:
    it depends only on whether the requester is an admin and on whether
    a status filter is given. *)
Theorem get_videos_sort_is_whitelisted
    uid role page per_page status_filter sort_by sort_order :
  ∃ s o,
    s ∈ valid_sort_fields ∧ o ∈ valid_sort_orders ∧
    (sort_by ∈ valid_sort_fields → s = sort_by) ∧
    (sort_order ∈ valid_sort_orders → o = sort_order) ∧
    ∀ uid' page' per_page' status_filter',
      Py.truthy status_filter' = Py.truthy status_filter →
      let q := get_videos_queries uid role page per_page status_filter
                                  sort_by sort_order in
      let q' := get_videos_queries uid' role page' per_page' status_filter' s o in
      final_query q = final_query q' ∧ count_query q = count_query q'.
Proof.
  exists (if bool_decide (sort_by ∈ valid_sort_fields) then sort_by else "upload_time"),
         (if bool_decide (sort_order ∈ valid_sort_orders) then sort_order else "DESC").
  assert ("upload_time" ∈ valid_sort_fields) as Hd1 by (by left).
  assert ("DESC" ∈ valid_sort_orders) as Hd2 by (right; by left).
  split_and!.
  - by apply sanitize_in.
  - by apply sanitize_in.
  - intros H. by rewrite bool_decide_true.
  - intros H. by rewrite bool_decide_true.
  - intros uid' page' per_page' status_filter' Ht q q'. subst q q'.
    unfold get_videos_queries.
    pose proof (sanitize_in sort_by "upload_time" _ Hd1) as Hs.
    pose proof (sanitize_in sort_order "DESC" _ Hd2) as Ho.
    revert Hs Ho.
    generalize (if bool_decide (sort_by ∈ valid_sort_fields)
                then sort_by else "upload_time").
    generalize (if bool_decide (sort_order ∈ valid_sort_orders)
                then sort_order else "DESC").
    intros o s Hs Ho.
    rewrite (bool_decide_true (s ∈ valid_sort_fields)),
            (bool_decide_true (o ∈ valid_sort_orders)) by done.
    destruct (bool_decide (role = "admin"));
      destruct status_filter as [f|], status_filter' as [f'|]; simpl in Ht;
      try destruct (Py.truthy_str f); try destruct (Py.truthy_str f');
      try discriminate; done.
Qed.

(** ** The listing of jobs *)

#[local] Instance newer_first_trans : Transitive newer_first.
Proof. intros x y z. unfold newer_first. lia. Qed.

#[local] Instance newer_first_total : Total newer_first.
Proof. intros x y. unfold newer_first. lia. Qed.

Lemma elem_of_listed_jobs d role uid status_filter id j :
  (id, j) ∈ listed_jobs d role uid status_filter ↔
  transcoding_jobs d !! id = Some j ∧ job_listed d role uid status_filter (id, j).
Proof.
  unfold listed_jobs. rewrite sorting.merge_sort_Permutation.
  rewrite list_elem_of_filter, elem_of_map_to_list. tauto.
Qed.

Lemma listed_jobs_NoDup d role uid status_filter :
  NoDup ((listed_jobs d role uid status_filter).*1).
Proof.
  unfold listed_jobs. rewrite sorting.merge_sort_Permutation.
  eapply sublist_NoDup; [apply (NoDup_fst_map_to_list (transcoding_jobs d))|].
  apply fmap_sublist, sublist_filter.
Qed.

Lemma listed_jobs_sorted d role uid status_filter :
  Sorted.StronglySorted newer_first (listed_jobs d role uid status_filter).
Proof. unfold listed_jobs. apply sorting.StronglySorted_merge_sort; apply _. Qed.

Lemma sql_limit_offset_sublist {A} limit offset (rows : list A) :
  sql_limit_offset limit offset rows `sublist_of` rows.
Proof.
  unfold sql_limit_offset. case_bool_decide.
  - apply sublist_drop.
  - etrans; [apply sublist_take|apply sublist_drop].
Qed.

Lemma StronglySorted_sublist {A} (R : relation A) (l l' : list A) :
  l' `sublist_of` l → Sorted.StronglySorted R l → Sorted.StronglySorted R l'.
Proof.
  intros Hsub Hsorted. revert l' Hsub.
  induction Hsorted as [|x l Hl IH Hx]; intros l' Hsub.
  - apply sublist_nil_r in Hsub as ->. constructor.
  - apply sublist_cons_r in Hsub as [Hsub|(l'' & -> & Hsub)]; [by apply IH|].
    constructor; [by apply IH|].
    eapply Forall_forall. intros y Hy. eapply Forall_forall in Hx; [exact Hx|].
    by eapply elem_of_sublist.
Qed.

(** X11. What a page of the job listing shows. Every entry is a stored
    job whose video exists and which has the status asked for when a
    filter is given; a requester who is not an admin only ever sees jobs
    of their own; no job appears twice on a page; the entries come newest
    first; and an entry offers a download link exactly when the job is
    completed. *)
Theorem listing_shows_own_jobs uid role page per_page status_filter d :
  let jobs := response_jobs (get_transcoding_jobs uid role page per_page status_filter d) in
  (∀ item, item ∈ jobs →
     ∃ j, transcoding_jobs d !! ji_id item = Some j ∧
          item = make_job_item role (ji_id item, j) ∧
          is_Some (videos d !! j_video_id j) ∧
          (role ≠ "admin" → j_user_id j = uid) ∧
          (Py.truthy status_filter = true →
           Some (status_text (j_status j)) = status_filter) ∧
          (is_Some (ji_download_url item) ↔ j_status j = completed)) ∧
  NoDup (ji_id <$> jobs) ∧
  Sorted.StronglySorted (λ a b, ji_created_at b ≤ ji_created_at a) jobs.
Proof.
  intros jobs.
  assert (∃ rows, rows `sublist_of` listed_jobs d role uid status_filter ∧
                  jobs = make_job_item role <$> rows) as (rows & Hsub & ->).
  { subst jobs. unfold get_transcoding_jobs.
    repeat case_match; simpl;
      first [ eexists; split; [apply sql_limit_offset_sublist|done]
            | exists nil; split; [apply sublist_nil_l|done] ]. }
  split_and!.
  - intros item ([id j] & -> & Hin)%list_elem_of_fmap.
    apply (elem_of_sublist _ _ _ Hin) in Hsub.
    apply elem_of_listed_jobs in Hsub as (Hj & Hvid & Hown & Hst).
    exists j. simpl in *. split_and!; try done.
    + intros Hrole. by destruct Hown.
    + case_bool_decide; split; intros Hs; first [done | by eexists | by destruct Hs].
  - rewrite <- list_fmap_compose.
    eapply sublist_NoDup; [apply (listed_jobs_NoDup d role uid status_filter)|].
    by apply fmap_sublist.
  - eapply (sorting.StronglySorted_fmap _ newer_first).
    + intros x y Hxy. exact Hxy.
    + eapply StronglySorted_sublist; [exact Hsub|apply listed_jobs_sorted].
Qed.

Lemma listing_page uid role page per_page status_filter d jobs page' pp total pages :
  get_transcoding_jobs uid role page per_page status_filter d
    = JobsPage jobs page' pp total pages →
  fits_int64 per_page = true ∧ fits_int64 ((page - 1) * per_page) = true ∧
  page' = page ∧ pp = per_page ∧
  total = Z.of_nat (length (listed_jobs d role uid status_filter)) ∧
  page_count total per_page = Some pages ∧
  jobs = make_job_item role
           <$> sql_limit_offset per_page ((page - 1) * per_page)
                 (listed_jobs d role uid status_filter).
Proof.
  unfold get_transcoding_jobs.
  destruct (fits_int64 per_page) eqn:Hp; [|done].
  destruct (fits_int64 ((page - 1) * per_page)) eqn:Ho; [|done]. simpl.
  destruct (page_count _ per_page) as [n|] eqn:Hn; [|done].
  intros [= <- <- <- <- <-]. done.
Qed.

Lemma page_count_positive total per_page pages :
  0 ≤ total → 0 < per_page →
  page_count total per_page = Some pages →
  1 ≤ pages ∧ total ≤ pages * per_page ∧ (0 < total → (pages - 1) * per_page < total).
Proof.
  intros Ht Hp. unfold page_count.
  pose proof (Z.mul_div_le (total + per_page - 1) per_page Hp) as Hle.
  pose proof (Z.mul_succ_div_gt (total + per_page - 1) per_page Hp) as Hgt.
  case_bool_decide; [rewrite bool_decide_false by lia|]; intros [= <-]; nia.
Qed.

(** X12. The page arithmetic of the job listing. When the view answers
    with a page, it echoes the page number and the page size, [total] is
    the number of jobs the requester may list under the filter, whatever
    the page asked for, and [pages] is at least 1; for a positive page
    size the page holds at most that many entries, the pages together
    have room for every job, and the last page is not empty when there is
    a job at all; for a negative page size there is one page. *)
Theorem listing_page_arithmetic
    uid role page per_page status_filter d jobs page' pp total pages :
  get_transcoding_jobs uid role page per_page status_filter d
    = JobsPage jobs page' pp total pages →
  page' = page ∧ pp = per_page ∧
  total = Z.of_nat (length (listed_jobs d role uid status_filter)) ∧
  1 ≤ pages ∧
  (0 < per_page →
     Z.of_nat (length jobs) ≤ per_page ∧
     total ≤ pages * per_page ∧
     (0 < total → (pages - 1) * per_page < total)) ∧
  (per_page < 0 → pages = 1).
Proof.
  intros (_ & _ & -> & -> & Htotal & Hpages & ->)%listing_page.
  assert (0 ≤ total) as Hnonneg by lia.
  split_and!; try done.
  - revert Hpages. unfold page_count. repeat case_bool_decide; intros [= <-]; lia.
  - intros Hpos. destruct (page_count_positive _ _ _ Hnonneg Hpos Hpages) as (? & ? & ?).
    split_and!; try done.
    rewrite length_fmap. unfold sql_limit_offset.
    rewrite bool_decide_false by lia. rewrite length_take. lia.
  - intros Hneg. revert Hpages. unfold page_count.
    repeat case_bool_decide; intros [= <-]; [|done].
    assert ((total + per_page - 1) `div` per_page ≤ 1); [|lia].
    replace (total + per_page - 1) with (1 * per_page + (total - 1)) by lia.
    rewrite Z.div_add_l by lia.
    assert ((total - 1) `div` per_page ≤ 0); [|lia].
    pose proof (Z.div_mod (total - 1) per_page ltac:(lia)) as Hdm.
    pose proof (Z.mod_neg_bound (total - 1) per_page Hneg) as Hmod.
    nia.
Qed.

Lemma listing_page_arithmetic_witness :
  1 = Z.of_nat (length (listed_jobs (store Scenario.w1) "user" 3 None)) ∧ 1 ≤ 1.
Proof.
  destruct (listing_page_arithmetic 3 "user" 1 10 None (store Scenario.w1)
              [make_job_item "user" ("job-0", Scenario.job0)] 1 10 1 1)
    as (_ & _ & Htotal & Hpages & _).
  - by vm_compute.
  - exact (conj Htotal Hpages).
Defined.

(** Cutting a list into consecutive pieces of [p] elements and gluing
    the pieces gives the list back. *)
Lemma chunks_concat {A} (p : nat) (l : list A) :
  ∀ n, (length l ≤ n * p)%nat →
  concat ((λ k, take p (drop (k * p) l)) <$> seq 0 n) = l.
Proof.
  intros n. revert l. induction n as [|n IH]; intros l Hlen.
  - simpl in *. by destruct l; [|simpl in Hlen; lia].
  - transitivity (take p l ++ drop p l); [|apply take_drop].
    change (seq 0 (S n)) with (0%nat :: seq 1 n).
    rewrite fmap_cons. change (0 * p)%nat with 0%nat. rewrite drop_0.
    change (concat (?x :: ?xs)) with (x ++ concat xs). f_equal.
    rewrite <- fmap_S_seq, <- list_fmap_compose.
    etrans; [|apply (IH (drop p l)); rewrite length_drop; lia].
    f_equal. apply list_fmap_ext. intros _ k _. simpl.
    rewrite drop_drop. reflexivity.
Qed.

(** X13. Paging through the job listing shows every job exactly once:
    for a positive page size, the entries of pages 1 to [pages], taken in
    order, are the whole listing (every job the requester may list under
    the filter, newest first), provided the last offset still fits in
    64 bits. *)
Theorem listing_pages_cover_all uid role per_page status_filter d pages :
  0 < per_page →
  page_count (Z.of_nat (length (listed_jobs d role uid status_filter))) per_page
    = Some pages →
  pages * per_page < 2 ^ 63 →
  concat ((λ k, response_jobs
                  (get_transcoding_jobs uid role (Z.of_nat k) per_page status_filter d))
          <$> seq 1 (Z.to_nat pages))
  = make_job_item role <$> listed_jobs d role uid status_filter.
Proof.
  intros Hpos Hpages Hfit.
  set (rows := listed_jobs d role uid status_filter) in *.
  destruct (page_count_positive _ _ _ (Nat2Z.is_nonneg _) Hpos Hpages)
    as (Hone & Hroom & _).
  rewrite <- (chunks_concat (Z.to_nat per_page) (make_job_item role <$> rows)
                            (Z.to_nat pages)) at 1 by (rewrite length_fmap; nia).
  rewrite <- fmap_S_seq, <- list_fmap_compose. f_equal.
  apply list_fmap_ext. intros i k [-> Hk]%lookup_seq.
  simpl. unfold get_transcoding_jobs. fold rows.
  assert (fits_int64 per_page = true) as ->.
  { apply bool_decide_eq_true. nia. }
  assert (fits_int64 ((Z.of_nat (S i) - 1) * per_page) = true) as ->.
  { apply bool_decide_eq_true. nia. }
  simpl. rewrite Hpages. simpl. unfold sql_limit_offset.
  rewrite bool_decide_false by lia. rewrite fmap_take, fmap_drop.
  do 2 f_equal. nia.
Qed.

Lemma listing_pages_cover_all_witness :
  concat ((λ k, response_jobs
                  (get_transcoding_jobs 3 "user" (Z.of_nat k) 10 None (store Scenario.w1)))
          <$> seq 1 (Z.to_nat 1))
  = make_job_item "user" <$> listed_jobs (store Scenario.w1) "user" 3 None.
Proof.
  apply (listing_pages_cover_all 3 "user" 10 None (store Scenario.w1) 1).
  - lia.
  - by vm_compute.
  - by vm_compute.
Defined.

(** X14. When the job listing falls back. The view answers with the
    fallback of its [except] block (an empty list, total 0, one page)
    exactly when the page size or the offset does not fit in 64 bits, or
    when the page size is 0 and there is a job to list: with
    [per_page = 0] the jobs of the requester are hidden and counted as
    none. *)
Theorem listing_fallback uid role page per_page status_filter d :
  get_transcoding_jobs uid role page per_page status_filter d = JobsFallback per_page ↔
  (fits_int64 per_page && fits_int64 ((page - 1) * per_page))%bool = false ∨
  (per_page = 0 ∧ listed_jobs d role uid status_filter ≠ []).
Proof.
  unfold get_transcoding_jobs, page_count.
  destruct (fits_int64 per_page && fits_int64 _)%bool; [|by split; [left|]].
  destruct (listed_jobs d role uid status_filter) as [|kj rows];
    cbn [length]; repeat case_bool_decide; try lia;
    (split; [intros Heq|intros [Heq|[Hz Hne]]]);
    first [done | lia | by right].
Qed.

Lemma filter_all {A} (P : A → Prop) `{!∀ x, Decision (P x)} (l : list A) :
  (∀ x, x ∈ l → P x) → filter P l = l.
Proof.
  induction l as [|x l IH]; intros Hall; [done|].
  rewrite filter_cons_True by (apply Hall; by left).
  f_equal. apply IH. intros y Hy. apply Hall. by right.
Qed.

Lemma filter_length_all {A} (P : A → Prop) `{!∀ x, Decision (P x)} (l : list A) :
  length (filter P l) = length l → ∀ x, x ∈ l → P x.
Proof.
  induction l as [|y l IH]; intros Hlen x Hx; [by apply elem_of_nil in Hx|].
  rewrite filter_cons in Hlen. pose proof (length_filter P l) as Hle.
  destruct (decide (P y)) as [Hy|Hy]; simpl in Hlen; [|lia].
  apply elem_of_cons in Hx as [->|Hx]; [done|]. apply IH; [lia|done].
Qed.

(** X15. The JOIN of the job listing drops the jobs whose video has no
    row. A row is in the listing (no status filter) exactly when its
    video has a row and the requester is an admin or the job's owner; so
    the total an admin is told is the number of job rows whose video
    exists, at most the number of rows of the job table, and equal to it
    exactly when every job's video exists. After a deletion between the
    check and the INSERT of a submission the job table has a row that no
    listing shows. *)
Theorem listing_drops_jobs_without_video d role uid :
  (∀ id j, (id, j) ∈ listed_jobs d role uid None ↔
           transcoding_jobs d !! id = Some j ∧
           is_Some (videos d !! j_video_id j) ∧
           (role = "admin" ∨ j_user_id j = uid)) ∧
  (length (listed_jobs d "admin" uid None) ≤ size (transcoding_jobs d))%nat ∧
  (length (listed_jobs d "admin" uid None) = size (transcoding_jobs d) ↔
   ∀ id j, transcoding_jobs d !! id = Some j → is_Some (videos d !! j_video_id j)) ∧
  (∃ s, run Scenario.delete_in_between (start Scenario.videos0) = Some s ∧
        size (transcoding_jobs (store (state s))) = 1%nat ∧
        listed_jobs (store (state s)) "admin" 1 None = []).
Proof.
  assert (length (listed_jobs d "admin" uid None)
          = length (filter (job_listed d "admin" uid None)
                           (map_to_list (transcoding_jobs d)))) as Hlen.
  { unfold listed_jobs. by rewrite sorting.merge_sort_Permutation. }
  split_and!.
  - intros id j. rewrite elem_of_listed_jobs. unfold job_listed. simpl.
    split; [intros (? & ? & ? & _); done|intros (? & ? & ?); done].
  - rewrite Hlen, <- length_map_to_list. apply length_filter.
  - rewrite Hlen, <- length_map_to_list. split.
    + intros Heq id j Hj.
      apply (filter_length_all _ _ Heq (id, j)). by apply elem_of_map_to_list.
    + intros Hall. rewrite filter_all; [done|].
      intros [id j] Hin%elem_of_map_to_list. split_and!; simpl; [by eapply Hall|by left|done].
  - eexists. split; [vm_compute; reflexivity|]. split; vm_compute; reflexivity.
Qed.

(** ** Preferences *)

Lemma requester_allowed (role : string) (uid user_id : Z) :
  role = "admin" ∨ uid = user_id →
  (negb (bool_decide (role = "admin")) && negb (bool_decide (uid = user_id)))%bool = false.
Proof.
  intros [Hr|Hu].
  - by rewrite (bool_decide_true _ Hr).
  - rewrite (bool_decide_true _ Hu). apply andb_false_r.
Qed.

(** X16. Preferences are private and a write is local. A requester who
    is neither an admin nor the user named in the route gets 403 for a
    GET and for a PUT, and nothing changes; and whoever calls, the view
    never touches the user accounts, never creates or removes a
    preferences row, and never changes the row of another user. *)
Theorem preferences_are_private method uid role user_id data a :
  let r := user_preferences method uid role user_id data a in
  users r.2 = users a ∧
  dom (user_preferences_rows r.2) = dom (user_preferences_rows a) ∧
  (∀ other, other ≠ user_id →
            user_preferences_rows r.2 !! other = user_preferences_rows a !! other) ∧
  (role ≠ "admin" → uid ≠ user_id → r = (AccountMessage 403 "Access denied", a)).
Proof.
  unfold user_preferences.
  destruct (negb (bool_decide (role = "admin")) && negb (bool_decide (uid = user_id)))%bool
    eqn:Hdenied; simpl.
  - split_and!; done.
  - split_and!.
    + destruct method; [by destruct (user_preferences_rows a !! user_id)|done].
    + destruct method; [by destruct (user_preferences_rows a !! user_id)|].
      simpl. apply dom_alter_L.
    + intros other Hne.
      destruct method; [by destruct (user_preferences_rows a !! user_id)|].
      simpl. by rewrite lookup_alter_ne.
    + intros Hrole Hid. rewrite !bool_decide_false in Hdenied by done. done.
Qed.





(** ** Registration *)

Lemma sample_accounts_ok : accounts_ok sample_accounts.
Proof.
  split.
  - intros id id' u u' Hu Hu' Hsame. unfold sample_accounts in *. simpl in *.
    apply lookup_insert_Some in Hu as [[<- <-]|[? Hu]];
      [|apply lookup_insert_Some in Hu as [[<- <-]|[? Hu]]; [|done]];
      (apply lookup_insert_Some in Hu' as [[<- <-]|[? Hu']];
       [|apply lookup_insert_Some in Hu' as [[<- <-]|[? Hu']]; [|done]]);
      first [done | by destruct Hsame].
  - intros id [u Hu]. unfold sample_accounts in *. simpl in *.
    apply lookup_insert_Some in Hu as [[<- <-]|[? Hu]]; [by eexists|].
    apply lookup_insert_Some in Hu as [[<- <-]|[? Hu]]; [by eexists|done].
Qed.

(** X19. Registration with a free username and email. When the three
    required fields are non-empty, no stored user has the username or
    the email, and the store hands out a row id that is not in use, the
    view answers 201 and stores the user under that id with the
    password hash and with the role the request asked for, whatever it
    is, or user when the request has no role key; the new user's first
    GET of their preferences returns mp4, 720p, medium, notifications
    on, auto-delete off; every other user and every other row of
    preferences is as before. *)
Theorem register_creates_account password_hash new_id data a username email password :
  get_truthy (rb_username data) = Some username →
  get_truthy (rb_email data) = Some email →
  get_truthy (rb_password data) = Some password →
  ¬ username_or_email_taken username email (users a) →
  users a !! new_id = None →
  user_preferences_rows a !! new_id = None →
  let r := register password_hash new_id data a in
  r.1 = AccountMessage 201 "User created successfully" ∧
  users r.2 !! new_id
  = Some {| u_username := username; u_email := email;
            u_password_hash := password_hash;
            u_role := default (Some "user") (rb_role data) |} ∧
  (∀ role, (user_preferences GET new_id role new_id no_preferences r.2).1
           = PreferencesData (Some "mp4") (Some "720p") (Some "medium") true false) ∧
  (∀ other, other ≠ new_id →
            users r.2 !! other = users a !! other ∧
            user_preferences_rows r.2 !! other = user_preferences_rows a !! other).
Proof.
  intros Hu He Hp Hfree Hid Hrow r. subst r. unfold register.
  rewrite Hu, He, Hp. rewrite decide_False by done.
  rewrite decide_False by (rewrite Hrow; by intros [? ?]).
  simpl. split_and!.
  - done.
  - by rewrite lookup_insert_eq.
  - intros role. unfold user_preferences.
    rewrite (requester_allowed role new_id new_id (or_intror eq_refl)).
    simpl. by rewrite lookup_insert_eq.
  - intros other Hne. by rewrite !lookup_insert_ne.
Qed.

Lemma register_creates_account_witness :
  (register "hash-9" 5 sample_registration sample_accounts).1
  = AccountMessage 201 "User created successfully" ∧
  users (register "hash-9" 5 sample_registration sample_accounts).2 !! 5
  = Some {| u_username := "creator9"; u_email := "c9@example.org";
            u_password_hash := "hash-9"; u_role := Some "admin" |}.
Proof.
  assert (¬ username_or_email_taken "creator9" "c9@example.org" (users sample_accounts))
    as Hfree.
  { intros Htaken.
    assert (bool_decide (username_or_email_taken "creator9" "c9@example.org"
                           (users sample_accounts)) = false) as Hb by (vm_compute; reflexivity).
    by apply bool_decide_eq_false in Hb. }
  destruct (register_creates_account "hash-9" 5 sample_registration sample_accounts
              "creator9" "c9@example.org" "secret"
              eq_refl eq_refl eq_refl Hfree eq_refl eq_refl) as (H1 & H2 & _).
  exact (conj H1 H2).
Defined.

(** X20. Registration keeps usernames and emails unique. From accounts
    in which no two users share a username or an email and every user
    has a row of preferences, and with a row id not in use, any request
    leaves accounts of the same kind; a request whose username or email
    is already stored is not answered 201; and every request that is
    not answered 201 stores nothing. *)
Theorem register_keeps_accounts_unique password_hash new_id data a :
  accounts_ok a →
  users a !! new_id = None →
  let r := register password_hash new_id data a in
  accounts_ok r.2 ∧
  (r.1 = AccountMessage 201 "User created successfully" ∨ r.2 = a) ∧
  (∀ username email,
     get_truthy (rb_username data) = Some username →
     get_truthy (rb_email data) = Some email →
     username_or_email_taken username email (users a) →
     r.1 ≠ AccountMessage 201 "User created successfully").
Proof.
  intros [Huniq Hrows] Hid r. subst r. unfold register.
  destruct (get_truthy (rb_username data)) as [username|] eqn:Hu;
    [|by split_and!; [split|right|]].
  destruct (get_truthy (rb_email data)) as [email|] eqn:He;
    [|by split_and!; [split|right|]].
  destruct (get_truthy (rb_password data)) as [password|] eqn:Hp;
    [|by split_and!; [split|right|]].
  destruct (decide (username_or_email_taken username email (users a))) as [Htaken|Hfree].
  { by split_and!; [split|right|]. }
  destruct (decide (is_Some (user_preferences_rows a !! new_id))) as [Hrow|Hrow].
  { by split_and!; [split|right|]. }
  simpl. split_and!.
  - split; simpl.
    + intros id id' u u' Hl Hl' Hsame.
      apply lookup_insert_Some in Hl as [[<- <-]|[Hne Hl]];
        apply lookup_insert_Some in Hl' as [[<- <-]|[Hne' Hl']].
      * done.
      * exfalso. apply Hfree. exists id', u'. split; [done|].
        simpl in Hsame. destruct Hsame as [Hs|Hs]; [by left|by right].
      * exfalso. apply Hfree. exists id, u. split; [done|].
        simpl in Hsame. destruct Hsame as [Hs|Hs]; [by left|by right].
      * by apply (Huniq id id' u u').
    + intros id [u Hl].
      apply lookup_insert_Some in Hl as [[<- <-]|[Hne Hl]].
      * rewrite lookup_insert_eq. by eexists.
      * rewrite lookup_insert_ne by done. apply Hrows. by eexists.
  - by left.
  - intros username' email' [= <-] [= <-] Htaken. done.
Qed.

Lemma register_keeps_accounts_unique_witness :
  accounts_ok (register "hash-9" 5 sample_registration sample_accounts).2.
Proof.
  exact (proj1 (register_keeps_accounts_unique "hash-9" 5 sample_registration
                  sample_accounts sample_accounts_ok eq_refl)).
Defined.

(** ** Statistics *)

Lemma status_text_inj s s' : status_text s = status_text s' → s = s'.
Proof. by destruct s, s'. Qed.

Lemma count_rows_lookup (l : list (string * job)) s :
  foldr count_row ∅ l !! status_text s
  = let n := length (filter (λ kj : string * job, j_status kj.2 = s) l) in
    if bool_decide (n = 0%nat) then None else Some (Z.of_nat n).
Proof.
  induction l as [|kj l IH]; [done|].
  cbn [foldr]. unfold count_row at 1. rewrite lookup_partial_alter.
  destruct (decide (j_status kj.2 = s)) as [Hs|Hs].
  - rewrite filter_cons_True by done. rewrite decide_True by (by rewrite Hs).
    rewrite Hs, IH. cbn [length]. cbv zeta.
    rewrite (bool_decide_false (S _ = 0%nat)) by done.
    case_bool_decide as Hn; simpl; f_equal; lia.
  - rewrite filter_cons_False by done.
    rewrite decide_False by (intros Heq; by apply status_text_inj in Heq).
    apply IH.
Qed.

Lemma count_rows_keys (l : list (string * job)) k :
  is_Some (foldr count_row ∅ l !! k) → ∃ s, k = status_text s.
Proof.
  induction l as [|kj l IH]; [by intros [? ?]|].
  cbn [foldr]. unfold count_row at 1. rewrite lookup_partial_alter.
  case_decide as Hk; [intros _; by eexists|done].
Qed.

Lemma jobs_total_insert k n (m : gmap string Z) :
  m !! k = None → jobs_total (<[k := n]> m) = n + jobs_total m.
Proof.
  intros Hk. unfold jobs_total. rewrite map_fold_insert_L; [done| |done].
  intros. lia.
Qed.

Lemma jobs_total_count_row kj m : jobs_total (count_row kj m) = jobs_total m + 1.
Proof.
  unfold count_row. set (k := status_text (j_status kj.2)).
  destruct (m !! k) as [n|] eqn:Hk.
  - assert (partial_alter (λ n, Some (default 0 n + 1)) k m = <[k := n + 1]> (delete k m))
      as ->.
    { apply map_eq. intros i. rewrite lookup_partial_alter.
      case_decide as Hi.
      - subst i. by rewrite lookup_insert_eq, Hk.
      - by rewrite lookup_insert_ne, lookup_delete_ne. }
    rewrite <- (insert_delete_id m k n Hk) at 2.
    rewrite !jobs_total_insert by apply lookup_delete_eq. lia.
  - assert (partial_alter (λ n, Some (default 0 n + 1)) k m = <[k := 1]> m) as ->.
    { apply partial_alter_ext. intros x Hx. rewrite Hk in Hx. by subst x. }
    rewrite jobs_total_insert by done. lia.
Qed.

Lemma jobs_total_count_rows (l : list (string * job)) :
  jobs_total (foldr count_row ∅ l) = Z.of_nat (length l).
Proof.
  induction l as [|kj l IH]; [done|].
  cbn [foldr length]. rewrite jobs_total_count_row, IH. lia.
Qed.

Lemma filter_iff_in {A} (P Q : A → Prop) `{!∀ x, Decision (P x)} `{!∀ x, Decision (Q x)}
    (l : list A) :
  (∀ x, x ∈ l → P x ↔ Q x) → filter P l = filter Q l.
Proof.
  induction l as [|x l IH]; intros Hiff; [done|].
  rewrite !filter_cons.
  rewrite IH by (intros y Hy; apply Hiff; by right).
  pose proof (Hiff x ltac:(by left)).
  repeat case_decide; first [done | tauto].
Qed.

(** X21. The job counts of the statistics. For every status, the dict
    [by_status] holds the number of counted rows in that status, and no
    key when there is none; it has no other key; and [total] is the
    number of counted rows, where the counted rows are all the rows of
    the job table for an admin and the requester's own rows for anyone
    else. *)
Theorem stats_count_jobs role uid d :
  let by_status := job_stats role uid d in
  (∀ id j, (id, j) ∈ stats_rows role uid d ↔
           transcoding_jobs d !! id = Some j ∧ (role = "admin" ∨ j_user_id j = uid)) ∧
  (∀ s, by_status !! status_text s
        = let n := length (filter (λ kj : string * job, j_status kj.2 = s)
                                  (stats_rows role uid d)) in
          if bool_decide (n = 0%nat) then None else Some (Z.of_nat n)) ∧
  (∀ k, is_Some (by_status !! k) → ∃ s, k = status_text s) ∧
  jobs_total by_status = Z.of_nat (length (stats_rows role uid d)).
Proof.
  split_and!.
  - intros id j. unfold stats_rows.
    rewrite list_elem_of_filter, elem_of_map_to_list. unfold stats_row. simpl. tauto.
  - intros s. apply count_rows_lookup.
  - intros k. apply count_rows_keys.
  - apply jobs_total_count_rows.
Qed.

(** X22. The statistics and the job listing count differently. The
    statistics count the rows of the job table (all of them for an
    admin, the requester's own for anyone else); the listing counts only
    those whose video has a row. So the total of the listing without a
    status filter is at most the total of the statistics, for the same
    requester, and the two are equal exactly when the video of every
    counted job exists. After a deletion between the check and the
    INSERT of a submission they differ: the statistics count one queued
    job and the listing is empty. *)
Theorem stats_total_bounds_listing d role uid :
  Z.of_nat (length (listed_jobs d role uid None)) ≤ jobs_total (job_stats role uid d) ∧
  (jobs_total (job_stats role uid d) = Z.of_nat (length (listed_jobs d role uid None)) ↔
   ∀ id j, transcoding_jobs d !! id = Some j → role = "admin" ∨ j_user_id j = uid →
           is_Some (videos d !! j_video_id j)) ∧
  (∃ s, run Scenario.delete_in_between (start Scenario.videos0) = Some s ∧
        job_stats "user" 3 (store (state s)) !! "queued" = Some 1 ∧
        jobs_total (job_stats "user" 3 (store (state s))) = 1 ∧
        listed_jobs (store (state s)) "user" 3 None = []).
Proof.
  assert (length (listed_jobs d role uid None)
          = length (filter (λ kj : string * job, is_Some (videos d !! j_video_id kj.2))
                           (stats_rows role uid d))) as Hlen.
  { unfold listed_jobs, stats_rows.
    rewrite sorting.merge_sort_Permutation, list_filter_filter.
    f_equal. apply filter_iff_in. intros [id j] _.
    unfold job_listed, stats_row. simpl.
    split; [intros (? & ? & _); by split|intros [? ?]; by split_and!]. }
  unfold job_stats. rewrite jobs_total_count_rows, Hlen.
  split_and!.
  - apply inj_le, length_filter.
  - split.
    + intros Heq%Nat2Z.inj id j Hj Hrow.
      apply (filter_length_all _ _ (eq_sym Heq) (id, j)).
      unfold stats_rows. apply list_elem_of_filter.
      split; [done|by apply elem_of_map_to_list].
    + intros Hall. rewrite filter_all; [done|].
      intros [id j] [Hrow Hin%elem_of_map_to_list]%list_elem_of_filter.
      simpl. by eapply Hall.
  - eexists. split; [vm_compute; reflexivity|].
    split_and!; vm_compute; reflexivity.
Qed.

(** ** The run of a job that raises *)

(** X25. What an exception does to the row of the job. Take a run whose
    [try] block raises [e], at its first commit or later (no target
    format, an engine that cannot be started, a store that refuses the
    last commit), and let [j0] be the row as the last commit left it:
    the row as submitted, or that row set to processing. When the
    [except] block runs to its end, the row is [j0] with status failed
    and error message [e]; when the [except] block raises too, the row
    is [j0]: it keeps its status, queued or processing, and gets no
    error message. No other row changes. *)
Theorem exception_outcome ev inp out tf tr tb job_id d j e j0 :
  transcoding_jobs d !! job_id = Some j →
  (ev_begin ev = inl e ∧ j0 = j) ∨
  (∃ now t0,
     ev_begin ev = inr (now, t0) ∧ j0 = set_processing now j ∧
     try_end (ev_engine ev) (ev_end ev) inp out tf tr tb job_id t0
             (update_job job_id (set_processing now) d) = inl e) →
  let d' := transcode_video_cpu_intensive ev inp out tf tr tb job_id d in
  transcoding_jobs d' !! job_id
  = Some (match ev_handler ev with
          | None => set_failed e j0
          | Some _ => j0
          end) ∧
  (ev_handler ev = None →
   ∃ j', transcoding_jobs d' !! job_id = Some j' ∧
         j_status j' = failed ∧ j_error_message j' = Some e) ∧
  (is_Some (ev_handler ev) →
   ∃ j', transcoding_jobs d' !! job_id = Some j' ∧
         j_error_message j' = j_error_message j ∧
         (j_status j' = j_status j ∨ j_status j' = processing)) ∧
  (∀ id, id ≠ job_id → transcoding_jobs d' !! id = transcoding_jobs d !! id).
Proof.
  intros Hj Hraise d'.
  assert (transcoding_jobs d' !! job_id
          = Some (match ev_handler ev with
                  | None => set_failed e j0
                  | Some _ => j0
                  end) ∧
          (∀ id, id ≠ job_id → transcoding_jobs d' !! id = transcoding_jobs d !! id))
    as [Hrow Hother].
  { subst d'. destruct Hraise as [[Hb ->]|(now & t0 & Hb & -> & Hend)].
    - rewrite (run_begin_raise _ _ _ _ _ _ _ _ _ Hb). unfold on_exception.
      destruct (ev_handler ev); [done|]. split.
      + by rewrite update_job_lookup_eq, Hj.
      + intros id Hne. by rewrite update_job_lookup_ne.
    - rewrite (run_begin_ok _ _ _ _ _ _ _ _ _ _ Hb). unfold worker_end.
      rewrite Hend. unfold on_exception. destruct (ev_handler ev).
      + split; [by rewrite update_job_lookup_eq, Hj|].
        intros id Hne. by rewrite update_job_lookup_ne.
      + split; [by rewrite !update_job_lookup_eq, Hj|].
        intros id Hne. by rewrite !update_job_lookup_ne. }
  split_and!; [done| | |done].
  - intros Hh. rewrite Hh in Hrow. eauto.
  - intros [e' Hh]. rewrite Hh in Hrow. eexists. split; [exact Hrow|].
    destruct Hraise as [[_ ->]|(now & t0 & _ & -> & _)]; simpl; auto.
Qed.

(** X25 on the sample job: the engine cannot be started and the
    [except] block runs to its end. *)
Lemma exception_outcome_witness :
  ∃ j', transcoding_jobs
          (transcode_video_cpu_intensive Scenario.no_ffmpeg
             "uploads/a.mp4" "transcoded/job-0_h264_720p.mp4"
             (Some "h264") (Some "720p") (Some "2M") "job-0" (store Scenario.w1))
          !! "job-0" = Some j' ∧
        j_status j' = failed ∧
        j_error_message j' = Some "[Errno 2] No such file or directory: 'ffmpeg'".
Proof.
  refine (proj1 (proj2 (exception_outcome Scenario.no_ffmpeg
                          "uploads/a.mp4" "transcoded/job-0_h264_720p.mp4"
                          (Some "h264") (Some "720p") (Some "2M") "job-0"
                          (store Scenario.w1) Scenario.job0
                          "[Errno 2] No such file or directory: 'ffmpeg'"
                          (set_processing 1 Scenario.job0) _ _)) eq_refl).
  - reflexivity.
  - right. exists 1, 100. split; [reflexivity|]. split; reflexivity.
Defined.

(** ** The views as schedules of the service *)


